(** * portable_std: the UTF-16 [std::string] of [std/string.h]

    A shallow embedding of the text buffer of [src/std/string.h] (with
    [strlen] from [src/std/cstring.h] and the exception classes of
    [src/std/stdexcept.h]), and the properties of its encoding detector,
    transcoders, growth rule and code-unit operations.

    Conventions of the embedding:
    - [size_type] ([unsigned long], 64 bits) and [ssize_type] are [Z]; the
      wrap-around of [size_type] is written out where the source computes a
      size or converts to one ([to_size_type]); the indices of the loops
      over the input, which stay below its length, are left as they are.
    - a [char] of the input is the value of its byte, [0 .. 255]; whether
      plain [char] is signed is left to the platform by the language, and is
      a parameter of the one place that converts a plain [char]
      ([char_to_data_type]).
    - a [data_type] ([short]) is the bit pattern of its 16 bits,
      [0 .. 65535], which is also what [static_cast<udata_type>] reads.
    - an array obtained from [new T[n]] is a list of [n] cells; a cell that
      was never written holds [None].
    - member functions run in the monad [M]: they read and write the object
      ([ptr], [len], [_str_capacity]) and end normally, by an exception
      (the object stays as it was when the exception left the function), or
      in behaviour the language does not define (an access outside an
      array, a null pointer dereferenced, an indeterminate value used).
      Allocation itself is taken to succeed. *)

From Stdlib Require Import ZArith String.
From stdpp Require Import base tactics list numbers.

Local Open Scope Z_scope.

(** ** stdexcept.h *)

Inductive exception : Type :=
  | runtime_error (what : String.string)
  | out_of_range.

(** The error kinds of the specification, and the exception each one names:
    the decoders only throw [runtime_error], told apart by their message. *)
Inductive error_kind : Type :=
  | MalformedSequence
  | InvalidSurrogate
  | InvalidCodepoint
  | OutOfRange
  | OtherError.

Definition kind_of (e : exception) : error_kind :=
  match e with
  | out_of_range => OutOfRange
  | runtime_error what =>
      if String.eqb what "Incomplete UTF-8 sequence" then MalformedSequence
      else if String.eqb what "Invalid UTF-8 sequence" then MalformedSequence
      else if String.eqb what "Invalid UTF-8 start byte" then MalformedSequence
      else if String.eqb what "Incomplete surrogate pair" then InvalidSurrogate
      else if String.eqb what "Invalid low surrogate" then InvalidSurrogate
      else if String.eqb what "Invalid Unicode code point" then InvalidCodepoint
      else OtherError
  end.

(** ** Integer types *)

Definition to_size_type (x : Z) : Z := x mod 2 ^ 64.
Definition to_unsigned_int (x : Z) : Z := x mod 2 ^ 32.
Definition to_data_type (x : Z) : Z := x mod 2 ^ 16.
Definition to_char (x : Z) : Z := x mod 2 ^ 8.

(** [static_cast<data_type>(c)] for a plain [char] holding the byte [b]. *)
Definition char_to_data_type (plain_char_signed : bool) (b : Z) : Z :=
  if plain_char_signed && (128 <=? b) then to_data_type (b - 256) else b.

(** [static_cast<size_type>(-1)] *)
Definition npos : Z := to_size_type (-1).

(** ** cstring.h *)

Fixpoint strlen_from (str : list Z) (n : Z) : option Z :=
  match str with
  | [] => None
  | c :: rest => if c =? 0 then Some n else strlen_from rest (n + 1)
  end.

(** [strlen]: the index of the first zero byte; [None] when the array has
    none, where the source reads past its end. *)
Definition strlen (str : list Z) : option Z := strlen_from str 0.

(** ** The object *)

(** A cell of the array of code units: [None] until it is written. *)
Abbreviation cell := (option Z).

Record string : Type := mk_string {
  ptr : option (list cell);
  len : Z;
  _str_capacity : Z
}.

(** The default member initialisers: [ptr = nullptr], [len = 0],
    [_str_capacity = 0]. *)
Definition default_members : string :=
  {| ptr := None; len := 0; _str_capacity := 0 |}.

Inductive Encoding : Type :=
  | ASCII | UTF8 | UTF16_LE | UTF16_BE | UTF32_LE | UTF32_BE.

(** ** Outcomes and the monad of member functions *)

Inductive outcome (A : Type) : Type :=
  | Normal (a : A) (s : string)
  | Throw (e : exception) (s : string)
  | Undefined
  | OutOfFuel.

Arguments Normal {A} a s.
Arguments Throw {A} e s.
Arguments Undefined {A}.
Arguments OutOfFuel {A}.

Definition M (A : Type) : Type := string -> outcome A.

Definition ret {A : Type} (a : A) : M A := fun s => Normal a s.

Definition bind {A B : Type} (m : M A) (k : A -> M B) : M B :=
  fun s =>
    match m s with
    | Normal a s' => k a s'
    | Throw e s' => Throw e s'
    | Undefined => Undefined
    | OutOfFuel => OutOfFuel
    end.

Definition throw {A : Type} (e : exception) : M A := fun s => Throw e s.
Definition undefined {A : Type} : M A := fun _ => Undefined.
Definition out_of_fuel {A : Type} : M A := fun _ => OutOfFuel.

Declare Scope cpp_scope.
Delimit Scope cpp_scope with cpp.
Notation "'let*' x ':=' m 'in' k" := (bind m (fun x => k))
  (at level 10, x name, m at level 100, k at level 200) : cpp_scope.
Notation "m ';;' k" := (bind m (fun _ => k))
  (at level 100, k at level 200, right associativity) : cpp_scope.
Local Open Scope cpp_scope.

(** The member [len], which [size()] and [length()] return. *)
Definition get_len : M Z := fun s => Normal (len s) s.
(** [capacity()] *)
Definition capacity : M Z := fun s => Normal (_str_capacity s) s.
Definition set_len (n : Z) : M unit :=
  fun s => Normal tt {| ptr := ptr s; len := n; _str_capacity := _str_capacity s |}.

(** [ptr[i]] read. *)
Definition read_ptr (i : Z) : M Z :=
  fun s =>
    match ptr s with
    | None => Undefined
    | Some buf =>
        if 0 <=? i then
          match buf !! Z.to_nat i with
          | Some (Some v) => Normal v s
          | _ => Undefined
          end
        else Undefined
    end.

(** [ptr[i] = v]. *)
Definition write_ptr (i v : Z) : M unit :=
  fun s =>
    match ptr s with
    | None => Undefined
    | Some buf =>
        if (0 <=? i) && (i <? Z.of_nat (length buf)) then
          Normal tt {| ptr := Some (<[Z.to_nat i := Some v]> buf);
                       len := len s;
                       _str_capacity := _str_capacity s |}
        else Undefined
    end.

(** [str[i]] of the input, as [unsigned char]. *)
Definition char_at (str : list Z) (i : Z) : M Z :=
  fun s =>
    if 0 <=? i then
      match str !! Z.to_nat i with
      | Some c => Normal c s
      | None => Undefined
      end
    else Undefined.

Definition strlen_m (str : list Z) : M Z :=
  fun s => match strlen str with Some n => Normal n s | None => Undefined end.

(** [new T[n]] *)
Definition new_array {A : Type} (n : Z) : list (option A) :=
  replicate (Z.to_nat n) None.

(** [memcpy(dst, src, n)] counted in elements: defined when both arrays
    hold [n] elements. *)
Definition memcpy {A : Type} (dst src : list A) (n : Z) : option (list A) :=
  if (0 <=? n) && (n <=? Z.of_nat (length src)) && (n <=? Z.of_nat (length dst))
  then Some (take (Z.to_nat n) src ++ drop (Z.to_nat n) dst)
  else None.

(** ** string::ensure_capacity *)

Definition ensure_capacity (new__str_capacity : Z) : M unit :=
  fun s =>
    if _str_capacity s <? new__str_capacity then
      let new_cap :=
        if _str_capacity s =? 0 then 8 else to_size_type (_str_capacity s * 2) in
      let new_cap :=
        if new_cap <? new__str_capacity then new__str_capacity else new_cap in
      let new_ptr : list cell := new_array new_cap in
      let copied :=
        match ptr s with
        | Some old => if 0 <? len s then memcpy new_ptr old (len s) else Some new_ptr
        | None => Some new_ptr
        end in
      match copied with
      | Some buf => Normal tt {| ptr := Some buf; len := len s; _str_capacity := new_cap |}
      | None => Undefined
      end
    else Normal tt s.

(** ** Constructors *)

(** [string()] *)
Definition string_default : outcome unit :=
  (ensure_capacity 1 ;; write_ptr 0 0) default_members.

(** [string(const string &other)]: [std::memcpy] returns at once when the
    source is the null pointer, and the new array stays unwritten. *)
Definition string_copy (other : string) : outcome unit :=
  if 0 <? len other then
    let fresh : list cell := new_array (_str_capacity other) in
    match ptr other with
    | Some src =>
        match memcpy fresh src (len other) with
        | Some buf =>
            Normal tt {| ptr := Some buf; len := len other;
                         _str_capacity := _str_capacity other |}
        | None => Undefined
        end
    | None =>
        Normal tt {| ptr := Some fresh; len := len other;
                     _str_capacity := _str_capacity other |}
    end
  else
    Normal tt {| ptr := None; len := len other;
                 _str_capacity := _str_capacity other |}.

(** [string(string &&other)]: the new object, and what is left of [other]. *)
Definition string_move (other : string) : string * string :=
  ({| ptr := ptr other; len := len other; _str_capacity := _str_capacity other |},
   default_members).

(** ** Capacity and size *)

Definition reserve (new__str_capacity : Z) : M unit :=
  ensure_capacity new__str_capacity.

Definition shrink_to_fit : M unit :=
  fun s =>
    let fresh : list cell := new_array (len s) in
    let copied :=
      match ptr s with
      | Some src => memcpy fresh src (len s)
      | None => Some fresh
      end in
    match copied with
    | Some buf => Normal tt {| ptr := Some buf; len := len s; _str_capacity := len s |}
    | None => Undefined
    end.

Definition resize (new_size : Z) : M unit :=
  ensure_capacity new_size ;; set_len new_size.

Definition clear : M unit :=
  fun _ => Normal tt default_members.

(** ** Appending code units *)

(** [push_back(ch)] and [append(data_type ch)] have the same body. *)
Definition push_back (ch : Z) : M unit :=
  let* n := get_len in
  ensure_capacity (to_size_type (n + 1)) ;;
  write_ptr n ch ;;
  set_len (to_size_type (n + 1)).

Definition append_char (ch : Z) : M unit := push_back ch.

(** [append(const string &other)], for an [other] that is not the object
    itself: [memcpy(ptr + len, other.ptr, ...)], where [std::memcpy] returns
    at once when one of the two pointers is null, and [len += other.len]. *)
Definition append_string (other : string) : M unit :=
  fun s =>
    match ensure_capacity (to_size_type (len s + len other)) s with
    | Normal _ s1 =>
        let new_len := to_size_type (len s1 + len other) in
        match ptr s1 with
        | None =>
            if len s1 =? 0
            then Normal tt {| ptr := None; len := new_len;
                              _str_capacity := _str_capacity s1 |}
            else Undefined
        | Some dst =>
            if (0 <=? len s1) && (len s1 <=? Z.of_nat (length dst)) then
              match ptr other with
              | None =>
                  Normal tt {| ptr := Some dst; len := new_len;
                               _str_capacity := _str_capacity s1 |}
              | Some src =>
                  match memcpy (drop (Z.to_nat (len s1)) dst) src (len other) with
                  | Some tail =>
                      Normal tt {| ptr := Some (take (Z.to_nat (len s1)) dst ++ tail);
                                   len := new_len;
                                   _str_capacity := _str_capacity s1 |}
                  | None => Undefined
                  end
              end
            else Undefined
        end
    | Throw e s1 => Throw e s1
    | Undefined => Undefined
    | OutOfFuel => OutOfFuel
    end.

(** ** string::detect_encoding *)

(** [bytes[i] == v] *)
Definition byte_is (str : list Z) (i v : Z) : M bool :=
  let* b := char_at str i in ret (b =? v).

(** [a && b] with the right operand evaluated only when the left holds. *)
Definition and_then (a b : M bool) : M bool :=
  let* x := a in if x then b else ret false.

Infix "&&&" := and_then (at level 40, left associativity) : cpp_scope.

Fixpoint detect_utf8_heuristic_loop (fuel : nat) (str : list Z)
    (len_in i utf8_sequence_count expected_continuation_bytes : Z) : M Encoding :=
  if i <? len_in then
    match fuel with
    | O => out_of_fuel
    | S fuel' =>
        let* byte := char_at str i in
        if expected_continuation_bytes =? 0 then
          if byte <=? 0x7F then
            detect_utf8_heuristic_loop fuel' str len_in (i + 1)
              utf8_sequence_count expected_continuation_bytes
          else if Z.land byte 0xE0 =? 0xC0 then
            detect_utf8_heuristic_loop fuel' str len_in (i + 1)
              (utf8_sequence_count + 1) 1
          else if Z.land byte 0xF0 =? 0xE0 then
            detect_utf8_heuristic_loop fuel' str len_in (i + 1)
              (utf8_sequence_count + 1) 2
          else if Z.land byte 0xF8 =? 0xF0 then
            detect_utf8_heuristic_loop fuel' str len_in (i + 1)
              (utf8_sequence_count + 1) 3
          else ret ASCII
        else
          if negb (Z.land byte 0xC0 =? 0x80) then ret ASCII
          else
            detect_utf8_heuristic_loop fuel' str len_in (i + 1)
              utf8_sequence_count (expected_continuation_bytes - 1)
    end
  else ret (if 0 <? utf8_sequence_count then UTF8 else ASCII).

Definition detect_utf8_heuristic (str : list Z) (len_in : Z) : M Encoding :=
  detect_utf8_heuristic_loop (Z.to_nat len_in) str len_in 0 0 0.

Definition detect_encoding (str : list Z) (len_in : Z) : M Encoding :=
  let* len_in := (if len_in =? -1 then strlen_m str else ret len_in) in
  if len_in <? 2 then ret ASCII
  else
    let* utf8_bom :=
      (if 3 <=? len_in
       then byte_is str 0 0xEF &&& byte_is str 1 0xBB &&& byte_is str 2 0xBF
       else ret false) in
    if utf8_bom then ret UTF8
    else
      let* utf16_be :=
        (if 2 <=? len_in
         then byte_is str 0 0xFE &&& byte_is str 1 0xFF
         else ret false) in
      if utf16_be then ret UTF16_BE
      else
        let* utf16_le :=
          (if 2 <=? len_in
           then byte_is str 0 0xFF &&& byte_is str 1 0xFE
           else ret false) in
        if utf16_le then ret UTF16_LE
        else
          let* utf32_be :=
            (if 4 <=? len_in
             then byte_is str 0 0x00 &&& byte_is str 1 0x00 &&&
                  byte_is str 2 0xFE &&& byte_is str 3 0xFF
             else ret false) in
          if utf32_be then ret UTF32_BE
          else
            let* utf32_le :=
              (if 4 <=? len_in
               then byte_is str 0 0xFF &&& byte_is str 1 0xFE &&&
                    byte_is str 2 0x00 &&& byte_is str 3 0x00
               else ret false) in
            if utf32_le then ret UTF32_LE
            else detect_utf8_heuristic str len_in.

(** ** The decoders *)

(** [ptr[len++] = v] *)
Definition store_at_len (v : Z) : M unit :=
  let* n := get_len in
  write_ptr n v ;;
  set_len (to_size_type (n + 1)).

(** The [Encoding::ASCII] case of [convert_to_utf16]; the loop is bounded
    by the parameter [len_in], as in the source. *)
Fixpoint convert_ascii_loop (fuel : nat) (plain_char_signed : bool)
    (str : list Z) (len_in i : Z) : M unit :=
  if i <? len_in then
    match fuel with
    | O => out_of_fuel
    | S fuel' =>
        let* c := char_at str i in
        store_at_len (char_to_data_type plain_char_signed c) ;;
        convert_ascii_loop fuel' plain_char_signed str len_in (i + 1)
    end
  else ret tt.

Fixpoint convert_utf8_loop (fuel : nat) (str : list Z)
    (len_in i utf16_index : Z) : M Z :=
  if i <? len_in then
    match fuel with
    | O => out_of_fuel
    | S fuel' =>
        let* first_byte := char_at str i in
        if first_byte <? 0x80 then
          ensure_capacity (utf16_index + 1) ;;
          write_ptr utf16_index first_byte ;;
          convert_utf8_loop fuel' str len_in (i + 1) (utf16_index + 1)
        else if Z.land first_byte 0xE0 =? 0xC0 then
          if len_in <=? i + 1 then throw (runtime_error "Incomplete UTF-8 sequence")
          else
            let* second_byte := char_at str (i + 1) in
            if negb (Z.land second_byte 0xC0 =? 0x80)
            then throw (runtime_error "Invalid UTF-8 sequence")
            else
              let code_point :=
                Z.lor (Z.shiftl (Z.land first_byte 0x1F) 6)
                      (Z.land second_byte 0x3F) in
              ensure_capacity (utf16_index + 1) ;;
              write_ptr utf16_index (to_data_type code_point) ;;
              convert_utf8_loop fuel' str len_in (i + 2) (utf16_index + 1)
        else if Z.land first_byte 0xF0 =? 0xE0 then
          if len_in <=? i + 2 then throw (runtime_error "Incomplete UTF-8 sequence")
          else
            let* second_byte := char_at str (i + 1) in
            let* third_byte := char_at str (i + 2) in
            if negb (Z.land second_byte 0xC0 =? 0x80)
               || negb (Z.land third_byte 0xC0 =? 0x80)
            then throw (runtime_error "Invalid UTF-8 sequence")
            else
              let code_point :=
                Z.lor (Z.lor (Z.shiftl (Z.land first_byte 0x0F) 12)
                             (Z.shiftl (Z.land second_byte 0x3F) 6))
                      (Z.land third_byte 0x3F) in
              ensure_capacity (utf16_index + 1) ;;
              write_ptr utf16_index (to_data_type code_point) ;;
              convert_utf8_loop fuel' str len_in (i + 3) (utf16_index + 1)
        else if Z.land first_byte 0xF8 =? 0xF0 then
          if len_in <=? i + 3 then throw (runtime_error "Incomplete UTF-8 sequence")
          else
            let* second_byte := char_at str (i + 1) in
            let* third_byte := char_at str (i + 2) in
            let* fourth_byte := char_at str (i + 3) in
            if negb (Z.land second_byte 0xC0 =? 0x80)
               || negb (Z.land third_byte 0xC0 =? 0x80)
               || negb (Z.land fourth_byte 0xC0 =? 0x80)
            then throw (runtime_error "Invalid UTF-8 sequence")
            else
              let code_point :=
                Z.lor (Z.lor (Z.lor (Z.shiftl (Z.land first_byte 0x07) 18)
                                    (Z.shiftl (Z.land second_byte 0x3F) 12))
                             (Z.shiftl (Z.land third_byte 0x3F) 6))
                      (Z.land fourth_byte 0x3F) in
              let code_point := to_unsigned_int (code_point - 0x10000) in
              ensure_capacity (utf16_index + 2) ;;
              write_ptr utf16_index
                (to_data_type (Z.lor 0xD800 (Z.land (Z.shiftr code_point 10) 0x3FF))) ;;
              write_ptr (utf16_index + 1)
                (to_data_type (Z.lor 0xDC00 (Z.land code_point 0x3FF))) ;;
              convert_utf8_loop fuel' str len_in (i + 4) (utf16_index + 2)
        else throw (runtime_error "Invalid UTF-8 start byte")
    end
  else ret utf16_index.

Definition convert_utf8_to_utf16 (str : list Z) (len_in : Z) : M unit :=
  let* utf16_index := convert_utf8_loop (Z.to_nat len_in) str len_in 0 0 in
  set_len utf16_index.

(** The 16-bit unit at [str[i]], [str[i + 1]] in either byte order. *)
Definition unit_le (str : list Z) (i : Z) : M Z :=
  let* hi := char_at str (i + 1) in
  let* lo := char_at str i in
  ret (to_data_type (Z.lor (Z.shiftl hi 8) lo)).

Definition unit_be (str : list Z) (i : Z) : M Z :=
  let* hi := char_at str i in
  let* lo := char_at str (i + 1) in
  ret (to_data_type (Z.lor (Z.shiftl hi 8) lo)).

(** The loop shared by [convert_utf16le_to_utf16] and
    [convert_utf16be_to_utf16], whose bodies differ in the byte order of
    the two reads only. *)
Fixpoint convert_utf16_loop (unit_at : list Z -> Z -> M Z) (fuel : nat)
    (str : list Z) (len_in i : Z) : M unit :=
  if i <? len_in then
    match fuel with
    | O => out_of_fuel
    | S fuel' =>
        let* code_unit := unit_at str i in
        (let* n := get_len in ensure_capacity (to_size_type (n + 1))) ;;
        store_at_len code_unit ;;
        if (0xD800 <=? code_unit) && (code_unit <=? 0xDBFF) then
          if len_in <=? i + 2 then throw (runtime_error "Incomplete surrogate pair")
          else
            let* low_surrogate := unit_at str (i + 2) in
            if (low_surrogate <? 0xDC00) || (0xDFFF <? low_surrogate)
            then throw (runtime_error "Invalid low surrogate")
            else
              (let* n := get_len in ensure_capacity (to_size_type (n + 1))) ;;
              store_at_len low_surrogate ;;
              convert_utf16_loop unit_at fuel' str len_in (i + 2 + 2)
        else convert_utf16_loop unit_at fuel' str len_in (i + 2)
    end
  else ret tt.

Definition convert_utf16le_to_utf16 (str : list Z) (len_in : Z) : M unit :=
  ensure_capacity (len_in / 2) ;;
  set_len 0 ;;
  convert_utf16_loop unit_le (Z.to_nat len_in) str len_in 0.

Definition convert_utf16be_to_utf16 (str : list Z) (len_in : Z) : M unit :=
  ensure_capacity (len_in / 2) ;;
  set_len 0 ;;
  convert_utf16_loop unit_be (Z.to_nat len_in) str len_in 0.

(** The 32-bit scalar at [str[i .. i + 3]] in either byte order. *)
Definition scalar_le (str : list Z) (i : Z) : M Z :=
  let* b0 := char_at str i in
  let* b1 := char_at str (i + 1) in
  let* b2 := char_at str (i + 2) in
  let* b3 := char_at str (i + 3) in
  ret (to_unsigned_int
         (Z.lor (Z.lor (Z.lor b0 (Z.shiftl b1 8)) (Z.shiftl b2 16)) (Z.shiftl b3 24))).

Definition scalar_be (str : list Z) (i : Z) : M Z :=
  let* b0 := char_at str i in
  let* b1 := char_at str (i + 1) in
  let* b2 := char_at str (i + 2) in
  let* b3 := char_at str (i + 3) in
  ret (to_unsigned_int
         (Z.lor (Z.lor (Z.lor (Z.shiftl b0 24) (Z.shiftl b1 16)) (Z.shiftl b2 8)) b3)).

(** The loop shared by [convert_utf32le_to_utf16] and
    [convert_utf32be_to_utf16]. *)
Fixpoint convert_utf32_loop (scalar_at : list Z -> Z -> M Z) (fuel : nat)
    (str : list Z) (len_in i : Z) : M unit :=
  if i <? len_in then
    match fuel with
    | O => out_of_fuel
    | S fuel' =>
        let* code_point := scalar_at str i in
        if code_point <=? 0xFFFF then
          (let* n := get_len in ensure_capacity (to_size_type (n + 1))) ;;
          store_at_len (to_data_type code_point) ;;
          convert_utf32_loop scalar_at fuel' str len_in (i + 4)
        else if code_point <=? 0x10FFFF then
          let code_point := to_unsigned_int (code_point - 0x10000) in
          (let* n := get_len in ensure_capacity (to_size_type (n + 2))) ;;
          store_at_len
            (to_data_type (Z.lor 0xD800 (Z.land (Z.shiftr code_point 10) 0x3FF))) ;;
          store_at_len (to_data_type (Z.lor 0xDC00 (Z.land code_point 0x3FF))) ;;
          convert_utf32_loop scalar_at fuel' str len_in (i + 4)
        else throw (runtime_error "Invalid Unicode code point")
    end
  else ret tt.

Definition convert_utf32le_to_utf16 (str : list Z) (len_in : Z) : M unit :=
  ensure_capacity (to_size_type (len_in / 4 * 2)) ;;
  set_len 0 ;;
  convert_utf32_loop scalar_le (Z.to_nat len_in) str len_in 0.

Definition convert_utf32be_to_utf16 (str : list Z) (len_in : Z) : M unit :=
  ensure_capacity (to_size_type (len_in / 4 * 2)) ;;
  set_len 0 ;;
  convert_utf32_loop scalar_be (Z.to_nat len_in) str len_in 0.

(** ** string::convert_to_utf16 *)

Definition convert_to_utf16 (plain_char_signed : bool) (str : list Z)
    (len_in : Z) (encoding : Encoding) : M unit :=
  let* true_len :=
    (if len_in =? -1 then strlen_m str else ret (to_size_type len_in)) in
  ensure_capacity true_len ;;
  set_len 0 ;;
  match encoding with
  | ASCII => convert_ascii_loop (Z.to_nat len_in) plain_char_signed str len_in 0
  | UTF8 => convert_utf8_to_utf16 str true_len
  | UTF16_LE => convert_utf16le_to_utf16 str true_len
  | UTF16_BE => convert_utf16be_to_utf16 str true_len
  | UTF32_LE => convert_utf32le_to_utf16 str true_len
  | UTF32_BE => convert_utf32be_to_utf16 str true_len
  end.

(** [string(const char *str, ssize_type len_in = -1)] *)
Definition string_from_chars (plain_char_signed : bool) (str : list Z)
    (len_in : Z) : outcome unit :=
  (let* encoding := detect_encoding str len_in in
   convert_to_utf16 plain_char_signed str len_in encoding) default_members.

(** [append(const char *str)] *)
Definition append_chars (plain_char_signed : bool) (str : list Z) : M unit :=
  let* encoding := detect_encoding str (-1) in
  convert_to_utf16 plain_char_signed str (-1) encoding.

(** ** throw_away_string and string::throw_away *)

(** The members [ptr] and [len] of [throw_away_string]. *)
Record throw_away_string : Type := mk_throw_away_string {
  c_str : list Z;
  size : Z
}.

(** [throw_away_string(const char *str)]: [strlen(str)] bytes of [str] and a
    terminator. *)
Definition throw_away_string_of (str : list Z) : option throw_away_string :=
  match strlen str with
  | Some n =>
      match memcpy (replicate (Z.to_nat (n + 1)) 0) str n with
      | Some buf => Some {| c_str := buf; size := n |}
      | None => None
      end
  | None => None
  end.

(** [utf8_result[j] = v] *)
Definition put_char (utf8_result : list Z) (j v : Z) : M (list Z) :=
  if (0 <=? j) && (j <? Z.of_nat (length utf8_result))
  then ret (<[Z.to_nat j := v]> utf8_result)
  else undefined.

Fixpoint throw_away_loop (fuel : nat) (i j : Z) (utf8_result : list Z)
    : M (list Z) :=
  let* n := get_len in
  if i <? n then
    match fuel with
    | O => out_of_fuel
    | S fuel' =>
        let* code_unit := read_ptr i in
        let i := i + 1 in
        if code_unit <? 0x80 then
          let* r := put_char utf8_result j (to_char code_unit) in
          throw_away_loop fuel' i (j + 1) r
        else if code_unit <? 0x800 then
          let* r := put_char utf8_result j
                      (to_char (Z.lor 0xC0 (Z.shiftr code_unit 6))) in
          let* r := put_char r (j + 1)
                      (to_char (Z.lor 0x80 (Z.land code_unit 0x3F))) in
          throw_away_loop fuel' i (j + 2) r
        else if (0xD800 <=? code_unit) && (code_unit <=? 0xDBFF) then
          let high_surrogate := code_unit in
          let* low_surrogate := read_ptr i in
          if (0xDC00 <=? low_surrogate) && (low_surrogate <=? 0xDFFF) then
            let i := i + 1 in
            let code_point :=
              to_unsigned_int
                (0x10000 + Z.shiftl (high_surrogate - 0xD800) 10
                 + (low_surrogate - 0xDC00)) in
            let* r := put_char utf8_result j
                        (to_char (Z.lor 0xF0 (Z.shiftr code_point 18))) in
            let* r := put_char r (j + 1)
                        (to_char (Z.lor 0x80 (Z.land (Z.shiftr code_point 12) 0x3F))) in
            let* r := put_char r (j + 2)
                        (to_char (Z.lor 0x80 (Z.land (Z.shiftr code_point 6) 0x3F))) in
            let* r := put_char r (j + 3)
                        (to_char (Z.lor 0x80 (Z.land code_point 0x3F))) in
            throw_away_loop fuel' i (j + 4) r
          else throw_away_loop fuel' i j utf8_result
        else if (0xDC00 <=? code_unit) && (code_unit <=? 0xDFFF) then
          throw_away_loop fuel' i j utf8_result
        else
          let* r := put_char utf8_result j
                      (to_char (Z.lor 0xE0 (Z.shiftr code_unit 12))) in
          let* r := put_char r (j + 1)
                      (to_char (Z.lor 0x80 (Z.land (Z.shiftr code_unit 6) 0x3F))) in
          let* r := put_char r (j + 2)
                      (to_char (Z.lor 0x80 (Z.land code_unit 0x3F))) in
          throw_away_loop fuel' i (j + 3) r
    end
  else ret utf8_result.

Definition throw_away : M throw_away_string :=
  fun s =>
    match ptr s with
    | None =>
        match throw_away_string_of [0; 0] with
        | Some t => Normal t s
        | None => Undefined
        end
    | Some _ =>
        let utf8_result := replicate (Z.to_nat (to_size_type (len s + 1))) 0 in
        match throw_away_loop (Z.to_nat (len s)) 0 0 utf8_result s with
        | Normal r s' =>
            match throw_away_string_of r with
            | Some t => Normal t s'
            | None => Undefined
            end
        | Throw e s' => Throw e s'
        | Undefined => Undefined
        | OutOfFuel => OutOfFuel
        end
    end.

(** ** string::find *)

(** The inner loop of [find]: [found] after comparing [ptr[i + j]] with
    [str.ptr[j]] for [j < str.len], leaving at the first difference. *)
Fixpoint find_compare (fuel : nat) (str : string) (i j : Z) : M bool :=
  if j <? len str then
    match fuel with
    | O => out_of_fuel
    | S fuel' =>
        let* a := read_ptr (i + j) in
        match read_ptr j str with
        | Normal b _ =>
            if negb (a =? b) then ret false
            else find_compare fuel' str i (j + 1)
        | _ => undefined
        end
    end
  else ret true.

Fixpoint find_loop (fuel : nat) (str : string) (i : Z) : M Z :=
  let* n := get_len in
  if i <=? to_size_type (n - len str) then
    match fuel with
    | O => out_of_fuel
    | S fuel' =>
        let* found := find_compare (Z.to_nat (len str)) str i 0 in
        if found then ret i
        else find_loop fuel' str (to_size_type (i + 1))
    end
  else ret npos.

(** [str.empty()] *)
Definition empty (s : string) : bool := len s =? 0.

Definition find (str : string) (pos : Z) : M Z :=
  fun s =>
    if len s <=? pos then Normal npos s
    else if empty str then Normal pos s
    else
      let fuel := match ptr s with Some buf => S (length buf) | None => 1%nat end in
      find_loop fuel str pos s.

(** ** The other members of [string] *)

(** [memcpy(ptr, src, n)] into the array of the object: [std::memcpy]
    returns at once when a pointer is null. *)
Definition memcpy_to_ptr (src : list Z) (n : Z) : M unit :=
  fun s =>
    match ptr s with
    | None => Normal tt s
    | Some dst =>
        match memcpy dst (Some <$> src) n with
        | Some buf =>
            Normal tt {| ptr := Some buf; len := len s;
                         _str_capacity := _str_capacity s |}
        | None => Undefined
        end
    end.

(** [string(const_type str, ssize_type len_in = -1)], [str] an array of
    code units. *)
Definition string_from_units (str : list Z) (len_in : Z) : outcome unit :=
  (let* n := (if len_in =? -1 then strlen_m str else ret (to_size_type len_in)) in
   set_len n ;;
   ensure_capacity n ;;
   memcpy_to_ptr str n) default_members.

(** [operator=(const string &other)], for an [other] that is not the object
    itself. *)
Definition assign (other : string) : M unit :=
  fun _ =>
    let fresh : list cell := new_array (_str_capacity other) in
    match ptr other with
    | None =>
        Normal tt {| ptr := Some fresh; len := len other;
                     _str_capacity := _str_capacity other |}
    | Some src =>
        match memcpy fresh src (len other) with
        | Some buf =>
            Normal tt {| ptr := Some buf; len := len other;
                         _str_capacity := _str_capacity other |}
        | None => Undefined
        end
    end.

(** [operator+(const string &str)]: [string result = *this;
    result.append(str);], the result being the new object. *)
Definition plus (str this : string) : outcome unit :=
  match string_copy this with
  | Normal _ result => append_string str result
  | Throw e s => Throw e s
  | Undefined => Undefined
  | OutOfFuel => OutOfFuel
  end.

(** [at(index)] and [operator[](index)] *)
Definition at_ (index : Z) : M Z :=
  let* n := get_len in
  if n <=? index then throw out_of_range else read_ptr index.

Definition front : M Z := read_ptr 0.

Definition back : M Z :=
  let* n := get_len in read_ptr (to_size_type (n - 1)).

Definition pop_back : M unit :=
  let* n := get_len in
  if 0 <? n then set_len (n - 1) else ret tt.

(** [resize(n, ch)] *)
Fixpoint resize_fill_loop (fuel : nat) (n ch : Z) : M unit :=
  let* l := get_len in
  if l <? n then
    match fuel with
    | O => out_of_fuel
    | S fuel' => push_back ch ;; resize_fill_loop fuel' n ch
    end
  else ret tt.

Definition resize_fill (n ch : Z) : M unit :=
  let* l := get_len in
  if l <? n then
    reserve n ;;
    resize_fill_loop (Z.to_nat (n - l)) n ch
  else resize n.

(** [ptr[i]] of another object, read while this one is being built or
    changed. *)
Definition read_other (other : string) (i : Z) : M Z :=
  fun s =>
    match read_ptr i other with
    | Normal c _ => Normal c s
    | _ => Undefined
    end.

(** [substr(start, end)]: the state is the string being built, [this] the
    one it is taken from. *)
Fixpoint substr_loop (fuel : nat) (this : string) (i end_ : Z) : M unit :=
  if i <? end_ then
    match fuel with
    | O => out_of_fuel
    | S fuel' =>
        let* c := read_other this i in
        push_back c ;;
        substr_loop fuel' this (i + 1) end_
    end
  else ret tt.

Definition substr (start end_ : Z) (this : string) : outcome unit :=
  match string_default with
  | Normal _ s0 =>
      (reserve (to_size_type (end_ - start)) ;;
       substr_loop (Z.to_nat (end_ - start)) this start end_) s0
  | o => o
  end.

(** The first loop of [insert]: [ptr[i + n - 1] = ptr[i - 1]] for [i] from
    [len] down to [pos + 1]. *)
Fixpoint insert_shift_loop (fuel : nat) (n pos i : Z) : M unit :=
  if pos <? i then
    match fuel with
    | O => out_of_fuel
    | S fuel' =>
        let* c := read_ptr (i - 1) in
        write_ptr (to_size_type (i + n - 1)) c ;;
        insert_shift_loop fuel' n pos (i - 1)
    end
  else ret tt.

(** The second loop of [insert]: [ptr[pos + i] = src(i)] for [i < n]. *)
Fixpoint insert_copy_loop (fuel : nat) (src : Z -> M Z) (pos n i : Z) : M unit :=
  if i <? n then
    match fuel with
    | O => out_of_fuel
    | S fuel' =>
        let* c := src i in
        write_ptr (to_size_type (pos + i)) c ;;
        insert_copy_loop fuel' src pos n (i + 1)
    end
  else ret tt.

(** The body shared by the three overloads of [insert], which differ in
    where the new units come from. *)
Definition insert_with (src : Z -> M Z) (pos n : Z) : M unit :=
  let* l := get_len in
  if l <? pos then throw out_of_range
  else
    ensure_capacity (to_size_type (l + n)) ;;
    insert_shift_loop (Z.to_nat (l - pos)) n pos l ;;
    insert_copy_loop (Z.to_nat n) src pos n 0 ;;
    set_len (to_size_type (l + n)).

(** [insert(pos, const string &str)], for a [str] that is not the object
    itself. *)
Definition insert_string (pos : Z) (str : string) : M unit :=
  insert_with (read_other str) pos (len str).

(** [insert(pos, const string &str)] called with the object itself,
    [s.insert(pos, s)]: [str.len] and [str.ptr] are the object's own
    members, read again at each use. *)
Definition insert_self (pos : Z) : M unit :=
  let* n := get_len in
  insert_with read_ptr pos n.

(** [insert(pos, const_type s, n)], for an array [s] apart from the
    object's own. *)
Definition insert_units (pos : Z) (s : list Z) (n : Z) : M unit :=
  insert_with (char_at s) pos n.

(** [insert(pos, n, c)] *)
Definition insert_fill (pos n c : Z) : M unit :=
  insert_with (fun _ => ret c) pos n.

(** The loop of [erase]: [ptr[i] = ptr[i + n]] while [i + n < len]. *)
Fixpoint erase_loop (fuel : nat) (n i : Z) : M unit :=
  let* l := get_len in
  if to_size_type (i + n) <? l then
    match fuel with
    | O => out_of_fuel
    | S fuel' =>
        let* c := read_ptr (to_size_type (i + n)) in
        write_ptr i c ;;
        erase_loop fuel' n (i + 1)
    end
  else ret tt.

Definition erase (pos n : Z) : M unit :=
  let* l := get_len in
  if l <? pos then throw out_of_range
  else
    let n := if (n =? npos) || (l <? to_size_type (pos + n)) then l - pos else n in
    erase_loop (Z.to_nat l) n pos ;;
    set_len (to_size_type (l - n)).

(** [std::min] on sizes. *)
Definition min (a b : Z) : Z := if a <? b then a else b.

(** [rfind(str, pos)]: the loop [for (i = pos + 1; i-- > 0;)]. *)
Fixpoint rfind_loop (fuel : nat) (str : string) (i : Z) : M Z :=
  if 0 <? i then
    match fuel with
    | O => out_of_fuel
    | S fuel' =>
        let i := i - 1 in
        let* found := find_compare (Z.to_nat (len str)) str i 0 in
        if found then ret i else rfind_loop fuel' str i
    end
  else ret npos.

Definition rfind (str : string) (pos : Z) : M Z :=
  let* l := get_len in
  if empty str then ret (min pos l)
  else if l <? len str then ret npos
  else
    let pos := min pos (l - len str) in
    rfind_loop (Z.to_nat (to_size_type (pos + 1))) str (to_size_type (pos + 1)).

(** The inner loop of [find_first_of] and [find_last_of]: whether
    [ptr[i] == str.ptr[j]] for some [j < str.len]. *)
Fixpoint find_member (fuel : nat) (str : string) (i j : Z) : M bool :=
  if j <? len str then
    match fuel with
    | O => out_of_fuel
    | S fuel' =>
        let* a := read_ptr i in
        let* b := read_other str j in
        if a =? b then ret true else find_member fuel' str i (j + 1)
    end
  else ret false.

Fixpoint find_first_of_loop (fuel : nat) (str : string) (i : Z) : M Z :=
  let* l := get_len in
  if i <? l then
    match fuel with
    | O => out_of_fuel
    | S fuel' =>
        let* hit := find_member (Z.to_nat (len str)) str i 0 in
        if hit then ret i else find_first_of_loop fuel' str (i + 1)
    end
  else ret npos.

Definition find_first_of (str : string) (pos : Z) : M Z :=
  let* l := get_len in
  find_first_of_loop (Z.to_nat (l - pos)) str pos.

Fixpoint find_last_of_loop (fuel : nat) (str : string) (i : Z) : M Z :=
  if 0 <? i then
    match fuel with
    | O => out_of_fuel
    | S fuel' =>
        let i := i - 1 in
        let* hit := find_member (Z.to_nat (len str)) str i 0 in
        if hit then ret i else find_last_of_loop fuel' str i
    end
  else ret npos.

Definition find_last_of (str : string) (pos : Z) : M Z :=
  let* l := get_len in
  if l =? 0 then ret npos
  else
    let pos := min pos (l - 1) in
    find_last_of_loop (Z.to_nat (to_size_type (pos + 1))) str (to_size_type (pos + 1)).

(** The value of a [data_type] ([short]) with the bit pattern [v]. *)
Definition to_short (v : Z) : Z := if v <? 0x8000 then v else v - 0x10000.

(** [operator<(rhs)] *)
Fixpoint less_loop (fuel : nat) (rhs : string) (min_len i : Z) : M bool :=
  if i <? min_len then
    match fuel with
    | O => out_of_fuel
    | S fuel' =>
        let* a := read_ptr i in
        let* b := read_other rhs i in
        if to_short a <? to_short b then ret true
        else if to_short b <? to_short a then ret false
        else less_loop fuel' rhs min_len (i + 1)
    end
  else let* l := get_len in ret (l <? len rhs).

Definition less (rhs : string) : M bool :=
  let* l := get_len in
  let min_len := min l (len rhs) in
  less_loop (Z.to_nat min_len) rhs min_len 0.

(** ** algorithm.h: memcmp *)

(** The two bytes of a code unit in memory, in the byte order of the
    platform. *)
Definition unit_bytes (little_endian : bool) (u : Z) : list Z :=
  if little_endian then [Z.land u 0xFF; Z.shiftr u 8]
  else [Z.shiftr u 8; Z.land u 0xFF].

(** The bytes of an array of cells; those of a cell never written are
    indeterminate. *)
Definition cell_bytes (little_endian : bool) (c : cell) : list (option Z) :=
  match c with
  | Some u => Some <$> unit_bytes little_endian u
  | None => [None; None]
  end.

Definition array_bytes (little_endian : bool) (cells : list cell) : list (option Z) :=
  flat_map (cell_bytes little_endian) cells.

(** [memcmp(a, b, size)] on the bytes of two arrays: [None] when it reads
    outside an array or a byte that was never written. *)
Fixpoint memcmp_loop (fuel : nat) (a b : list (option Z)) (size i : Z) : option Z :=
  if i <? size then
    match fuel with
    | O => None
    | S fuel' =>
        match a !! Z.to_nat i, b !! Z.to_nat i with
        | Some (Some x), Some (Some y) =>
            if x <? y then Some (-1)
            else if y <? x then Some 1
            else memcmp_loop fuel' a b size (i + 1)
        | _, _ => None
        end
    end
  else Some 0.

Definition memcmp (a b : list (option Z)) (size : Z) : option Z :=
  memcmp_loop (Z.to_nat size) a b size 0.

(** [operator=(const_type str)]: the length is [strlen] of the bytes of
    [str], and as many units are copied. *)
Definition assign_units (little_endian : bool) (str : list Z) : M unit :=
  fun s =>
    match strlen (flat_map (unit_bytes little_endian) str) with
    | Some n => (set_len n ;; ensure_capacity n ;; memcpy_to_ptr str n) s
    | None => Undefined
    end.

(** The array a data pointer refers to: none for the null pointer. *)
Definition cells_of (p : option (list cell)) : list cell :=
  match p with Some buf => buf | None => [] end.

(** [operator==(other)] *)
Definition equal (little_endian : bool) (other : string) : M bool :=
  fun s =>
    if negb (len s =? len other) then Normal false s
    else
      match memcmp (array_bytes little_endian (cells_of (ptr s)))
                   (array_bytes little_endian (cells_of (ptr other)))
                   (to_size_type (len s * 2)) with
      | Some r => Normal (r =? 0) s
      | None => Undefined
      end.

(** [start_with(other)] *)
Definition start_with (little_endian : bool) (other : string) : M bool :=
  fun s =>
    if len s <? len other then Normal false s
    else
      match memcmp (array_bytes little_endian (cells_of (ptr s)))
                   (array_bytes little_endian (cells_of (ptr other)))
                   (to_size_type (len other * 2)) with
      | Some r => Normal (r =? 0) s
      | None => Undefined
      end.

(** [end_with(other)]: the comparison starts at [ptr + len - other.len]. *)
Definition end_with (little_endian : bool) (other : string) : M bool :=
  fun s =>
    if len s <? len other then Normal false s
    else
      match memcmp (array_bytes little_endian
                      (drop (Z.to_nat (len s - len other)) (cells_of (ptr s))))
                   (array_bytes little_endian (cells_of (ptr other)))
                   (to_size_type (len other * 2)) with
      | Some r => Normal (r =? 0) s
      | None => Undefined
      end.

(** ** Predicates of the specification *)

(** The invariant of the data model: [length <= capacity], and
    [capacity == 0] exactly when the data pointer is null. *)
Definition invariant (s : string) : Prop :=
  len s <= _str_capacity s /\ (_str_capacity s = 0 <-> ptr s = None).

(** The array behind [ptr] has [_str_capacity] cells (none when [ptr] is
    null), and [len] of them are in use. *)
Definition buffer_ok (s : string) : Prop :=
  0 <= len s <= _str_capacity s /\
  _str_capacity s < 2 ^ 64 /\
  match ptr s with
  | Some buf => Z.of_nat (length buf) = _str_capacity s
  | None => _str_capacity s = 0
  end.

(** The code units in use: [ptr[0 .. len)]. *)
Definition units (s : string) : list cell :=
  match ptr s with
  | Some buf => take (Z.to_nat (len s)) buf
  | None => []
  end.

(** The growth rule in the words of the specification: 8 when the current
    capacity is 0, otherwise the current capacity doubled until it reaches
    the required size. *)
Fixpoint double_until (fuel : nat) (current required : Z) : Z :=
  match fuel with
  | O => current
  | S fuel' =>
      if current <? required then double_until fuel' (current * 2) required
      else current
  end.

Definition spec_next_capacity (current required : Z) : Z :=
  if current =? 0 then 8 else double_until 64 current required.

Definition is_high_surrogate (u : Z) : bool := (0xD800 <=? u) && (u <=? 0xDBFF).
Definition is_low_surrogate (u : Z) : bool := (0xDC00 <=? u) && (u <=? 0xDFFF).

(** Every high surrogate met by a left to right reading is followed at
    once by a low surrogate, which is read with it. *)
Fixpoint pairs_ok (us : list Z) : bool :=
  match us with
  | [] => true
  | u :: rest =>
      if is_high_surrogate u then
        match rest with
        | l :: rest' => is_low_surrogate l && pairs_ok rest'
        | [] => false
        end
      else pairs_ok rest
  end.

(** The bytes of a sequence of 16-bit units in either byte order. *)
Definition le_bytes (us : list Z) : list Z :=
  flat_map (fun u => [Z.land u 0xFF; Z.shiftr u 8]) us.

Definition be_bytes (us : list Z) : list Z :=
  flat_map (fun u => [Z.shiftr u 8; Z.land u 0xFF]) us.

(** The error kind a decoder may surface, by encoding. *)
Definition decode_error_kind (encoding : Encoding) : option error_kind :=
  match encoding with
  | ASCII => None
  | UTF8 => Some MalformedSequence
  | UTF16_LE | UTF16_BE => Some InvalidSurrogate
  | UTF32_LE | UTF32_BE => Some InvalidCodepoint
  end.

(** ** Predicates of the proofs *)

(** [throws_only P m]: every exception that leaves [m] satisfies [P]. *)
Definition throws_only {A} (P : exception -> Prop) (m : M A) : Prop :=
  forall s e s', m s = Throw e s' -> P e.

(** The exception [e] is of the kind [k]. *)
Definition has_kind (k : error_kind) (e : exception) : Prop := kind_of e = k.

(** [terminates m]: [m] never stops for lack of fuel. *)
Definition terminates {A} (m : M A) : Prop := forall s, m s <> OutOfFuel.

(** [returns_only P m]: every value [m] returns satisfies [P]. *)
Definition returns_only {A} (P : A -> Prop) (m : M A) : Prop :=
  forall s a s', m s = Normal a s' -> P a.

(** The capacity [ensure_capacity] leaves, as a function of the capacity it
    finds and the size it is asked for. *)
Definition grown_capacity (current required : Z) : Z :=
  if current <? required then
    Z.max required (if current =? 0 then 8 else to_size_type (current * 2))
  else current.

(** A 16-bit unit. *)
Definition unit16 (u : Z) : Prop := 0 <= u < 65536.

(** Every high surrogate is immediately followed by a low surrogate. *)
Definition highs_paired (us : list Z) : Prop :=
  forall (k : nat) (u : Z),
    us !! k = Some u -> is_high_surrogate u = true ->
    exists l, us !! S k = Some l /\ is_low_surrogate l = true.

(** What the loop of a 16-bit decoder does with the units that are left:
    it stores them all when every high surrogate among them is paired, and
    throws at the first one that is not. *)
Definition utf16_loop_post (rest : list Z) (s : string) (o : outcome unit) : Prop :=
  match o with
  | Normal _ s' =>
      pairs_ok rest = true /\ buffer_ok s' /\
      units s' = units s ++ (Some <$> rest) /\
      _str_capacity s <= _str_capacity s'
  | Throw e _ => pairs_ok rest = false /\ has_kind InvalidSurrogate e
  | Undefined | OutOfFuel => False
  end.

(** The length the detector works with: [strlen(str)] for the sentinel
    [-1], the given length otherwise. *)
Definition effective_len (str : list Z) (len_in : Z) : option Z :=
  if len_in =? -1 then strlen str else Some len_in.

(** A byte of 7-bit text: not the terminator, and below [0x80]. *)
Definition seven_bit (b : Z) : Prop := 1 <= b < 0x80.

(** The object after [string s; s.append(0x58)]: one unit, [X]. *)
Definition string_X : string :=
  {| ptr := Some [Some 0x58; None; None; None; None; None; None; None];
     len := 1; _str_capacity := 8 |}.

(** The string [s] holds exactly the units [us], all of them written. *)
Definition holds (s : string) (us : list Z) : Prop :=
  buffer_ok s /\ units s = Some <$> us.

(** The units [ns] occur in [us] at index [k]. *)
Definition occurs_at (us ns : list Z) (k : nat) : Prop :=
  take (length ns) (drop k us) = ns.

(** The unit of [us] at index [k] is one of [ns]. *)
Definition member_at (us ns : list Z) (k : nat) : Prop :=
  exists u, us !! k = Some u /\ u ∈ ns.

(** [r] is the first index from [pos] on where [P] holds, or [npos] when
    there is none. *)
Definition first_from (P : nat -> Prop) (pos r : Z) : Prop :=
  (r = npos /\ forall k : nat, pos <= Z.of_nat k -> ~ P k) \/
  (exists k : nat,
     r = Z.of_nat k /\ pos <= Z.of_nat k /\ P k /\
     forall k' : nat, pos <= Z.of_nat k' -> (k' < k)%nat -> ~ P k').

(** [r] is the last index up to [pos] where [P] holds, or [npos] when
    there is none. *)
Definition last_upto (P : nat -> Prop) (pos r : Z) : Prop :=
  (r = npos /\ forall k : nat, Z.of_nat k <= pos -> ~ P k) \/
  (exists k : nat,
     r = Z.of_nat k /\ Z.of_nat k <= pos /\ P k /\
     forall k' : nat, Z.of_nat k' <= pos -> (k < k')%nat -> ~ P k').

(** The lexicographic order on sequences of signed values: what
    [operator<] is to compute. *)
Fixpoint lex_lt (a b : list Z) : bool :=
  match a, b with
  | _, [] => false
  | [], _ :: _ => true
  | x :: a', y :: b' =>
      if x <? y then true else if y <? x then false else lex_lt a' b'
  end.

(** A 32-bit scalar, and its four bytes in either byte order. *)
Definition scalar32 (cp : Z) : Prop := 0 <= cp < 2 ^ 32.

Definition utf32le_of_scalar (cp : Z) : list Z :=
  [cp mod 256; cp / 256 mod 256; cp / 256 / 256 mod 256; cp / 256 / 256 / 256].

Definition utf32be_of_scalar (cp : Z) : list Z :=
  [cp / 256 / 256 / 256; cp / 256 / 256 mod 256; cp / 256 mod 256; cp mod 256].

(** The UTF-16 form of a scalar, by arithmetic: the scalar itself below
    0x10000, the surrogate pair from there on. *)
Definition utf16_of_scalar (cp : Z) : list Z :=
  if cp <? 0x10000 then [cp]
  else [0xD800 + (cp - 0x10000) / 0x400; 0xDC00 + (cp - 0x10000) mod 0x400].

(** A Unicode scalar value; the surrogate values are not left out, since
    no decoder of the class looks for them. *)
Definition scalar_value (cp : Z) : Prop := 0 <= cp <= 0x10FFFF.

(** The UTF-8 form of a scalar, by arithmetic. *)
Definition utf8_of_scalar (cp : Z) : list Z :=
  if cp <? 0x80 then [cp]
  else if cp <? 0x800 then [0xC0 + cp / 64; 0x80 + cp mod 64]
  else if cp <? 0x10000 then
    [0xE0 + cp / 64 / 64; 0x80 + cp / 64 mod 64; 0x80 + cp mod 64]
  else
    [0xF0 + cp / 64 / 64 / 64; 0x80 + cp / 64 / 64 mod 64;
     0x80 + cp / 64 mod 64; 0x80 + cp mod 64].

(** How many scalars of a sequence take more than one byte in UTF-8. *)
Fixpoint multibyte_count (cps : list Z) : Z :=
  match cps with
  | [] => 0
  | cp :: cps => (if cp <? 0x80 then 0 else 1) + multibyte_count cps
  end.

(** A scalar value of text: not zero and not a surrogate value. *)
Definition text_scalar (cp : Z) : Prop :=
  1 <= cp < 0xD800 \/ 0xE000 <= cp <= 0x10FFFF.

(** What the loop of [throw_away] does from the byte index [j] of the array
    [r], when the units left to read are those of the scalars [cps]: it
    writes their UTF-8 bytes from [j] on when they fit in the array, and
    stores outside the array when they do not. *)
Definition throw_away_post (s : string) (cps : list Z) (j : nat) (r : list Z)
    (o : outcome (list Z)) : Prop :=
  match o with
  | Normal r' s' =>
      s' = s /\ length r' = length r /\
      (j + length (flat_map utf8_of_scalar cps) <= length r)%nat /\
      take (j + length (flat_map utf8_of_scalar cps)) r' =
        take j r ++ flat_map utf8_of_scalar cps
  | Undefined => (length r < j + length (flat_map utf8_of_scalar cps))%nat
  | Throw _ _ | OutOfFuel => False
  end.

(** A continuation byte of UTF-8, [10xxxxxx]. *)
Definition continuation_byte (c : Z) : Prop := 0x80 <= c < 0xC0.

(** The byte at index [i] of [str], of which [n] bytes are to be decoded,
    cannot start a sequence, or it is a lead byte whose sequence is cut by
    the end of the input or has a byte that is not a continuation byte. *)
Definition malformed_at (str : list Z) (n : Z) (i : nat) : Prop :=
  exists b,
    str !! i = Some b /\
    ((0x80 <= b < 0xC0 \/ 0xF8 <= b < 0x100) \/
     (0xC0 <= b < 0xE0 /\
      (n <= Z.of_nat i + 1 \/
       exists c1, str !! (i + 1)%nat = Some c1 /\ ~ continuation_byte c1)) \/
     (0xE0 <= b < 0xF0 /\
      (n <= Z.of_nat i + 2 \/
       exists c1 c2,
         str !! (i + 1)%nat = Some c1 /\ str !! (i + 2)%nat = Some c2 /\
         (~ continuation_byte c1 \/ ~ continuation_byte c2))) \/
     (0xF0 <= b < 0xF8 /\
      (n <= Z.of_nat i + 3 \/
       exists c1 c2 c3,
         str !! (i + 1)%nat = Some c1 /\ str !! (i + 2)%nat = Some c2 /\
         str !! (i + 3)%nat = Some c3 /\
         (~ continuation_byte c1 \/ ~ continuation_byte c2 \/ ~ continuation_byte c3)))).

(** ** The monad: stepping lemmas *)

Lemma bind_Normal {A B} (m : M A) (k : A -> M B) s a s1 :
  m s = Normal a s1 -> bind m k s = k a s1.
Proof. intros H. unfold bind. by rewrite H. Qed.

Lemma bind_Throw {A B} (m : M A) (k : A -> M B) s e s1 :
  m s = Throw e s1 -> bind m k s = Throw e s1.
Proof. intros H. unfold bind. by rewrite H. Qed.

Lemma bind_Throw_inv {A B} (m : M A) (k : A -> M B) s e s' :
  bind m k s = Throw e s' ->
  m s = Throw e s' \/ exists a s1, m s = Normal a s1 /\ k a s1 = Throw e s'.
Proof.
  unfold bind. destruct (m s) as [a s1|e1 s1| |] eqn:E; intros H; try done.
  - right. eauto.
  - left. by simplify_eq.
Qed.

Lemma throws_only_bind {A B} P (m : M A) (k : A -> M B) :
  throws_only P m -> (forall a, throws_only P (k a)) -> throws_only P (bind m k).
Proof.
  intros Hm Hk s e s' H. apply bind_Throw_inv in H as [H|(a & s1 & _ & H)].
  - by eapply Hm.
  - by eapply Hk.
Qed.

Lemma throws_only_ret {A} P (a : A) : throws_only P (ret a).
Proof. by intros s e s' H. Qed.

Lemma throws_only_throw {A} (P : exception -> Prop) e :
  P e -> throws_only P (@throw A e).
Proof. intros HP s e' s' H. unfold throw in H. by simplify_eq. Qed.

Lemma throws_only_undefined {A} P : throws_only P (@undefined A).
Proof. by intros s e s' H. Qed.

Lemma throws_only_out_of_fuel {A} P : throws_only P (@out_of_fuel A).
Proof. by intros s e s' H. Qed.

Lemma throws_only_get_len P : throws_only P get_len.
Proof. by intros s e s' H. Qed.

Lemma throws_only_set_len P n : throws_only P (set_len n).
Proof. by intros s e s' H. Qed.

Lemma throws_only_char_at P str i : throws_only P (char_at str i).
Proof. intros s e s' H. unfold char_at in H. repeat case_match; done. Qed.

Lemma throws_only_strlen_m P str : throws_only P (strlen_m str).
Proof. intros s e s' H. unfold strlen_m in H. by case_match. Qed.

Lemma throws_only_read_ptr P i : throws_only P (read_ptr i).
Proof. intros s e s' H. unfold read_ptr in H. repeat case_match; done. Qed.

Lemma throws_only_write_ptr P i v : throws_only P (write_ptr i v).
Proof. intros s e s' H. unfold write_ptr in H. repeat case_match; done. Qed.

Lemma throws_only_ensure_capacity P n : throws_only P (ensure_capacity n).
Proof. intros s e s' H. unfold ensure_capacity in H. repeat case_match; done. Qed.

Lemma throws_only_store_at_len P v : throws_only P (store_at_len v).
Proof.
  unfold store_at_len.
  repeat (apply throws_only_bind; [|intros ?]);
    auto using throws_only_get_len, throws_only_write_ptr, throws_only_set_len.
Qed.

Create HintDb throws discriminated.
#[local] Hint Resolve throws_only_ret throws_only_undefined throws_only_out_of_fuel
  throws_only_get_len throws_only_set_len throws_only_char_at throws_only_strlen_m
  throws_only_read_ptr throws_only_write_ptr throws_only_ensure_capacity
  throws_only_store_at_len : throws.

(** One step through a term of the monad. *)
Ltac throws_step :=
  match goal with
  | |- throws_only _ (bind _ _) => apply throws_only_bind; [|intros ?]
  | |- throws_only _ (if ?b then _ else _) => destruct b eqn:?
  | |- throws_only _ (throw _) => apply throws_only_throw; vm_compute; reflexivity
  | |- throws_only _ _ => solve [eauto with throws]
  end.

(** ** Which exceptions leave the decoders *)

Lemma convert_ascii_loop_throws fuel signed str len_in i :
  throws_only (fun _ => False) (convert_ascii_loop fuel signed str len_in i).
Proof.
  revert i. induction fuel as [|fuel IH]; intros i;
    cbn [convert_ascii_loop]; repeat throws_step.
Qed.

Lemma convert_utf8_loop_throws fuel str len_in i utf16_index :
  throws_only (has_kind MalformedSequence)
    (convert_utf8_loop fuel str len_in i utf16_index).
Proof.
  revert i utf16_index. induction fuel as [|fuel IH]; intros i utf16_index;
    cbn [convert_utf8_loop]; repeat throws_step.
Qed.

Lemma convert_utf8_to_utf16_throws str len_in :
  throws_only (has_kind MalformedSequence) (convert_utf8_to_utf16 str len_in).
Proof.
  unfold convert_utf8_to_utf16. apply throws_only_bind.
  - apply convert_utf8_loop_throws.
  - intros ?. throws_step.
Qed.

Lemma throws_only_unit_le P str i : throws_only P (unit_le str i).
Proof. unfold unit_le. repeat throws_step. Qed.

Lemma throws_only_unit_be P str i : throws_only P (unit_be str i).
Proof. unfold unit_be. repeat throws_step. Qed.

Lemma throws_only_scalar_le P str i : throws_only P (scalar_le str i).
Proof. unfold scalar_le. repeat throws_step. Qed.

Lemma throws_only_scalar_be P str i : throws_only P (scalar_be str i).
Proof. unfold scalar_be. repeat throws_step. Qed.

#[local] Hint Resolve throws_only_unit_le throws_only_unit_be
  throws_only_scalar_le throws_only_scalar_be : throws.

Lemma convert_utf16_loop_throws unit_at fuel str len_in i :
  (forall P j, throws_only P (unit_at str j)) ->
  throws_only (has_kind InvalidSurrogate)
    (convert_utf16_loop unit_at fuel str len_in i).
Proof.
  intros Hunit. revert i. induction fuel as [|fuel IH]; intros i;
    cbn [convert_utf16_loop]; repeat throws_step.
Qed.

Lemma convert_utf32_loop_throws scalar_at fuel str len_in i :
  (forall P j, throws_only P (scalar_at str j)) ->
  throws_only (has_kind InvalidCodepoint)
    (convert_utf32_loop scalar_at fuel str len_in i).
Proof.
  intros Hscalar. revert i. induction fuel as [|fuel IH]; intros i;
    cbn [convert_utf32_loop]; repeat throws_step.
Qed.

Lemma convert_to_utf16_throws signed str len_in encoding :
  throws_only
    (fun e => decode_error_kind encoding = Some (kind_of e))
    (convert_to_utf16 signed str len_in encoding).
Proof.
  unfold convert_to_utf16.
  repeat (apply throws_only_bind; [repeat throws_step|intros ?]).
  destruct encoding; cbn [decode_error_kind].
  - intros s e s' H. by apply convert_ascii_loop_throws in H.
  - intros s e s' H. apply convert_utf8_to_utf16_throws in H.
    unfold has_kind in H. by rewrite H.
  - intros s e s' H. unfold convert_utf16le_to_utf16 in H.
    assert (has_kind InvalidSurrogate e) as He; [|unfold has_kind in He; by rewrite He].
    revert H. apply throws_only_bind; [throws_step|intros ?].
    apply throws_only_bind; [throws_step|intros ?].
    apply convert_utf16_loop_throws. intros; eauto with throws.
  - intros s e s' H. unfold convert_utf16be_to_utf16 in H.
    assert (has_kind InvalidSurrogate e) as He; [|unfold has_kind in He; by rewrite He].
    revert H. apply throws_only_bind; [throws_step|intros ?].
    apply throws_only_bind; [throws_step|intros ?].
    apply convert_utf16_loop_throws. intros; eauto with throws.
  - intros s e s' H. unfold convert_utf32le_to_utf16 in H.
    assert (has_kind InvalidCodepoint e) as He; [|unfold has_kind in He; by rewrite He].
    revert H. apply throws_only_bind; [throws_step|intros ?].
    apply throws_only_bind; [throws_step|intros ?].
    apply convert_utf32_loop_throws. intros; eauto with throws.
  - intros s e s' H. unfold convert_utf32be_to_utf16 in H.
    assert (has_kind InvalidCodepoint e) as He; [|unfold has_kind in He; by rewrite He].
    revert H. apply throws_only_bind; [throws_step|intros ?].
    apply throws_only_bind; [throws_step|intros ?].
    apply convert_utf32_loop_throws. intros; eauto with throws.
Qed.

(** ** Arithmetic of [size_type] *)

Lemma to_size_type_small x : 0 <= x < 2 ^ 64 -> to_size_type x = x.
Proof. intros Hx. unfold to_size_type. by apply Z.mod_small. Qed.

Lemma to_size_type_range x : 0 <= to_size_type x < 2 ^ 64.
Proof. unfold to_size_type. apply Z.mod_pos_bound. lia. Qed.

(** ** The loops have fuel enough *)

Lemma terminates_bind {A B} (m : M A) (k : A -> M B) :
  terminates m -> (forall a, terminates (k a)) -> terminates (bind m k).
Proof.
  intros Hm Hk s. unfold bind. specialize (Hm s).
  destruct (m s) as [a s1| | |]; try done. apply Hk.
Qed.

Lemma terminates_ret {A} (a : A) : terminates (ret a).
Proof. by intros s. Qed.

Lemma terminates_throw {A} e : terminates (@throw A e).
Proof. by intros s. Qed.

Lemma terminates_undefined {A} : terminates (@undefined A).
Proof. by intros s. Qed.

Lemma terminates_get_len : terminates get_len.
Proof. by intros s. Qed.

Lemma terminates_set_len n : terminates (set_len n).
Proof. by intros s. Qed.

Lemma terminates_char_at str i : terminates (char_at str i).
Proof. intros s. unfold char_at. repeat case_match; done. Qed.

Lemma terminates_strlen_m str : terminates (strlen_m str).
Proof. intros s. unfold strlen_m. by case_match. Qed.

Lemma terminates_read_ptr i : terminates (read_ptr i).
Proof. intros s. unfold read_ptr. repeat case_match; done. Qed.

Lemma terminates_write_ptr i v : terminates (write_ptr i v).
Proof. intros s. unfold write_ptr. repeat case_match; done. Qed.

Lemma terminates_put_char r j v : terminates (put_char r j v).
Proof. intros s. unfold put_char. by case_match. Qed.

Lemma terminates_ensure_capacity n : terminates (ensure_capacity n).
Proof. intros s. unfold ensure_capacity. repeat case_match; done. Qed.

Create HintDb fuel discriminated.
#[local] Hint Resolve terminates_ret terminates_throw terminates_undefined
  terminates_get_len terminates_set_len terminates_char_at terminates_strlen_m
  terminates_read_ptr terminates_write_ptr terminates_put_char
  terminates_ensure_capacity : fuel.

(** One step through a term of the monad; a recursive call is closed by
    the induction hypothesis at hand, with its side condition on the fuel. *)
Ltac fuel_step :=
  match goal with
  | |- terminates (bind _ _) => apply terminates_bind; [|intros ?]
  | |- terminates (if ?b then _ else _) => destruct b eqn:?
  | |- terminates _ => solve [eauto with fuel]
  | IH : forall _, _ |- terminates _ => solve [apply IH; lia]
  end.

Lemma terminates_store_at_len v : terminates (store_at_len v).
Proof. unfold store_at_len. repeat fuel_step. Qed.

Lemma terminates_unit_le str i : terminates (unit_le str i).
Proof. unfold unit_le. repeat fuel_step. Qed.

Lemma terminates_unit_be str i : terminates (unit_be str i).
Proof. unfold unit_be. repeat fuel_step. Qed.

Lemma terminates_scalar_le str i : terminates (scalar_le str i).
Proof. unfold scalar_le. repeat fuel_step. Qed.

Lemma terminates_scalar_be str i : terminates (scalar_be str i).
Proof. unfold scalar_be. repeat fuel_step. Qed.

#[local] Hint Resolve terminates_store_at_len terminates_unit_le terminates_unit_be
  terminates_scalar_le terminates_scalar_be : fuel.

Lemma detect_utf8_heuristic_loop_terminates fuel str len_in :
  forall i count expected,
    (Z.to_nat (len_in - i) <= fuel)%nat ->
    terminates (detect_utf8_heuristic_loop fuel str len_in i count expected).
Proof.
  induction fuel as [|fuel IH]; intros i count expected Hfuel;
    cbn [detect_utf8_heuristic_loop]; repeat fuel_step.
  lia.
Qed.

Lemma convert_ascii_loop_terminates fuel signed str len_in :
  forall i,
    (Z.to_nat (len_in - i) <= fuel)%nat ->
    terminates (convert_ascii_loop fuel signed str len_in i).
Proof.
  induction fuel as [|fuel IH]; intros i Hfuel;
    cbn [convert_ascii_loop]; repeat fuel_step.
  lia.
Qed.

Lemma convert_utf8_loop_terminates fuel str len_in :
  forall i utf16_index,
    (Z.to_nat (len_in - i) <= fuel)%nat ->
    terminates (convert_utf8_loop fuel str len_in i utf16_index).
Proof.
  induction fuel as [|fuel IH]; intros i utf16_index Hfuel;
    cbn [convert_utf8_loop]; repeat fuel_step.
  lia.
Qed.

Lemma convert_utf16_loop_terminates unit_at fuel str len_in :
  (forall j, terminates (unit_at str j)) ->
  forall i,
    (Z.to_nat (len_in - i) <= fuel)%nat ->
    terminates (convert_utf16_loop unit_at fuel str len_in i).
Proof.
  intros Hunit. induction fuel as [|fuel IH]; intros i Hfuel;
    cbn [convert_utf16_loop]; repeat fuel_step.
  lia.
Qed.

Lemma convert_utf32_loop_terminates scalar_at fuel str len_in :
  (forall j, terminates (scalar_at str j)) ->
  forall i,
    (Z.to_nat (len_in - i) <= fuel)%nat ->
    terminates (convert_utf32_loop scalar_at fuel str len_in i).
Proof.
  intros Hscalar. induction fuel as [|fuel IH]; intros i Hfuel;
    cbn [convert_utf32_loop]; repeat fuel_step.
  lia.
Qed.

Lemma detect_encoding_terminates str len_in : terminates (detect_encoding str len_in).
Proof.
  unfold detect_encoding, and_then, byte_is, detect_utf8_heuristic.
  repeat fuel_step.
  apply detect_utf8_heuristic_loop_terminates. lia.
Qed.

Lemma convert_to_utf16_terminates signed str len_in encoding :
  terminates (convert_to_utf16 signed str len_in encoding).
Proof.
  unfold convert_to_utf16.
  repeat (apply terminates_bind; [repeat fuel_step|intros ?]).
  destruct encoding.
  - apply convert_ascii_loop_terminates. lia.
  - unfold convert_utf8_to_utf16. apply terminates_bind; [|intros ?; fuel_step].
    apply convert_utf8_loop_terminates. lia.
  - unfold convert_utf16le_to_utf16. repeat (apply terminates_bind; [fuel_step|intros ?]).
    apply convert_utf16_loop_terminates; [intros; fuel_step|lia].
  - unfold convert_utf16be_to_utf16. repeat (apply terminates_bind; [fuel_step|intros ?]).
    apply convert_utf16_loop_terminates; [intros; fuel_step|lia].
  - unfold convert_utf32le_to_utf16. repeat (apply terminates_bind; [fuel_step|intros ?]).
    apply convert_utf32_loop_terminates; [intros; fuel_step|lia].
  - unfold convert_utf32be_to_utf16. repeat (apply terminates_bind; [fuel_step|intros ?]).
    apply convert_utf32_loop_terminates; [intros; fuel_step|lia].
Qed.

(** Construction from bytes and [append(const char *str)] never stop for
    lack of fuel. *)
Lemma string_from_chars_terminates signed str len_in :
  string_from_chars signed str len_in <> OutOfFuel.
Proof.
  unfold string_from_chars. apply terminates_bind.
  - apply detect_encoding_terminates.
  - intros encoding. apply convert_to_utf16_terminates.
Qed.

Lemma append_chars_terminates signed str : terminates (append_chars signed str).
Proof.
  unfold append_chars. apply terminates_bind.
  - apply detect_encoding_terminates.
  - intros encoding. apply convert_to_utf16_terminates.
Qed.

Lemma throw_away_loop_terminates fuel :
  forall i j utf8_result s,
    (Z.to_nat (len s - i) <= fuel)%nat ->
    throw_away_loop fuel i j utf8_result s <> OutOfFuel.
Proof.
  induction fuel as [|fuel IH]; intros i j r s Hfuel; cbn [throw_away_loop];
    unfold bind, get_len, read_ptr, put_char, ret, undefined, out_of_fuel.
  - destruct (i <? len s) eqn:Hlt; [lia|done].
  - destruct (i <? len s) eqn:Hlt; [|done].
    repeat (case_match; simplify_eq; try done); apply IH; lia.
Qed.

Lemma throw_away_terminates : terminates throw_away.
Proof.
  intros s. unfold throw_away.
  destruct (ptr s); [|by case_match].
  pose proof (throw_away_loop_terminates (Z.to_nat (len s)) 0 0
                (replicate (Z.to_nat (to_size_type (len s + 1))) 0) s ltac:(lia)).
  destruct (throw_away_loop _ _ _ _ s); try done. by case_match.
Qed.

Lemma find_compare_terminates fuel str i :
  forall j s,
    (Z.to_nat (len str - j) <= fuel)%nat ->
    find_compare fuel str i j s <> OutOfFuel.
Proof.
  induction fuel as [|fuel IH]; intros j s Hfuel; cbn [find_compare];
    unfold bind, read_ptr, ret, undefined, out_of_fuel.
  - destruct (j <? len str) eqn:Hlt; [lia|done].
  - destruct (j <? len str) eqn:Hlt; [|done].
    repeat (case_match; simplify_eq; try done); apply IH; lia.
Qed.

Lemma find_compare_state fuel str i :
  forall j s b s', find_compare fuel str i j s = Normal b s' -> s' = s.
Proof.
  induction fuel as [|fuel IH]; intros j s b s'; cbn [find_compare];
    unfold bind, read_ptr, ret, undefined, out_of_fuel.
  - destruct (j <? len str); intros ?; by simplify_eq.
  - destruct (j <? len str); [|intros ?; by simplify_eq].
    repeat (case_match; simplify_eq; try done); try (intros ?; by simplify_eq);
      apply IH.
Qed.

(** A comparison that returns has read [ptr[i]], inside the array. *)
Lemma find_compare_in_range fuel str i s b s' buf :
  ptr s = Some buf -> 0 < len str ->
  find_compare fuel str i 0 s = Normal b s' ->
  0 <= i < Z.of_nat (length buf).
Proof.
  intros Hptr Hlen. destruct fuel as [|fuel]; cbn [find_compare];
    rewrite (proj2 (Z.ltb_lt 0 (len str)) Hlen); [done|].
  unfold bind, read_ptr. rewrite Hptr, Z.add_0_r.
  destruct (0 <=? i) eqn:Hi; [|done].
  destruct (buf !! Z.to_nat i) as [c|] eqn:Hc; [|done].
  apply lookup_lt_Some in Hc. intros _. lia.
Qed.

Lemma find_loop_terminates fuel str s buf :
  ptr s = Some buf -> Z.of_nat (length buf) < 2 ^ 64 ->
  forall i,
    (Z.to_nat (Z.of_nat (length buf) - i) < fuel)%nat ->
    find_loop fuel str i s <> OutOfFuel.
Proof.
  intros Hptr Hsize. induction fuel as [|fuel IH]; intros i Hfuel; [lia|].
  cbn [find_loop]. unfold bind at 1. unfold get_len at 1.
  destruct (i <=? to_size_type (len s - len str)); [|done].
  unfold bind.
  pose proof (find_compare_terminates (Z.to_nat (len str)) str i 0 s ltac:(lia)) as Hcmp.
  destruct (find_compare _ str i 0 s) as [found s1| | |] eqn:Hrun; try done.
  destruct found; [done|].
  pose proof (find_compare_state _ _ _ _ _ _ _ Hrun) as ->.
  destruct (Z.lt_ge_cases 0 (len str)) as [Hpos|Hneg].
  - pose proof (find_compare_in_range _ _ _ _ _ _ _ Hptr Hpos Hrun) as Hrange.
    apply IH. rewrite to_size_type_small by lia. lia.
  - exfalso. revert Hrun.
    destruct (Z.to_nat (len str)); cbn [find_compare];
      rewrite (proj2 (Z.ltb_ge 0 (len str)) Hneg); done.
Qed.

(** [find] never stops for lack of fuel. *)
Lemma find_terminates str pos s : buffer_ok s -> find str pos s <> OutOfFuel.
Proof.
  intros (Hlen & Hcap & Hbuf). unfold find.
  destruct (len s <=? pos); [done|]. destruct (empty str); [done|].
  destruct (ptr s) as [buf|] eqn:Hptr.
  - destruct (Z.lt_ge_cases pos 0).
    + cbn [find_loop]. unfold bind at 1. unfold get_len at 1.
      destruct (pos <=? _); [|done]. unfold bind.
      pose proof (find_compare_terminates (Z.to_nat (len str)) str pos 0 s ltac:(lia)).
      destruct (find_compare _ str pos 0 s) as [found s1| | |] eqn:Hrun; try done.
      destruct found; [done|]. exfalso.
      destruct (Z.lt_ge_cases 0 (len str)) as [Hpos|Hneg].
      * pose proof (find_compare_in_range _ _ _ _ _ _ _ Hptr Hpos Hrun). lia.
      * revert Hrun. destruct (Z.to_nat (len str)); cbn [find_compare];
          rewrite (proj2 (Z.ltb_ge 0 (len str)) Hneg); done.
    + eapply find_loop_terminates; [done|lia|lia].
  - cbn [find_loop]. unfold bind at 1. unfold get_len at 1.
    destruct (pos <=? _); [|done]. unfold bind.
    pose proof (find_compare_terminates (Z.to_nat (len str)) str pos 0 s ltac:(lia)).
    destruct (find_compare _ str pos 0 s) as [found s1| | |] eqn:Hrun; try done.
    destruct found; [done|]. exfalso. revert Hrun.
    destruct (Z.to_nat (len str)) eqn:Hn; cbn [find_compare].
    + destruct (0 <? len str) eqn:Hl; [done|]. done.
    + destruct (0 <? len str) eqn:Hl; [|done].
      unfold bind, read_ptr. by rewrite Hptr.
Qed.

(** ** The buffer: growth and stores *)

Lemma length_new_array {A} n : 0 <= n -> Z.of_nat (length (@new_array A n)) = n.
Proof. intros Hn. unfold new_array. rewrite length_replicate. lia. Qed.

Lemma grown_capacity_ge current required :
  required <= grown_capacity current required /\
  current <= grown_capacity current required.
Proof. unfold grown_capacity. repeat case_match; lia. Qed.

Lemma ensure_capacity_spec required s :
  buffer_ok s -> required < 2 ^ 64 ->
  exists s',
    ensure_capacity required s = Normal tt s' /\
    buffer_ok s' /\
    len s' = len s /\
    units s' = units s /\
    _str_capacity s' = grown_capacity (_str_capacity s) required.
Proof.
  intros (Hlen & Hcap & Hbuf) Hreq.
  unfold ensure_capacity, grown_capacity. cbv zeta.
  destruct (_str_capacity s <? required) eqn:Hlt.
  - apply Z.ltb_lt in Hlt.
    set (dbl := if _str_capacity s =? 0 then 8 else to_size_type (_str_capacity s * 2)).
    assert (0 <= dbl < 2 ^ 64) as Hdbl.
    { unfold dbl. destruct (_str_capacity s =? 0); [lia|apply to_size_type_range]. }
    set (new_cap := if dbl <? required then required else dbl).
    assert (new_cap = Z.max required dbl) as Hnew.
    { unfold new_cap. destruct (dbl <? required) eqn:?; lia. }
    assert (0 <= new_cap < 2 ^ 64) as Hnew_range by lia.
    assert (_str_capacity s < new_cap) as Hgrow by lia.
    destruct (ptr s) as [old|] eqn:Hptr.
    + destruct (0 <? len s) eqn:Hpos.
      * unfold memcpy. rewrite length_new_array by lia.
        rewrite !(proj2 (Z.leb_le _ _)) by lia. cbn [andb].
        eexists. split; [reflexivity|].
        unfold buffer_ok, units. cbn [ptr len _str_capacity]. rewrite Hptr.
        split_and!; try lia.
        -- rewrite length_app, length_take, length_drop.
           unfold new_array. rewrite length_replicate. lia.
        -- rewrite take_app_le by (rewrite length_take; lia).
           rewrite take_take. f_equal. lia.
      * apply Z.ltb_ge in Hpos. assert (len s = 0) as Hzero by lia.
        eexists. split; [reflexivity|].
        unfold buffer_ok, units. cbn [ptr len _str_capacity]. rewrite Hptr, Hzero.
        split_and!; try lia.
        -- apply length_new_array; lia.
        -- done.
    + eexists. split; [reflexivity|].
      unfold buffer_ok, units. cbn [ptr len _str_capacity]. rewrite Hptr.
      assert (len s = 0) as Hzero by lia. rewrite Hzero.
      split_and!; try lia.
      * apply length_new_array; lia.
      * done.
  - exists s. split_and!; try done.
Qed.

Lemma store_at_len_spec v s :
  buffer_ok s -> len s < _str_capacity s ->
  exists s',
    store_at_len v s = Normal tt s' /\
    buffer_ok s' /\
    len s' = len s + 1 /\
    units s' = units s ++ [Some v] /\
    _str_capacity s' = _str_capacity s.
Proof.
  intros (Hlen & Hcap & Hbuf) Hroom.
  destruct (ptr s) as [buf|] eqn:Hptr; [|lia].
  unfold store_at_len, bind, get_len, write_ptr, set_len. rewrite Hptr.
  rewrite (proj2 (Z.leb_le 0 (len s))) by lia.
  rewrite (proj2 (Z.ltb_lt (len s) _)) by lia. cbn [andb ptr len _str_capacity].
  rewrite to_size_type_small by lia.
  eexists. split; [reflexivity|].
  unfold buffer_ok, units. cbn [ptr len _str_capacity]. rewrite Hptr.
  split_and!; try lia.
  - rewrite length_insert. lia.
  - replace (Z.to_nat (len s + 1)) with (S (Z.to_nat (len s))) by lia.
    assert (Z.to_nat (len s) < length buf)%nat as Hi by lia.
    destruct (lookup_lt_is_Some_2 _ _ Hi) as [old Hold].
    rewrite (take_S_r _ _ (Some v)) by (by apply list_lookup_insert_eq).
    f_equal. by rewrite take_insert_ge.
Qed.

(** [ensure_capacity(len + 1); ptr[len++] = v;], the body of [push_back],
    of [append(data_type)] and of the stores of the 16 and 32-bit decoders. *)
Lemma grow_and_store_spec v s :
  buffer_ok s -> len s + 1 < 2 ^ 64 ->
  exists s',
    ((let* n := get_len in ensure_capacity (to_size_type (n + 1))) ;;
     store_at_len v) s = Normal tt s' /\
    buffer_ok s' /\
    len s' = len s + 1 /\
    units s' = units s ++ [Some v] /\
    _str_capacity s <= _str_capacity s'.
Proof.
  intros Hok Hbound.
  assert (0 <= len s) as Hlen by (destruct Hok; lia).
  destruct (ensure_capacity_spec (len s + 1) s Hok Hbound)
    as (s1 & Hgrow & Hok1 & Hlen1 & Hunits1 & Hcap1).
  pose proof (grown_capacity_ge (_str_capacity s) (len s + 1)) as [Hge1 Hge2].
  destruct (store_at_len_spec v s1 Hok1) as (s2 & Hstore & Hok2 & Hlen2 & Hunits2 & Hcap2);
    [lia|].
  exists s2. split_and!; try done; try congruence; try lia.
  unfold bind at 1. unfold bind at 1. unfold get_len.
  rewrite to_size_type_small by lia. by rewrite Hgrow.
Qed.

(** ** The 16-bit decoders on a sequence of units *)

Lemma high_not_low u : is_high_surrogate u = true -> is_low_surrogate u = false.
Proof. unfold is_high_surrogate, is_low_surrogate. lia. Qed.

Lemma pairs_ok_highs_paired us : pairs_ok us = true <-> highs_paired us.
Proof.
  remember (length us) as n eqn:Hn. revert us Hn.
  induction (lt_wf n) as [n _ IH]. intros us Hn.
  destruct us as [|u rest]; [split; [intros _ k u Hk; done|done]|].
  cbn [pairs_ok]. destruct (is_high_surrogate u) eqn:Hu.
  - destruct rest as [|l rest'].
    + split; [done|]. intros Hp. destruct (Hp 0%nat u eq_refl Hu) as (l & Hl & _). done.
    + rewrite andb_true_iff.
      rewrite (IH (length rest')) by (cbn in Hn; lia || done). split.
      * intros [Hl Hrest] [|[|k]] v Hk Hv; cbn in Hk; simplify_eq.
        -- exists l. done.
        -- by rewrite high_not_low in Hl.
        -- apply (Hrest k v Hk Hv).
      * intros Hp. destruct (Hp 0%nat u eq_refl Hu) as (l' & Hl' & Hlow).
        cbn in Hl'. simplify_eq. split; [done|].
        intros k v Hk Hv. apply (Hp (S (S k)) v Hk Hv).
  - rewrite (IH (length rest)) by (cbn in Hn; lia || done). split.
    + intros Hrest [|k] v Hk Hv; cbn in Hk; simplify_eq.
      * congruence.
      * apply (Hrest k v Hk Hv).
    + intros Hp k v Hk Hv. apply (Hp (S k) v Hk Hv).
Qed.

Lemma unit_of_bytes u :
  unit16 u -> to_data_type (Z.lor (Z.shiftl (Z.shiftr u 8) 8) (Z.land u 0xFF)) = u.
Proof.
  intros Hu. unfold to_data_type.
  assert (Z.lor (Z.shiftl (Z.shiftr u 8) 8) (Z.land u 0xFF) = u) as ->.
  { apply Z.bits_inj'. intros n Hn.
    rewrite Z.lor_spec, Z.land_spec, Z.shiftl_spec by lia.
    change 255 with (Z.ones 8).
    destruct (Z.lt_ge_cases n 8) as [Hlt|Hge].
    - rewrite (Z.testbit_neg_r _ (n - 8)) by lia.
      rewrite Z.ones_spec_low by lia. by rewrite andb_true_r.
    - rewrite Z.shiftr_spec by lia. rewrite Z.ones_spec_high by lia.
      rewrite andb_false_r, orb_false_r. f_equal. lia. }
  unfold unit16 in Hu. apply Z.mod_small. lia.
Qed.

Lemma le_bytes_lookup us (k : nat) u :
  us !! k = Some u ->
  le_bytes us !! (2 * k)%nat = Some (Z.land u 0xFF) /\
  le_bytes us !! S (2 * k) = Some (Z.shiftr u 8).
Proof.
  revert k. induction us as [|v us IH]; intros [|k] Hk; cbn in Hk; simplify_eq.
  - done.
  - replace (2 * S k)%nat with (S (S (2 * k))) by lia. cbn. by apply IH.
Qed.

Lemma be_bytes_lookup us (k : nat) u :
  us !! k = Some u ->
  be_bytes us !! (2 * k)%nat = Some (Z.shiftr u 8) /\
  be_bytes us !! S (2 * k) = Some (Z.land u 0xFF).
Proof.
  revert k. induction us as [|v us IH]; intros [|k] Hk; cbn in Hk; simplify_eq.
  - done.
  - replace (2 * S k)%nat with (S (S (2 * k))) by lia. cbn. by apply IH.
Qed.

Lemma unit_le_bytes us (k : nat) u s :
  Forall unit16 us -> us !! k = Some u ->
  unit_le (le_bytes us) (2 * Z.of_nat k) s = Normal u s.
Proof.
  intros Hall Hk. destruct (le_bytes_lookup us k u Hk) as [H0 H1].
  pose proof (proj1 (Forall_lookup _ _) Hall k u Hk) as Hu.
  unfold unit_le, bind, char_at, ret.
  rewrite !(proj2 (Z.leb_le 0 _)) by lia.
  replace (Z.to_nat (2 * Z.of_nat k + 1)) with (S (2 * k)) by lia.
  replace (Z.to_nat (2 * Z.of_nat k)) with (2 * k)%nat by lia.
  rewrite H1, H0. by rewrite unit_of_bytes.
Qed.

Lemma unit_be_bytes us (k : nat) u s :
  Forall unit16 us -> us !! k = Some u ->
  unit_be (be_bytes us) (2 * Z.of_nat k) s = Normal u s.
Proof.
  intros Hall Hk. destruct (be_bytes_lookup us k u Hk) as [H0 H1].
  pose proof (proj1 (Forall_lookup _ _) Hall k u Hk) as Hu.
  unfold unit_be, bind, char_at, ret.
  rewrite !(proj2 (Z.leb_le 0 _)) by lia.
  replace (Z.to_nat (2 * Z.of_nat k + 1)) with (S (2 * k)) by lia.
  replace (Z.to_nat (2 * Z.of_nat k)) with (2 * k)%nat by lia.
  rewrite H0, H1. by rewrite unit_of_bytes.
Qed.

Section utf16_loop.
Variable unit_at : list Z -> Z -> M Z.
Variable bytes_of : list Z -> list Z.
Hypothesis unit_at_bytes : forall us (k : nat) u s,
  Forall unit16 us -> us !! k = Some u ->
  unit_at (bytes_of us) (2 * Z.of_nat k) s = Normal u s.

Lemma convert_utf16_loop_spec us :
  Forall unit16 us ->
  forall (n k fuel : nat) s,
    (length us - k <= n)%nat -> (k <= length us)%nat ->
    (length us - k <= fuel)%nat ->
    buffer_ok s -> len s + Z.of_nat (length us - k) < 2 ^ 64 ->
    utf16_loop_post (drop k us) s
      (convert_utf16_loop unit_at fuel (bytes_of us)
         (2 * Z.of_nat (length us)) (2 * Z.of_nat k) s).
Proof.
  intros Hall. induction n as [n IH] using lt_wf_ind.
  intros k fuel s Hn Hk Hfuel Hok Hbound.
  destruct (decide (k = length us)) as [->|Hne].
  { rewrite drop_all.
    destruct fuel; cbn [convert_utf16_loop]; rewrite Z.ltb_irrefl;
      cbn; rewrite app_nil_r; split_and!; done || lia. }
  assert (k < length us)%nat as Hlt by lia.
  destruct (lookup_lt_is_Some_2 _ _ Hlt) as [u Hu].
  rewrite (drop_S _ _ _ Hu).
  destruct fuel as [|fuel]; [lia|]. cbn [convert_utf16_loop].
  rewrite (proj2 (Z.ltb_lt _ _)) by lia.
  rewrite (bind_Normal _ _ _ _ _ (unit_at_bytes us k u s Hall Hu)).
  destruct (grow_and_store_spec u s Hok) as (s1 & Hrun1 & Hok1 & Hlen1 & Hunits1 & Hcap1);
    [lia|].
  unfold bind at 1. unfold bind at 1 in Hrun1.
  destruct ((let* n := get_len in ensure_capacity (to_size_type (n + 1))) s)
    as [[] s0| | |] eqn:Hgrow; try done.
  rewrite (bind_Normal _ _ _ _ _ Hrun1).
  fold (is_high_surrogate u). cbn [pairs_ok].
  destruct (is_high_surrogate u) eqn:Hhigh.
  - destruct (decide (S k = length us)) as [Hlast|Hmore].
    + rewrite (proj2 (Z.leb_le _ _)) by lia.
      rewrite drop_ge by lia. cbn. by rewrite Hhigh.
    + rewrite (proj2 (Z.leb_gt _ _)) by lia.
      assert (S k < length us)%nat as Hlt2 by lia.
      destruct (lookup_lt_is_Some_2 _ _ Hlt2) as [l Hl].
      rewrite (drop_S _ _ _ Hl).
      replace (2 * Z.of_nat k + 2) with (2 * Z.of_nat (S k)) by lia.
      rewrite (bind_Normal _ _ _ _ _ (unit_at_bytes us (S k) l s1 Hall Hl)).
      unfold is_low_surrogate.
      destruct ((l <? 0xDC00) || (0xDFFF <? l)) eqn:Hlow.
      * cbn. rewrite Hhigh. split; [|done]. unfold is_low_surrogate. lia.
      * destruct (grow_and_store_spec l s1 Hok1)
          as (s2 & Hrun2 & Hok2 & Hlen2 & Hunits2 & Hcap2); [lia|].
        unfold bind at 1. unfold bind at 1 in Hrun2.
        destruct ((let* n := get_len in ensure_capacity (to_size_type (n + 1))) s1)
          as [[] s1'| | |] eqn:Hgrow2; try done.
        rewrite (bind_Normal _ _ _ _ _ Hrun2).
        replace (2 * Z.of_nat (S k) + 2) with (2 * Z.of_nat (S (S k))) by lia.
        assert ((0xDC00 <=? l) && (l <=? 0xDFFF) = true) as Hlow' by lia.
        specialize (IH (length us - S (S k))%nat ltac:(lia) (S (S k)) fuel s2
                      ltac:(lia) ltac:(lia) ltac:(lia) Hok2 ltac:(lia)).
        unfold utf16_loop_post in *.
        cbn [pairs_ok]. rewrite Hhigh. unfold is_low_surrogate. rewrite Hlow'.
        cbn [andb].
        destruct (convert_utf16_loop _ _ _ _ _ s2) as [[] s3|e s3| |]; try done.
        destruct IH as (Hp & Hok3 & Hunits3 & Hcap3).
        split_and!; try done; try lia.
        rewrite Hunits3, Hunits2, Hunits1. cbn. by rewrite <- !app_assoc.
  - replace (2 * Z.of_nat k + 2) with (2 * Z.of_nat (S k)) by lia.
    specialize (IH (length us - S k)%nat ltac:(lia) (S k) fuel s1
                  ltac:(lia) ltac:(lia) ltac:(lia) Hok1 ltac:(lia)).
    unfold utf16_loop_post in *.
    cbn [pairs_ok]. rewrite Hhigh.
    destruct (convert_utf16_loop _ _ _ _ _ s1) as [[] s3|e s3| |]; try done.
    destruct IH as (Hp & Hok3 & Hunits3 & Hcap3).
    split_and!; try done; try lia.
    rewrite Hunits3, Hunits1. cbn. by rewrite <- !app_assoc.
Qed.
End utf16_loop.

Lemma set_len_zero_ok s :
  buffer_ok s ->
  buffer_ok {| ptr := ptr s; len := 0; _str_capacity := _str_capacity s |} /\
  units {| ptr := ptr s; len := 0; _str_capacity := _str_capacity s |} = [].
Proof.
  intros (Hlen & Hcap & Hbuf). unfold buffer_ok, units. cbn [ptr len _str_capacity].
  split; [split_and!; done || lia|]. by destruct (ptr s).
Qed.

(** A 16-bit decoder, from its entry: [ensure_capacity(len_in / 2)],
    [len = 0], and the loop. *)
Lemma convert_utf16_spec unit_at bytes_of us s :
  (forall us (k : nat) u s,
     Forall unit16 us -> us !! k = Some u ->
     unit_at (bytes_of us) (2 * Z.of_nat k) s = Normal u s) ->
  Forall unit16 us -> Z.of_nat (length us) < 2 ^ 63 -> buffer_ok s ->
  match (ensure_capacity (2 * Z.of_nat (length us) / 2) ;;
         set_len 0 ;;
         convert_utf16_loop unit_at (Z.to_nat (2 * Z.of_nat (length us)))
           (bytes_of us) (2 * Z.of_nat (length us)) 0) s with
  | Normal _ s' => highs_paired us /\ buffer_ok s' /\ units s' = Some <$> us
  | Throw e _ => ~ highs_paired us /\ kind_of e = InvalidSurrogate
  | Undefined | OutOfFuel => False
  end.
Proof.
  intros Hread Hall Hsize Hok.
  destruct (ensure_capacity_spec (2 * Z.of_nat (length us) / 2) s Hok)
    as (s1 & Hgrow & Hok1 & Hlen1 & Hunits1 & Hcap1).
  { rewrite Z.mul_comm, Z.div_mul by lia. lia. }
  rewrite (bind_Normal _ _ _ _ _ Hgrow).
  unfold bind at 1. unfold set_len at 1.
  destruct (set_len_zero_ok s1 Hok1) as [Hok0 Hunits0].
  pose proof (convert_utf16_loop_spec unit_at bytes_of Hread us Hall
                (length us) 0 (Z.to_nat (2 * Z.of_nat (length us))) _
                ltac:(lia) ltac:(lia) ltac:(lia) Hok0 ltac:(cbn; lia)) as Hloop.
  change (2 * Z.of_nat 0%nat) with 0 in Hloop. rewrite drop_0 in Hloop.
  unfold utf16_loop_post in Hloop.
  destruct (convert_utf16_loop _ _ _ _ _ _) as [[] s2|e s2| |]; try done.
  - destruct Hloop as (Hp & Hok2 & Hunits2 & _).
    rewrite Hunits0 in Hunits2. split_and!; try done.
    by apply pairs_ok_highs_paired.
  - destruct Hloop as [Hp Hkind]. split; [|done].
    rewrite <- pairs_ok_highs_paired. by rewrite Hp.
Qed.

(** ** Appending code units: the frame *)

Lemma ensure_capacity_len required s a s' :
  ensure_capacity required s = Normal a s' -> len s' = len s.
Proof.
  unfold ensure_capacity. intros H.
  repeat (case_match; simplify_eq; try done).
Qed.

Lemma push_back_unfold ch s :
  push_back ch s =
  ((let* n := get_len in ensure_capacity (to_size_type (n + 1))) ;;
   store_at_len ch) s.
Proof.
  unfold push_back, store_at_len, bind, get_len.
  destruct (ensure_capacity _ s) as [[] s1| | |] eqn:Hgrow; try done.
  by rewrite (ensure_capacity_len _ _ _ _ Hgrow).
Qed.

(** [append(data_type ch)] writes [ch] at index [len], adds one to [len]
    and keeps the units below; the capacity does not decrease. *)
Lemma append_char_frame ch s :
  buffer_ok s -> len s + 1 < 2 ^ 64 ->
  exists s',
    append_char ch s = Normal tt s' /\
    buffer_ok s' /\
    len s' = len s + 1 /\
    units s' = units s ++ [Some ch] /\
    _str_capacity s <= _str_capacity s'.
Proof.
  intros Hok Hbound. unfold append_char. rewrite push_back_unfold.
  by apply grow_and_store_spec.
Qed.

Lemma units_length s : buffer_ok s -> Z.of_nat (length (units s)) = len s.
Proof.
  intros (Hlen & Hcap & Hbuf). unfold units.
  destruct (ptr s) as [buf|]; [|cbn; lia].
  rewrite length_take. lia.
Qed.

(** [append(const string &other)] writes the units of [other] at index
    [len], adds their number to [len] and keeps the units below. *)
Lemma append_string_frame other s :
  buffer_ok s -> buffer_ok other -> len s + len other < 2 ^ 64 ->
  exists s',
    append_string other s = Normal tt s' /\
    buffer_ok s' /\
    len s' = len s + len other /\
    units s' = units s ++ units other /\
    _str_capacity s <= _str_capacity s'.
Proof.
  intros Hok Hother Hbound.
  pose proof Hok as (Hlen & Hcap & Hbuf).
  pose proof Hother as (Holen & Hocap & Hobuf).
  destruct (ensure_capacity_spec (len s + len other) s Hok Hbound)
    as (s1 & Hgrow & Hok1 & Hlen1 & Hunits1 & Hcap1).
  pose proof (grown_capacity_ge (_str_capacity s) (len s + len other)) as [Hge1 Hge2].
  pose proof Hok1 as (Hlen1' & Hcap1' & Hbuf1).
  unfold append_string. rewrite to_size_type_small by lia. rewrite Hgrow.
  cbv zeta. rewrite (to_size_type_small (len s1 + len other)) by lia.
  destruct (ptr s1) as [dst|] eqn:Hptr1.
  - rewrite (proj2 (Z.leb_le 0 _)) by lia.
    rewrite (proj2 (Z.leb_le (len s1) _)) by lia. cbn [andb].
    destruct (ptr other) as [src|] eqn:Hoptr.
    + unfold memcpy. rewrite length_drop.
      rewrite !(proj2 (Z.leb_le _ _)) by lia. cbn [andb].
      eexists. split; [reflexivity|].
      unfold buffer_ok, units at 1. cbn [ptr len _str_capacity].
      split_and!; try lia.
      * rewrite !length_app, !length_take, !length_drop. lia.
      * rewrite <- Hunits1. unfold units. rewrite Hptr1, Hoptr.
        rewrite take_app_ge by (rewrite length_take; lia).
        f_equal. rewrite length_take.
        rewrite take_app_le by (rewrite length_take; lia).
        rewrite take_take. f_equal. lia.
    + assert (len other = 0) as Hz by (cbn in Hobuf; lia).
      eexists. split; [reflexivity|].
      unfold buffer_ok, units at 1. cbn [ptr len _str_capacity].
      split_and!; try lia.
      rewrite <- Hunits1. unfold units. rewrite Hptr1, Hoptr, Hz, Z.add_0_r.
      by rewrite app_nil_r.
  - assert (len s1 = 0 /\ len other = 0) as [Hz1 Hz2] by (cbn in Hbuf1; lia).
    rewrite Hz1, Hz2. cbn [Z.eqb Z.add].
    eexists. split; [reflexivity|].
    unfold buffer_ok, units at 1. cbn [ptr len _str_capacity].
    split_and!; try lia.
    rewrite <- Hunits1. unfold units. rewrite Hptr1, Hz2.
    by destruct (ptr other).
Qed.

(** ** The detector *)

Lemma returns_only_bind {A B} (P : B -> Prop) (m : M A) (k : A -> M B) :
  (forall a, returns_only P (k a)) -> returns_only P (bind m k).
Proof.
  intros Hk s b s' H. unfold bind in H.
  destruct (m s) as [a s1| | |] eqn:E; try done. by eapply Hk.
Qed.

Lemma detect_utf8_heuristic_loop_returns fuel str len_in i count expected :
  returns_only (fun e => e = ASCII \/ e = UTF8)
    (detect_utf8_heuristic_loop fuel str len_in i count expected).
Proof.
  revert i count expected. induction fuel as [|fuel IH]; intros i count expected;
    cbn [detect_utf8_heuristic_loop].
  - destruct (i <? len_in); [done|]. intros s a s' H. unfold ret in H.
    simplify_eq. destruct (0 <? count); auto.
  - destruct (i <? len_in).
    + apply returns_only_bind. intros byte.
      repeat match goal with
             | |- returns_only _ (if ?b then _ else _) => destruct b
             end;
        try apply IH; intros s a s' H; unfold ret in H; simplify_eq; auto.
    + intros s a s' H. unfold ret in H. simplify_eq. destruct (0 <? count); auto.
Qed.

Lemma detect_encoding_never_utf32_le str len_in s s' :
  detect_encoding str len_in s <> Normal UTF32_LE s'.
Proof.
  intros H.
  assert (forall n t, detect_utf8_heuristic str n t <> Normal UTF32_LE s') as Hheur.
  { intros n t Hn. apply detect_utf8_heuristic_loop_returns in Hn.
    by destruct Hn. }
  destruct str as [|b0 [|b1 [|b2 [|b3 rest]]]];
    unfold detect_encoding, and_then, byte_is, char_at, strlen_m, ret, bind in H;
    cbn in H;
    repeat (case_match; simplify_eq/=; try done; try lia);
    by eapply Hheur.
Qed.

Lemma detect_encoding_short str len_in n s :
  effective_len str len_in = Some n -> n < 2 ->
  detect_encoding str len_in s = Normal ASCII s.
Proof.
  unfold effective_len, detect_encoding, bind, strlen_m, ret.
  intros Hn Hshort. destruct (len_in =? -1); simplify_eq/=.
  - rewrite Hn. by rewrite (proj2 (Z.ltb_lt _ _) Hshort).
  - by rewrite (proj2 (Z.ltb_lt _ _) Hshort).
Qed.

Lemma detect_encoding_utf8_bom rest len_in n s :
  effective_len (0xEF :: 0xBB :: 0xBF :: rest) len_in = Some n -> 3 <= n ->
  detect_encoding (0xEF :: 0xBB :: 0xBF :: rest) len_in s = Normal UTF8 s.
Proof.
  unfold effective_len, detect_encoding, and_then, byte_is, char_at,
    strlen_m, ret, bind.
  intros Hn Hlen. destruct (len_in =? -1); simplify_eq/=.
  - rewrite Hn. rewrite (proj2 (Z.ltb_ge _ _)) by lia.
    by rewrite (proj2 (Z.leb_le _ _) Hlen).
  - rewrite (proj2 (Z.ltb_ge _ _)) by lia.
    by rewrite (proj2 (Z.leb_le _ _) Hlen).
Qed.

(** BOM precedence: [0xFE 0xFF] first is UTF-16BE whatever follows. *)
Lemma detect_encoding_utf16_be_bom rest len_in n s :
  effective_len (0xFE :: 0xFF :: rest) len_in = Some n -> 2 <= n ->
  detect_encoding (0xFE :: 0xFF :: rest) len_in s = Normal UTF16_BE s.
Proof.
  unfold effective_len, detect_encoding, and_then, byte_is, char_at,
    strlen_m, ret, bind.
  intros Hn Hlen. destruct (len_in =? -1); simplify_eq/=.
  - rewrite Hn. rewrite (proj2 (Z.ltb_ge _ _)) by lia.
    rewrite (proj2 (Z.leb_le 2 _)) by lia.
    destruct (3 <=? n); [destruct rest|]; done.
  - rewrite (proj2 (Z.ltb_ge _ _)) by lia.
    rewrite (proj2 (Z.leb_le 2 _)) by lia.
    destruct (3 <=? n); [destruct rest|]; done.
Qed.

Lemma detect_encoding_utf16_le_bom rest len_in n s :
  effective_len (0xFF :: 0xFE :: rest) len_in = Some n -> 2 <= n ->
  detect_encoding (0xFF :: 0xFE :: rest) len_in s = Normal UTF16_LE s.
Proof.
  unfold effective_len, detect_encoding, and_then, byte_is, char_at,
    strlen_m, ret, bind.
  intros Hn Hlen. destruct (len_in =? -1); simplify_eq/=.
  - rewrite Hn. rewrite (proj2 (Z.ltb_ge _ _)) by lia.
    rewrite (proj2 (Z.leb_le 2 _)) by lia.
    destruct (3 <=? n); [destruct rest|]; done.
  - rewrite (proj2 (Z.ltb_ge _ _)) by lia.
    rewrite (proj2 (Z.leb_le 2 _)) by lia.
    destruct (3 <=? n); [destruct rest|]; done.
Qed.

Lemma detect_encoding_utf32_be_bom rest len_in s :
  4 <= len_in ->
  detect_encoding (0x00 :: 0x00 :: 0xFE :: 0xFF :: rest) len_in s = Normal UTF32_BE s.
Proof.
  unfold detect_encoding, and_then, byte_is, char_at, strlen_m, ret, bind.
  intros Hlen.
  rewrite (proj2 (Z.eqb_neq len_in (-1))) by lia.
  rewrite (proj2 (Z.ltb_ge _ _)) by lia.
  rewrite (proj2 (Z.leb_le 3 _)) by lia.
  rewrite (proj2 (Z.leb_le 2 _)) by lia.
  rewrite (proj2 (Z.leb_le 4 _)) by lia. done.
Qed.

Lemma default_members_ok : buffer_ok default_members.
Proof. unfold buffer_ok. cbn. lia. Qed.

(** ** Where the round trip holds: 7-bit input of explicit length *)

Lemma char_at_lookup str (k : nat) b s :
  str !! k = Some b -> char_at str (Z.of_nat k) s = Normal b s.
Proof.
  intros Hk. unfold char_at. rewrite (proj2 (Z.leb_le 0 _)) by lia.
  by rewrite Nat2Z.id, Hk.
Qed.

Lemma detect_utf8_heuristic_loop_seven_bit str s :
  Forall seven_bit str ->
  forall fuel (k : nat),
    (length str - k <= fuel)%nat ->
    detect_utf8_heuristic_loop fuel str (Z.of_nat (length str)) (Z.of_nat k) 0 0 s
    = Normal ASCII s.
Proof.
  intros Hall. induction fuel as [|fuel IH]; intros k Hfuel;
    cbn [detect_utf8_heuristic_loop].
  - by rewrite (proj2 (Z.ltb_ge _ _)) by lia.
  - destruct (Z.ltb_spec (Z.of_nat k) (Z.of_nat (length str))) as [Hlt|Hge]; [|done].
    destruct (lookup_lt_is_Some_2 str k ltac:(lia)) as [b Hb].
    pose proof (proj1 (Forall_lookup _ _) Hall k b Hb) as Hseven.
    rewrite (bind_Normal _ _ _ _ _ (char_at_lookup _ _ _ s Hb)).
    unfold seven_bit in Hseven. cbn [Z.eqb].
    rewrite (proj2 (Z.leb_le b 0x7F)) by lia.
    replace (Z.of_nat k + 1) with (Z.of_nat (S k)) by lia.
    apply IH. lia.
Qed.

Lemma detect_encoding_seven_bit str s :
  Forall seven_bit str ->
  detect_encoding str (Z.of_nat (length str)) s = Normal ASCII s.
Proof.
  intros Hall.
  pose proof (detect_utf8_heuristic_loop_seven_bit str s Hall
                (Z.to_nat (Z.of_nat (length str))) 0 ltac:(lia)) as Hheur.
  change (Z.of_nat 0) with 0 in Hheur.
  unfold detect_encoding, and_then, byte_is, detect_utf8_heuristic, bind at 1.
  rewrite (proj2 (Z.eqb_neq _ (-1))) by lia. unfold ret at 1.
  destruct (Z.of_nat (length str) <? 2) eqn:Hshort; [done|].
  destruct str as [|b0 [|b1 rest]]; [done|done|].
  assert (seven_bit b0 /\ seven_bit b1) as [H0 H1].
  { inversion Hall as [|? ? ? Hrest]; subst. inversion Hrest; subst. done. }
  unfold seven_bit in H0, H1.
  revert Hheur.
  generalize (detect_utf8_heuristic_loop
                (Z.to_nat (Z.of_nat (length (b0 :: b1 :: rest))))
                (b0 :: b1 :: rest) (Z.of_nat (length (b0 :: b1 :: rest))) 0 0 0).
  intros heuristic Hheur.
  unfold bind, char_at, ret.
  change (Z.to_nat 0) with 0%nat. change (Z.to_nat 1) with 1%nat.
  destruct (3 <=? _); destruct (2 <=? _); destruct (4 <=? _);
    cbn -[Z.eqb Z.to_nat];
    rewrite ?(proj2 (Z.eqb_neq b0 _)) by lia; exact Hheur.
Qed.

(** The ASCII loop with an explicit length stores one unit per byte. *)
Lemma convert_ascii_loop_spec signed str :
  forall fuel (k : nat) s,
    (length str - k <= fuel)%nat -> (k <= length str)%nat ->
    buffer_ok s ->
    len s + Z.of_nat (length str - k) <= _str_capacity s ->
    exists s',
      convert_ascii_loop fuel signed str (Z.of_nat (length str)) (Z.of_nat k) s
      = Normal tt s' /\
      buffer_ok s' /\
      units s' = units s ++ (Some <$> (char_to_data_type signed <$> drop k str)).
Proof.
  induction fuel as [|fuel IH]; intros k s Hfuel Hk Hok Hroom;
    cbn [convert_ascii_loop].
  - rewrite (proj2 (Z.ltb_ge _ _)) by lia. rewrite drop_ge by lia.
    exists s. cbn. by rewrite app_nil_r.
  - destruct (Z.ltb_spec (Z.of_nat k) (Z.of_nat (length str))) as [Hlt|Hge].
    + destruct (lookup_lt_is_Some_2 str k ltac:(lia)) as [b Hb].
      rewrite (bind_Normal _ _ _ _ _ (char_at_lookup _ _ _ s Hb)).
      destruct (store_at_len_spec (char_to_data_type signed b) s Hok ltac:(lia))
        as (s1 & Hstore & Hok1 & Hlen1 & Hunits1 & Hcap1).
      rewrite (bind_Normal _ _ _ _ _ Hstore).
      replace (Z.of_nat k + 1) with (Z.of_nat (S k)) by lia.
      destruct (IH (S k) s1 ltac:(lia) ltac:(lia) Hok1 ltac:(lia))
        as (s2 & Hrun & Hok2 & Hunits2).
      exists s2. split_and!; try done.
      rewrite Hunits2, Hunits1, (drop_S _ _ _ Hb). cbn. by rewrite <- app_assoc.
    + rewrite drop_ge by lia. exists s. cbn. by rewrite app_nil_r.
Qed.

(** [string(str, n)] for [n] bytes classified ASCII: one unit per byte, in
    order, each the conversion of the plain [char]. *)
Lemma convert_to_utf16_ascii_explicit signed str s :
  buffer_ok s -> Z.of_nat (length str) < 2 ^ 63 ->
  exists s',
    convert_to_utf16 signed str (Z.of_nat (length str)) ASCII s = Normal tt s' /\
    buffer_ok s' /\
    len s' = Z.of_nat (length str) /\
    units s' = Some <$> (char_to_data_type signed <$> str).
Proof.
  intros Hok Hsize. unfold convert_to_utf16.
  rewrite (proj2 (Z.eqb_neq _ (-1))) by lia.
  unfold bind at 1. unfold ret at 1. rewrite to_size_type_small by lia.
  destruct (ensure_capacity_spec (Z.of_nat (length str)) s Hok ltac:(lia))
    as (s1 & Hgrow & Hok1 & Hlen1 & Hunits1 & Hcap1).
  pose proof (grown_capacity_ge (_str_capacity s) (Z.of_nat (length str))) as [Hge _].
  rewrite (bind_Normal _ _ _ _ _ Hgrow).
  unfold bind at 1. unfold set_len at 1.
  destruct (set_len_zero_ok s1 Hok1) as [Hok0 Hunits0].
  destruct (convert_ascii_loop_spec signed str (Z.to_nat (Z.of_nat (length str))) 0 _
              ltac:(lia) ltac:(lia) Hok0 ltac:(cbn; lia))
    as (s2 & Hrun & Hok2 & Hunits2).
  change (Z.of_nat 0) with 0 in Hrun. rewrite drop_0, Hunits0 in Hunits2.
  exists s2. split_and!; try done.
  rewrite <- (units_length s2 Hok2), Hunits2. cbn [app]. by rewrite !length_fmap.
Qed.

(** [throw_away] on units below [0x80]: one byte per unit, so the array of
    [len + 1] bytes holds them and their terminator. *)
Lemma read_ptr_units s (k : nat) v :
  buffer_ok s -> units s !! k = Some (Some v) ->
  read_ptr (Z.of_nat k) s = Normal v s.
Proof.
  intros (Hlen & Hcap & Hbuf) Hk. unfold read_ptr, units in *.
  destruct (ptr s) as [buf|]; [|done].
  rewrite (proj2 (Z.leb_le 0 _)) by lia. rewrite Nat2Z.id.
  apply lookup_take_Some in Hk as [Hk _]. by rewrite Hk.
Qed.

Lemma throw_away_loop_seven_bit str s :
  Forall seven_bit str -> buffer_ok s -> units s = Some <$> str ->
  forall fuel (k : nat),
    (length str - k <= fuel)%nat -> (k <= length str)%nat ->
    throw_away_loop fuel (Z.of_nat k) (Z.of_nat k)
      (take k str ++ replicate (S (length str) - k) 0) s
    = Normal (str ++ [0]) s.
Proof.
  intros Hall Hok Hunits.
  assert (len s = Z.of_nat (length str)) as Hlen.
  { rewrite <- (units_length s Hok), Hunits. by rewrite length_fmap. }
  assert (forall k : nat, k = length str ->
            take k str ++ replicate (S (length str) - k) 0 = str ++ [0]) as Hend.
  { intros k ->. rewrite take_ge by lia.
    by replace (S (length str) - length str)%nat with 1%nat by lia. }
  induction fuel as [|fuel IH]; intros k Hfuel Hk; cbn [throw_away_loop];
    unfold bind at 1; unfold get_len at 1; rewrite Hlen.
  - rewrite (proj2 (Z.ltb_ge _ _)) by lia. unfold ret. f_equal. apply Hend. lia.
  - destruct (Z.ltb_spec (Z.of_nat k) (Z.of_nat (length str))) as [Hlt|Hge];
      [|unfold ret; f_equal; apply Hend; lia].
    destruct (lookup_lt_is_Some_2 str k ltac:(lia)) as [b Hb].
    pose proof (proj1 (Forall_lookup _ _) Hall k b Hb) as Hseven.
    unfold seven_bit in Hseven.
    assert (units s !! k = Some (Some b)) as Hunit.
    { rewrite Hunits, list_lookup_fmap, Hb. done. }
    rewrite (bind_Normal _ _ _ _ _ (read_ptr_units s k b Hok Hunit)).
    rewrite (proj2 (Z.ltb_lt b 0x80)) by lia.
    unfold put_char at 1, bind at 1.
    rewrite length_app, length_take, length_replicate.
    rewrite (proj2 (Z.leb_le 0 _)) by lia.
    rewrite (proj2 (Z.ltb_lt (Z.of_nat k) _)) by lia. cbn [andb]. unfold ret at 1.
    replace (Z.of_nat k + 1) with (Z.of_nat (S k)) by lia.
    rewrite <- (IH (S k)) by lia. f_equal.
    rewrite Nat2Z.id.
    assert (to_char b = b) as -> by (unfold to_char; apply Z.mod_small; lia).
    replace (S (length str) - k)%nat with (S (S (length str) - S k)) by lia.
    cbn [replicate].
    rewrite insert_app_r_alt by (rewrite length_take; lia).
    rewrite length_take. replace (k - k `min` length str)%nat with 0%nat by lia.
    cbn [insert list_insert]. rewrite (take_S_r _ _ _ Hb).
    by rewrite <- app_assoc.
Qed.

Lemma strlen_from_no_zero str rest n :
  Forall seven_bit str ->
  strlen_from (str ++ 0 :: rest) n = Some (n + Z.of_nat (length str)).
Proof.
  intros Hall. revert n. induction Hall as [|b str Hb Hall IH]; intros n; cbn.
  - f_equal. lia.
  - unfold seven_bit in Hb. rewrite (proj2 (Z.eqb_neq b 0)) by lia.
    rewrite IH. f_equal. lia.
Qed.

Lemma throw_away_seven_bit str s :
  Forall seven_bit str -> Z.of_nat (length str) < 2 ^ 63 ->
  buffer_ok s -> ptr s <> None -> units s = Some <$> str ->
  throw_away s =
    Normal {| c_str := str ++ [0]; size := Z.of_nat (length str) |} s.
Proof.
  intros Hall Hsize Hok Hptr Hunits.
  assert (len s = Z.of_nat (length str)) as Hlen.
  { rewrite <- (units_length s Hok), Hunits. by rewrite length_fmap. }
  unfold throw_away. destruct (ptr s) as [buf|] eqn:Hbuf; [|done].
  rewrite Hlen, to_size_type_small by lia.
  replace (Z.to_nat (Z.of_nat (length str) + 1)) with (S (length str)) by lia.
  rewrite Nat2Z.id.
  pose proof (throw_away_loop_seven_bit str s Hall Hok Hunits (length str) 0
                ltac:(lia) ltac:(lia)) as Hloop.
  change (Z.of_nat 0) with 0 in Hloop. rewrite take_0, Nat.sub_0_r in Hloop.
  cbn [app] in Hloop. rewrite Hloop.
  unfold throw_away_string_of, strlen.
  rewrite (strlen_from_no_zero str [] 0 Hall). rewrite Z.add_0_l.
  unfold memcpy. rewrite length_app, length_replicate. cbn [length].
  rewrite !(proj2 (Z.leb_le _ _)) by lia. cbn [andb].
  rewrite Nat2Z.id, take_app_length.
  replace (Z.to_nat (Z.of_nat (length str) + 1)) with (length str + 1)%nat by lia.
  rewrite replicate_add, drop_app_length'; [|by rewrite length_replicate].
  done.
Qed.

(** The round trip holds for 7-bit input given with its length. *)
Lemma roundtrip_seven_bit_explicit_length signed str :
  Forall seven_bit str -> Z.of_nat (length str) < 2 ^ 63 -> str <> [] ->
  exists s,
    string_from_chars signed str (Z.of_nat (length str)) = Normal tt s /\
    units s = Some <$> str /\
    throw_away s =
      Normal {| c_str := str ++ [0]; size := Z.of_nat (length str) |} s.
Proof.
  intros Hall Hsize Hne. unfold string_from_chars.
  rewrite (bind_Normal _ _ _ _ _ (detect_encoding_seven_bit str default_members Hall)).
  destruct (convert_to_utf16_ascii_explicit signed str default_members
              default_members_ok Hsize) as (s & Hrun & Hok & Hlen & Hunits).
  assert (char_to_data_type signed <$> str = str) as Hsame.
  { clear -Hall. induction Hall as [|b str Hb Hall IH]; [done|]. cbn. rewrite IH.
    f_equal. unfold char_to_data_type, seven_bit in *.
    rewrite (proj2 (Z.leb_gt 128 b)) by lia. by rewrite andb_false_r. }
  rewrite Hsame in Hunits.
  exists s. split_and!; try done.
  apply throw_away_seven_bit; try done.
  intros Hnull. destruct Hok as (Hle & _ & Hbuf). rewrite Hnull in Hbuf.
  destruct str; [done|]. cbn in Hlen. lia.
Qed.

(** ** The properties of the specification *)

Lemma string_X_built :
  exists s0, string_default = Normal tt s0 /\ append_char 0x58 s0 = Normal tt string_X.
Proof. eexists. split; reflexivity. Qed.

Lemma string_X_ok : buffer_ok string_X.
Proof. unfold buffer_ok. cbn. lia. Qed.

Lemma npos_value : npos = 18446744073709551615.
Proof. reflexivity. Qed.

(** C1, where the code falls short of it. The bytes of U+1F600 decode to
    the pair [0xD83D], [0xDE00], but [throw_away] sizes its output array
    [len + 1], one byte per code unit, and writes the fourth byte outside
    it; and a string of plain ASCII bytes built with the default length
    argument decodes to no unit at all, so it re-encodes to nothing. *)
Theorem C1_roundtrip_failing_inputs (plain_char_signed : bool) :
  (exists s,
     string_from_chars plain_char_signed [0xF0; 0x9F; 0x98; 0x80; 0] (-1) = Normal tt s /\
     len s = 2 /\ units s = [Some 0xD83D; Some 0xDE00] /\
     throw_away s = Undefined) /\
  (exists s,
     string_from_chars plain_char_signed [0xF0; 0x9F; 0x98; 0x80] 4 = Normal tt s /\
     len s = 2 /\ units s = [Some 0xD83D; Some 0xDE00] /\
     throw_away s = Undefined) /\
  (exists s t,
     string_from_chars plain_char_signed [72; 101; 108; 108; 111; 0] (-1) = Normal tt s /\
     len s = 0 /\ throw_away s = Normal t s /\ c_str t = [0] /\ size t = 0).
Proof.
  destruct plain_char_signed.
  all: split; [|split].
  all: try (eexists; split; [vm_compute; reflexivity|];
            split; [reflexivity|]; split; reflexivity).
  all: eexists _, _; split; [vm_compute; reflexivity|];
         split; [reflexivity|]; split; [vm_compute; reflexivity|];
         split; reflexivity.
Qed.

(** C2, where the code falls short of it. The bytes [FF FE 00 00] are
    classified UTF-16LE: the two-byte test comes before the four-byte one,
    and no input at all is classified UTF-32LE. *)
Theorem C2_utf32_le_bom_is_shadowed :
  (forall s, detect_encoding [0xFF; 0xFE; 0x00; 0x00] 4 s = Normal UTF16_LE s) /\
  (forall str len_in s s', detect_encoding str len_in s <> Normal UTF32_LE s').
Proof.
  split; [done|]. intros. apply detect_encoding_never_utf32_le.
Qed.



(** C4, as the code has it: the single byte [0xC3] is shorter than two
    bytes, so the detector answers ASCII and construction throws nothing;
    it is the UTF-8 decoder, run on that byte, that fails with the
    MalformedSequence kind. *)
Theorem C4_single_lead_byte (plain_char_signed : bool) :
  (forall s, detect_encoding [0xC3; 0] (-1) s = Normal ASCII s) /\
  (forall s, detect_encoding [0xC3] 1 s = Normal ASCII s) /\
  (forall e s', string_from_chars plain_char_signed [0xC3; 0] (-1) <> Throw e s') /\
  (forall e s', string_from_chars plain_char_signed [0xC3] 1 <> Throw e s') /\
  (forall s,
     convert_utf8_to_utf16 [0xC3] 1 s =
       Throw (runtime_error "Incomplete UTF-8 sequence") s) /\
  kind_of (runtime_error "Incomplete UTF-8 sequence") = MalformedSequence.
Proof.
  split_and!; done.
Qed.

(** C4 as stated fails: construction from the byte [0xC3] returns a string. *)
Lemma C4_counterexample :
  (exists s, string_from_chars true [0xC3; 0] (-1) = Normal tt s) /\
  (exists s, string_from_chars false [0xC3; 0] (-1) = Normal tt s) /\
  (exists s, string_from_chars true [0xC3] 1 = Normal tt s) /\
  (exists s, string_from_chars false [0xC3] 1 = Normal tt s).
Proof. split_and!; eexists; reflexivity. Qed.

(** C5, where the code falls short of it. With the default length
    argument the ASCII loop, bounded by [len_in = -1], stores nothing:
    [string("Hello")] has no code unit. With an explicit length, a byte
    above [0x7F] is converted from plain [char]: where that type is signed,
    [0x80] becomes the unit [0xFF80]. *)
Theorem C5_ascii_failing_inputs :
  (forall signed s, detect_encoding [72; 101; 108; 108; 111; 0] (-1) s = Normal ASCII s /\
     exists s', string_from_chars signed [72; 101; 108; 108; 111; 0] (-1) = Normal tt s' /\
                len s' = 0 /\ units s' = []) /\
  (forall s, detect_encoding [0x80; 0x41] 2 s = Normal ASCII s) /\
  (exists s', string_from_chars true [0x80; 0x41] 2 = Normal tt s' /\
              units s' = [Some 0xFF80; Some 0x41]) /\
  (exists s', string_from_chars false [0x80; 0x41] 2 = Normal tt s' /\
              units s' = [Some 0x80; Some 0x41]).
Proof.
  split_and!.
  - intros signed s. split; [done|]. destruct signed; eexists; split_and!; reflexivity.
  - done.
  - eexists. split; reflexivity.
  - eexists. split; reflexivity.
Qed.

(** C6, as the code has it: in either byte order, a high surrogate that is
    not immediately followed by a low surrogate makes the decode fail with
    the InvalidSurrogate kind; when every high surrogate is so followed the
    decode stores every unit as it is, low surrogates with no high
    surrogate before them included. *)
Theorem C6_utf16_surrogates (us : list Z) (s : string) :
  Forall unit16 us -> Z.of_nat (length us) < 2 ^ 63 -> buffer_ok s ->
  ((exists (k : nat) (u : Z),
      us !! k = Some u /\ is_high_surrogate u = true /\
      forall l, us !! S k = Some l -> is_low_surrogate l = false) ->
   (exists e s',
      convert_utf16le_to_utf16 (le_bytes us) (2 * Z.of_nat (length us)) s = Throw e s' /\
      kind_of e = InvalidSurrogate) /\
   (exists e s',
      convert_utf16be_to_utf16 (be_bytes us) (2 * Z.of_nat (length us)) s = Throw e s' /\
      kind_of e = InvalidSurrogate)) /\
  (highs_paired us ->
   (exists s',
      convert_utf16le_to_utf16 (le_bytes us) (2 * Z.of_nat (length us)) s = Normal tt s' /\
      units s' = Some <$> us) /\
   (exists s',
      convert_utf16be_to_utf16 (be_bytes us) (2 * Z.of_nat (length us)) s = Normal tt s' /\
      units s' = Some <$> us)).
Proof.
  intros Hall Hsize Hok.
  pose proof (convert_utf16_spec unit_le le_bytes us s unit_le_bytes Hall Hsize Hok) as Hle.
  pose proof (convert_utf16_spec unit_be be_bytes us s unit_be_bytes Hall Hsize Hok) as Hbe.
  fold (convert_utf16le_to_utf16 (le_bytes us) (2 * Z.of_nat (length us))) in Hle.
  fold (convert_utf16be_to_utf16 (be_bytes us) (2 * Z.of_nat (length us))) in Hbe.
  split.
  - intros (k & u & Hk & Hhigh & Hnext).
    assert (~ highs_paired us) as Hbad.
    { intros Hp. destruct (Hp k u Hk Hhigh) as (l & Hl & Hlow).
      rewrite (Hnext l Hl) in Hlow. done. }
    split.
    + destruct (convert_utf16le_to_utf16 _ _ s) as [[] s'|e s'| |]; try done.
      * by destruct Hle.
      * exists e, s'. by destruct Hle.
    + destruct (convert_utf16be_to_utf16 _ _ s) as [[] s'|e s'| |]; try done.
      * by destruct Hbe.
      * exists e, s'. by destruct Hbe.
  - intros Hp. split.
    + destruct (convert_utf16le_to_utf16 _ _ s) as [[] s'|e s'| |]; try done.
      * exists s'. by destruct Hle as (_ & _ & ?).
      * by destruct Hle.
    + destruct (convert_utf16be_to_utf16 _ _ s) as [[] s'|e s'| |]; try done.
      * exists s'. by destruct Hbe as (_ & _ & ?).
      * by destruct Hbe.
Qed.

Lemma C6_utf16_surrogates_witness :
  (exists e s',
     convert_utf16le_to_utf16 (le_bytes [0xD800; 0x41]) 4 default_members = Throw e s' /\
     kind_of e = InvalidSurrogate) /\
  (exists s',
     convert_utf16le_to_utf16 (le_bytes [0x41; 0xDC00]) 4 default_members = Normal tt s' /\
     units s' = [Some 0x41; Some 0xDC00]).
Proof.
  split.
  - assert (Forall unit16 [0xD800; 0x41]) as Hall
      by (repeat constructor; unfold unit16; lia).
    destruct (C6_utf16_surrogates [0xD800; 0x41] default_members Hall
                ltac:(cbn; lia) default_members_ok) as [Hfail _].
    apply Hfail. exists 0%nat, 0xD800. split; [reflexivity|]. split; [reflexivity|].
    intros l Hl. cbn in Hl. injection Hl as <-. reflexivity.
  - assert (Forall unit16 [0x41; 0xDC00]) as Hall
      by (repeat constructor; unfold unit16; lia).
    destruct (C6_utf16_surrogates [0x41; 0xDC00] default_members Hall
                ltac:(cbn; lia) default_members_ok) as [_ Hpass].
    apply Hpass. apply pairs_ok_highs_paired. reflexivity.
Defined.

(** C6 as stated fails: a low surrogate with no high surrogate before it is
    accepted. *)
Lemma C6_counterexample :
  is_low_surrogate 0xDC00 = true /\
  (exists s',
     convert_utf16le_to_utf16 [0x00; 0xDC] 2 default_members = Normal tt s' /\
     units s' = [Some 0xDC00]) /\
  (exists s',
     convert_utf16be_to_utf16 [0xDC; 0x00] 2 default_members = Normal tt s' /\
     units s' = [Some 0xDC00]) /\
  (exists s',
     string_from_chars true [0xFF; 0xFE; 0x00; 0xDC] 4 = Normal tt s' /\
     units s' = [Some 0xFEFF; Some 0xDC00]).
Proof. split_and!; try reflexivity; eexists; split; reflexivity. Qed.

(** C7, as the code has it: the capacity [ensure_capacity] leaves is never
    below the required size; it is the capacity found when that already
    covers the required size, and otherwise the larger of the required size
    and of 8 (from capacity 0) or twice the capacity found (one doubling,
    in 64 bits). *)
Theorem C7_growth_rule (required : Z) (s : string) :
  buffer_ok s -> required < 2 ^ 64 ->
  exists s',
    ensure_capacity required s = Normal tt s' /\
    required <= _str_capacity s' /\
    _str_capacity s <= _str_capacity s' /\
    len s' = len s /\ units s' = units s /\
    _str_capacity s' =
      if _str_capacity s <? required then
        Z.max required
          (if _str_capacity s =? 0 then 8 else (_str_capacity s * 2) mod 2 ^ 64)
      else _str_capacity s.
Proof.
  intros Hok Hreq.
  destruct (ensure_capacity_spec required s Hok Hreq)
    as (s' & Hrun & _ & Hlen & Hunits & Hcap).
  pose proof (grown_capacity_ge (_str_capacity s) required) as [Hge1 Hge2].
  exists s'. rewrite Hcap. split_and!; done.
Qed.

Lemma C7_growth_rule_witness :
  exists s',
    ensure_capacity 100 string_X = Normal tt s' /\
    100 <= _str_capacity s' /\
    _str_capacity string_X <= _str_capacity s' /\
    len s' = len string_X /\ units s' = units string_X /\
    _str_capacity s' = 100.
Proof.
  apply (C7_growth_rule 100 string_X).
  - unfold buffer_ok. cbn. lia.
  - lia.
Defined.

(** C7 as stated fails: from capacity 8, a required size of 100 gives the
    capacity 100, where doubling until the size is reached gives 128. *)
Lemma C7_counterexample :
  exists s',
    _str_capacity string_X = 8 /\
    ensure_capacity 100 string_X = Normal tt s' /\
    _str_capacity s' = 100 /\
    spec_next_capacity 8 100 = 128 /\
    _str_capacity s' <> spec_next_capacity 8 100.
Proof. eexists. split_and!; try reflexivity. vm_compute. done. Qed.

(** C8, where the code falls short of it. The copy of a default
    constructed string has capacity 8 and a null data pointer: the copy
    constructor copies [_str_capacity] and allocates only when [len > 0].
    Appending to that copy then writes through the null pointer. *)
Theorem C8_copy_of_empty_string :
  exists s0 s1,
    string_default = Normal tt s0 /\ invariant s0 /\
    string_copy s0 = Normal tt s1 /\
    len s1 = 0 /\ _str_capacity s1 = 8 /\ ptr s1 = None /\
    ~ invariant s1 /\
    append_char 0x41 s1 = Undefined.
Proof.
  eexists _, _. split_and!; try reflexivity.
  - unfold invariant. cbn. split; [lia|]. split; intros; done.
  - unfold invariant. cbn. intros [_ [_ H]]. specialize (H eq_refl). done.
Qed.

(** [shrink_to_fit] on a string with no unit leaves capacity 0 with the
    array of no element that [new data_type[0]] returns. *)
Lemma shrink_to_fit_empty :
  shrink_to_fit default_members =
    Normal tt {| ptr := Some []; len := 0; _str_capacity := 0 |}.
Proof. reflexivity. Qed.

(** The part of C8 on appended code units: an append of one unit never
    lowers the capacity and leaves [len <= capacity]. *)
Lemma append_char_capacity ch s s' :
  buffer_ok s -> len s + 1 < 2 ^ 64 ->
  append_char ch s = Normal tt s' ->
  _str_capacity s <= _str_capacity s' /\ len s' <= _str_capacity s'.
Proof.
  intros Hok Hbound Hrun.
  destruct (append_char_frame ch s Hok Hbound) as (s2 & Hrun2 & Hok2 & _ & _ & Hcap).
  rewrite Hrun in Hrun2. simplify_eq. destruct Hok2 as (? & _). split; lia.
Qed.

(** C9, where the code falls short of it. [append(const char *str)] goes
    through [convert_to_utf16], which sets [len = 0] and stores from index
    0: appending the bytes of U+00E9 to the string [X] leaves the one unit
    [0xE9], and appending [abc] leaves no unit. *)
Theorem C9_append_chars_restarts (plain_char_signed : bool) :
  len string_X = 1 /\ units string_X = [Some 0x58] /\
  (exists s',
     append_chars plain_char_signed [0xC3; 0xA9; 0] string_X = Normal tt s' /\
     len s' = 1 /\ units s' = [Some 0xE9]) /\
  (exists s',
     append_chars plain_char_signed [0x61; 0x62; 0x63; 0] string_X = Normal tt s' /\
     len s' = 0 /\ units s' = []).
Proof.
  split; [reflexivity|]. split; [reflexivity|].
  destruct plain_char_signed; split; eexists; split_and!; reflexivity.
Qed.

(** C10: [find] with an empty needle returns [pos] when [pos < length()],
    and [npos] when [pos >= length()], [pos == length()] included. *)
Theorem C10_find_empty_needle (str : string) (pos : Z) (s : string) :
  empty str = true ->
  find str pos s = Normal (if pos <? len s then pos else npos) s.
Proof.
  intros Hempty. unfold find. rewrite Hempty.
  destruct (Z.leb_spec (len s) pos), (Z.ltb_spec pos (len s)); first [done|lia].
Qed.

Lemma C10_find_empty_needle_witness :
  empty default_members = true /\
  find default_members 0 string_X = Normal 0 string_X /\
  find default_members 1 string_X = Normal npos string_X.
Proof.
  split; [reflexivity|]. split.
  - apply (C10_find_empty_needle default_members 0 string_X). reflexivity.
  - apply (C10_find_empty_needle default_members 1 string_X). reflexivity.
Defined.

(** ** Further properties: reading and writing the array *)

Lemma holds_len s us : holds s us -> len s = Z.of_nat (length us).
Proof.
  intros [Hok Hunits]. rewrite <- (units_length s Hok), Hunits.
  by rewrite length_fmap.
Qed.

Lemma holds_buffer s us :
  holds s us -> us <> [] ->
  exists buf, ptr s = Some buf /\ Z.of_nat (length buf) = _str_capacity s /\
              take (length us) buf = Some <$> us.
Proof.
  intros Hs Hne. pose proof (holds_len s us Hs) as Hlen.
  destruct Hs as [(Hl & Hcap & Hbuf) Hunits]. unfold units in Hunits.
  destruct (ptr s) as [buf|].
  - exists buf. split_and!; try done. by rewrite Hlen, Nat2Z.id in Hunits.
  - destruct us; [done|]. cbn in Hlen. lia.
Qed.

Lemma read_ptr_at buf l c (k : nat) v :
  buf !! k = Some (Some v) ->
  read_ptr (Z.of_nat k) (mk_string (Some buf) l c) = Normal v (mk_string (Some buf) l c).
Proof.
  intros Hk. unfold read_ptr. cbn [ptr].
  rewrite (proj2 (Z.leb_le 0 _)) by lia. by rewrite Nat2Z.id, Hk.
Qed.

Lemma write_ptr_at buf l c (k : nat) v :
  (k < length buf)%nat ->
  write_ptr (Z.of_nat k) v (mk_string (Some buf) l c)
  = Normal tt (mk_string (Some (<[k := Some v]> buf)) l c).
Proof.
  intros Hk. unfold write_ptr. cbn [ptr len _str_capacity].
  rewrite (proj2 (Z.leb_le 0 _)) by lia.
  rewrite (proj2 (Z.ltb_lt _ _)) by lia. cbn [andb]. by rewrite Nat2Z.id.
Qed.

Lemma holds_read s us (k : nat) u :
  holds s us -> us !! k = Some u -> read_ptr (Z.of_nat k) s = Normal u s.
Proof.
  intros [Hok Hunits] Hk. apply read_ptr_units; [done|].
  by rewrite Hunits, list_lookup_fmap, Hk.
Qed.

Lemma read_other_holds other us (k : nat) u s :
  holds other us -> us !! k = Some u ->
  read_other other (Z.of_nat k) s = Normal u s.
Proof.
  intros Hother Hk. unfold read_other.
  by rewrite (holds_read other us k u Hother Hk).
Qed.

(** ** Further properties: erase *)

Lemma erase_loop_spec (n : nat) l c :
  l < 2 ^ 64 ->
  forall (tail : list Z) (fuel i : nat) buf,
    Z.of_nat (i + n + length tail) = l ->
    (length tail <= fuel)%nat ->
    (i + n + length tail <= length buf)%nat ->
    take (length tail) (drop (i + n) buf) = Some <$> tail ->
    exists buf',
      erase_loop fuel (Z.of_nat n) (Z.of_nat i) (mk_string (Some buf) l c)
      = Normal tt (mk_string (Some buf') l c) /\
      length buf' = length buf /\
      take (i + length tail) buf' = take i buf ++ (Some <$> tail).
Proof.
  intros Hl. induction tail as [|t tail IH]; intros fuel i buf Hlen Hfuel Hbuf Htail.
  - exists buf. split_and!; try done.
    + destruct fuel; cbn [erase_loop]; unfold bind, get_len; cbn [len];
        rewrite to_size_type_small by lia;
        rewrite (proj2 (Z.ltb_ge _ _)) by (cbn in Hlen; lia); done.
    + cbn. by rewrite Nat.add_0_r, app_nil_r.
  - destruct fuel as [|fuel]; [cbn in Hfuel; lia|]. cbn [length] in *.
    cbn [erase_loop]. unfold bind at 1. unfold get_len at 1. cbn [len].
    rewrite to_size_type_small by lia.
    rewrite (proj2 (Z.ltb_lt _ _)) by lia.
    assert (buf !! (i + n)%nat = Some (Some t)) as Hread.
    { apply (f_equal (fun x => x !! 0%nat)) in Htail.
      rewrite lookup_take_lt, lookup_drop in Htail by lia.
      by rewrite Nat.add_0_r in Htail. }
    replace (Z.of_nat i + Z.of_nat n) with (Z.of_nat (i + n)) by lia.
    rewrite (bind_Normal _ _ _ _ _ (read_ptr_at buf l c (i + n) t Hread)).
    rewrite (bind_Normal _ _ _ _ _ (write_ptr_at buf l c i t ltac:(lia))).
    replace (Z.of_nat i + 1) with (Z.of_nat (S i)) by lia.
    destruct (IH fuel (S i) (<[i:=Some t]> buf)) as (buf' & Hrun & Hlen' & Htake).
    + lia.
    + lia.
    + rewrite length_insert. lia.
    + rewrite drop_insert_lt by lia.
      rewrite (drop_S _ _ _ Hread) in Htail. cbn in Htail.
      by injection Htail.
    + exists buf'. rewrite length_insert in Hlen'. split_and!; try done.
      replace (i + S (length tail))%nat with (S i + length tail)%nat by lia.
      rewrite Htake. rewrite (take_S_r _ _ (Some t)).
      * rewrite take_insert_ge by lia. by rewrite <- app_assoc.
      * apply list_lookup_insert_eq. lia.
Qed.

Lemma holds_inv p l c us :
  holds (mk_string p l c) us ->
  l = Z.of_nat (length us) /\ 0 <= l <= c /\ c < 2 ^ 64 /\
  match p with
  | Some buf => Z.of_nat (length buf) = c /\ take (length us) buf = Some <$> us
  | None => c = 0 /\ us = []
  end.
Proof.
  intros Hs. pose proof (holds_len _ _ Hs) as Hlen. cbn in Hlen.
  destruct Hs as [(Hl & Hcap & Hbuf) Hunits]. unfold units in Hunits. cbn in *.
  split_and!; try done; try lia. destruct p as [buf|].
  - split; [done|]. by rewrite Hlen, Nat2Z.id in Hunits.
  - split; [done|]. destruct us; [done|]. cbn in Hlen. lia.
Qed.

Lemma holds_intro buf l c us :
  l = Z.of_nat (length us) -> Z.of_nat (length buf) = c -> l <= c -> c < 2 ^ 64 ->
  take (length us) buf = Some <$> us ->
  holds (mk_string (Some buf) l c) us.
Proof.
  intros -> Hbuf Hle Hcap Htake. split.
  - unfold buffer_ok. cbn. lia.
  - unfold units. cbn. by rewrite Nat2Z.id.
Qed.

Lemma erase_spec (us : list Z) (pos n : Z) (s : string) :
  holds s us ->
  0 <= pos <= Z.of_nat (length us) -> 0 <= n < 2 ^ 64 ->
  n = npos \/ pos + n < 2 ^ 64 ->
  exists s',
    erase pos n s = Normal tt s' /\
    holds s' (take (Z.to_nat pos) us ++ drop (Z.to_nat (pos + n)) us) /\
    _str_capacity s' = _str_capacity s.
Proof.
  intros Hs Hpos Hn Hwrap. destruct s as [p l c].
  destruct (holds_inv _ _ _ _ Hs) as (Hl & Hlc & Hc & Hp).
  unfold erase. unfold bind at 1. unfold get_len at 1. cbn [len].
  rewrite (proj2 (Z.ltb_ge l pos)) by lia.
  set (n' := if (n =? npos) || (l <? to_size_type (pos + n)) then l - pos else n).
  assert (0 <= n' <= l - pos /\
          drop (Z.to_nat (pos + n)) us = drop (Z.to_nat (pos + n')) us) as [Hn' Hdrop].
  { unfold n'. destruct (Z.eqb_spec n npos) as [->|Hne]; cbn [orb].
    - split; [lia|]. rewrite !drop_ge; [done| |]; rewrite ?npos_value; lia.
    - destruct Hwrap as [?|Hwrap]; [done|]. rewrite to_size_type_small by lia.
      destruct (Z.ltb_spec l (pos + n)); [|split; [lia|done]].
      split; [lia|]. rewrite !drop_ge; [done| |]; lia. }
  rewrite Hdrop. clearbody n'. clear Hdrop Hwrap Hn n.
  set (tail := drop (Z.to_nat (pos + n')) us).
  assert (Z.of_nat (length tail) = l - pos - n') as Htail_len.
  { unfold tail. rewrite length_drop. lia. }
  destruct p as [buf|].
  - destruct Hp as [Hbuf Htake].
    destruct (erase_loop_spec (Z.to_nat n') l c ltac:(lia) tail (Z.to_nat l)
                (Z.to_nat pos) buf) as (buf' & Hrun & Hlen' & Htake').
    + lia.
    + lia.
    + lia.
    + unfold tail. rewrite fmap_drop, <- Htake, take_drop_commute, length_drop.
      replace (Z.to_nat (pos + n')) with (Z.to_nat pos + Z.to_nat n')%nat by lia.
      do 2 f_equal. lia.
    + rewrite !Z2Nat.id in Hrun by lia. rewrite (bind_Normal _ _ _ _ _ Hrun).
      unfold set_len. cbn [ptr len _str_capacity].
      rewrite to_size_type_small by lia.
      eexists. split; [reflexivity|]. split; [|done].
      apply holds_intro; try lia.
      * rewrite length_app, length_take. fold tail. lia.
      * rewrite length_app, length_take. fold tail.
        replace (Z.to_nat pos `min` length us + length tail)%nat
          with (Z.to_nat pos + length tail)%nat by lia.
        rewrite Htake'. rewrite fmap_app. f_equal.
        rewrite fmap_take, <- Htake, take_take. f_equal. lia.
  - destruct Hp as [-> ->]. cbn in Hl. subst l.
    assert (pos = 0 /\ n' = 0) as [-> ->] by (cbn in *; lia).
    eexists. split; [vm_compute; reflexivity|]. split; [|done].
    split; [unfold buffer_ok; cbn; lia|done].
Qed.

(** ** Further properties: insert *)

Lemma insert_shift_loop_spec (n pos : nat) l c :
  forall (mid : list Z) (fuel : nat) buf,
    (length mid <= fuel)%nat ->
    (pos + length mid + n <= length buf)%nat ->
    Z.of_nat (pos + length mid + n) < 2 ^ 64 ->
    take (length mid) (drop pos buf) = Some <$> mid ->
    exists buf',
      insert_shift_loop fuel (Z.of_nat n) (Z.of_nat pos) (Z.of_nat (pos + length mid))
        (mk_string (Some buf) l c)
      = Normal tt (mk_string (Some buf') l c) /\
      length buf' = length buf /\
      take pos buf' = take pos buf /\
      take (length mid) (drop (pos + n) buf') = Some <$> mid /\
      drop (pos + length mid + n) buf' = drop (pos + length mid + n) buf.
Proof.
  induction mid as [|x mid IH] using rev_ind; intros fuel buf Hfuel Hbuf Hsize Hmid.
  - exists buf. split_and!; try done.
    destruct fuel; cbn [insert_shift_loop];
      rewrite (proj2 (Z.ltb_ge _ _)) by (cbn; lia); done.
  - rewrite length_app in *. cbn [length] in *.
    destruct fuel as [|fuel]; [lia|]. cbn [insert_shift_loop].
    rewrite (proj2 (Z.ltb_lt _ _)) by lia.
    assert (buf !! (pos + length mid)%nat = Some (Some x)) as Hread.
    { apply (f_equal (fun y => y !! length mid)) in Hmid.
      rewrite lookup_take_lt, lookup_drop in Hmid by lia.
      rewrite Hmid, list_lookup_fmap, lookup_app_r, Nat.sub_diag by lia. done. }
    replace (Z.of_nat (pos + (length mid + 1)) - 1)
      with (Z.of_nat (pos + length mid)) by lia.
    rewrite (bind_Normal _ _ _ _ _ (read_ptr_at buf l c _ x Hread)).
    replace (to_size_type (Z.of_nat (pos + (length mid + 1)) + Z.of_nat n - 1))
      with (Z.of_nat (pos + length mid + n))
      by (rewrite to_size_type_small; lia).
    rewrite (bind_Normal _ _ _ _ _
               (write_ptr_at buf l c (pos + length mid + n) x ltac:(lia))).
    set (buf1 := <[(pos + length mid + n)%nat := Some x]> buf).
    destruct (IH fuel buf1) as (buf' & Hrun & Hlen' & Hpre & Hmid' & Hpost).
    + lia.
    + unfold buf1. rewrite length_insert. lia.
    + lia.
    + unfold buf1. rewrite drop_insert_ge by lia. rewrite take_insert_ge by lia.
      apply (f_equal (take (length mid))) in Hmid.
      rewrite take_take, fmap_app, take_app_length' in Hmid
        by (by rewrite length_fmap).
      rewrite <- Hmid. f_equal. lia.
    + unfold buf1 in *. rewrite length_insert in Hlen'.
      assert (buf' !! (pos + length mid + n)%nat = Some (Some x)) as Hx.
      { rewrite <- (Nat.add_0_r (pos + length mid + n)), <- lookup_drop, Hpost.
        rewrite lookup_drop, Nat.add_0_r. apply list_lookup_insert_eq. lia. }
      exists buf'. split_and!; try done.
      * rewrite Hpre. apply take_insert_ge. lia.
      * replace (length mid + 1)%nat with (S (length mid)) by lia.
        rewrite (take_S_r _ _ (Some x)).
        -- by rewrite Hmid', fmap_app.
        -- rewrite lookup_drop. rewrite <- Hx. f_equal. lia.
      * replace (pos + (length mid + 1) + n)%nat
          with (S (pos + length mid + n)) by lia.
        apply (f_equal (drop 1)) in Hpost. rewrite !drop_drop in Hpost.
        replace (pos + length mid + n + 1)%nat
          with (S (pos + length mid + n)) in Hpost by lia.
        rewrite Hpost. apply drop_insert_lt. lia.
Qed.

Lemma insert_copy_loop_spec (src : Z -> M Z) (new : list Z) (pos : nat) l c :
  (forall (k : nat) u st, new !! k = Some u -> src (Z.of_nat k) st = Normal u st) ->
  Z.of_nat (pos + length new) < 2 ^ 64 ->
  forall (fuel k : nat) buf,
    (k <= length new)%nat -> (length new - k <= fuel)%nat ->
    (pos + length new <= length buf)%nat ->
    exists buf',
      insert_copy_loop fuel src (Z.of_nat pos) (Z.of_nat (length new)) (Z.of_nat k)
        (mk_string (Some buf) l c)
      = Normal tt (mk_string (Some buf') l c) /\
      length buf' = length buf /\
      take (pos + k) buf' = take (pos + k) buf /\
      take (length new - k) (drop (pos + k) buf') = Some <$> drop k new /\
      drop (pos + length new) buf' = drop (pos + length new) buf.
Proof.
  intros Hsrc Hsize. induction fuel as [|fuel IH]; intros k buf Hk Hfuel Hbuf.
  - assert (k = length new) as -> by lia. exists buf.
    cbn [insert_copy_loop]. rewrite Z.ltb_irrefl.
    rewrite Nat.sub_diag, drop_all. split_and!; done.
  - cbn [insert_copy_loop].
    destruct (Z.ltb_spec (Z.of_nat k) (Z.of_nat (length new))) as [Hlt|Hge].
    + destruct (lookup_lt_is_Some_2 new k ltac:(lia)) as [u Hu].
      rewrite (bind_Normal _ _ _ _ _ (Hsrc k u _ Hu)).
      replace (to_size_type (Z.of_nat pos + Z.of_nat k)) with (Z.of_nat (pos + k))
        by (rewrite to_size_type_small; lia).
      rewrite (bind_Normal _ _ _ _ _ (write_ptr_at buf l c (pos + k) u ltac:(lia))).
      replace (Z.of_nat k + 1) with (Z.of_nat (S k)) by lia.
      destruct (IH (S k) (<[(pos + k)%nat := Some u]> buf))
        as (buf' & Hrun & Hlen' & Hpre & Hnew & Hpost).
      * lia.
      * lia.
      * rewrite length_insert. lia.
      * rewrite length_insert in Hlen'.
        replace (pos + S k)%nat with (S (pos + k)) in Hpre, Hnew by lia.
        assert (buf' !! (pos + k)%nat = Some (Some u)) as Hx.
        { apply (f_equal (fun y => y !! (pos + k)%nat)) in Hpre.
          rewrite !lookup_take_lt in Hpre by lia. rewrite Hpre.
          apply list_lookup_insert_eq. lia. }
        exists buf'. split_and!; try done.
        -- apply (f_equal (take (pos + k))) in Hpre.
           rewrite !take_take in Hpre.
           replace ((pos + k) `min` S (pos + k))%nat with (pos + k)%nat in Hpre by lia.
           rewrite Hpre. apply take_insert_ge. lia.
        -- replace (length new - k)%nat with (S (length new - S k)) by lia.
           rewrite (drop_S _ _ _ Hx), (drop_S _ _ _ Hu). cbn. by rewrite Hnew.
        -- rewrite Hpost. apply drop_insert_lt. lia.
    + assert (k = length new) as -> by lia. exists buf.
      rewrite Nat.sub_diag, drop_all. split_and!; done.
Qed.

Lemma insert_with_spec (src : Z -> M Z) (us new : list Z) (pos : Z) (s : string) :
  (forall (k : nat) u st, new !! k = Some u -> src (Z.of_nat k) st = Normal u st) ->
  holds s us ->
  0 <= pos <= Z.of_nat (length us) ->
  Z.of_nat (length us + length new) < 2 ^ 64 ->
  exists s',
    insert_with src pos (Z.of_nat (length new)) s = Normal tt s' /\
    holds s' (take (Z.to_nat pos) us ++ new ++ drop (Z.to_nat pos) us) /\
    _str_capacity s <= _str_capacity s'.
Proof.
  intros Hsrc Hs Hpos Hsize.
  pose proof (holds_len _ _ Hs) as Hlen. destruct Hs as [Hok Hunits].
  unfold insert_with. unfold bind at 1. unfold get_len at 1.
  rewrite (proj2 (Z.ltb_ge _ _)) by lia.
  rewrite to_size_type_small by lia.
  destruct (ensure_capacity_spec (len s + Z.of_nat (length new)) s Hok ltac:(lia))
    as (s1 & Hgrow & Hok1 & Hlen1 & Hunits1 & Hcap1).
  pose proof (grown_capacity_ge (_str_capacity s) (len s + Z.of_nat (length new)))
    as [Hge1 Hge2].
  rewrite (bind_Normal _ _ _ _ _ Hgrow). rewrite <- Hcap1 in Hge1, Hge2.
  clear Hgrow Hcap1. rewrite <- Hlen1 in *. rewrite <- Hunits1 in Hunits.
  clear Hunits1 Hok. destruct s1 as [p l c]. cbn [len _str_capacity] in *.
  destruct (holds_inv _ _ _ _ (conj Hok1 Hunits)) as (_ & Hlc & Hc & Hp).
  assert (exists k : nat, pos = Z.of_nat k) as [k ->]
    by (exists (Z.to_nat pos); lia).
  rewrite !Nat2Z.id.
  destruct p as [buf|].
  - destruct Hp as [Hbuf Htake].
    destruct (insert_shift_loop_spec (length new) k l c (drop k us)
                (Z.to_nat (l - Z.of_nat k)) buf)
      as (buf1 & Hrun1 & Hlen1' & Hpre1 & Hmid1 & _).
    + rewrite length_drop. lia.
    + rewrite length_drop. lia.
    + rewrite length_drop. lia.
    + rewrite fmap_drop, <- Htake, take_drop_commute, length_drop.
      do 2 f_equal. lia.
    + rewrite length_drop in Hrun1, Hmid1.
      replace (Z.of_nat (k + (length us - k))) with l in Hrun1 by lia.
      rewrite (bind_Normal _ _ _ _ _ Hrun1).
      destruct (insert_copy_loop_spec src new k l c Hsrc ltac:(lia)
                  (length new) 0 buf1)
        as (buf2 & Hrun2 & Hlen2 & Hpre2 & Hnew2 & Hpost2); try lia.
      change (Z.of_nat 0) with 0 in Hrun2.
      rewrite (bind_Normal _ _ _ _ _ Hrun2).
      unfold set_len. cbn [ptr len _str_capacity].
      eexists. split; [reflexivity|]. split; [|cbn; lia].
      rewrite Nat.add_0_r in Hpre2, Hnew2. rewrite Nat.sub_0_r, drop_0 in Hnew2.
      assert (length (take k us ++ new ++ drop k us) = (length us + length new)%nat)
        as Hfinal.
      { rewrite !length_app, length_take, length_drop. lia. }
      apply holds_intro; try lia. rewrite Hfinal.
      replace (length us + length new)%nat
        with (k + (length new + (length us - k)))%nat by lia.
      rewrite <- take_take_drop, <- take_take_drop, drop_drop, !fmap_app.
      f_equal; [|f_equal].
      * rewrite Hpre2, Hpre1, fmap_take, <- Htake, take_take. f_equal. lia.
      * done.
      * by rewrite Hpost2.
  - destruct Hp as [-> ->]. cbn in Hlen.
    assert (new = []) as -> by (destruct new; [done|cbn in *; lia]).
    assert (k = 0%nat) as -> by (cbn in *; lia). subst l.
    eexists. split; [vm_compute; reflexivity|]. split; [|done].
    split; [unfold buffer_ok; cbn; lia|done].
Qed.

(** The first loop of [insert] stores at [pos + n] and above only. *)
Lemma insert_shift_loop_low (n pos : nat) l c :
  forall (mid : list Z) (fuel : nat) buf buf',
    (pos + length mid + n <= length buf)%nat ->
    Z.of_nat (pos + length mid + n) < 2 ^ 64 ->
    take (length mid) (drop pos buf) = Some <$> mid ->
    insert_shift_loop fuel (Z.of_nat n) (Z.of_nat pos) (Z.of_nat (pos + length mid))
      (mk_string (Some buf) l c)
    = Normal tt (mk_string (Some buf') l c) ->
    take (pos + n) buf' = take (pos + n) buf.
Proof.
  induction mid as [|x mid IH] using rev_ind; intros fuel buf buf' Hbuf Hsize Hmid Hrun.
  - destruct fuel; cbn [insert_shift_loop] in Hrun;
      rewrite (proj2 (Z.ltb_ge _ _)) in Hrun by (cbn; lia);
      unfold ret in Hrun; by simplify_eq.
  - rewrite length_app in *. cbn [length] in *.
    destruct fuel as [|fuel]; cbn [insert_shift_loop] in Hrun;
      rewrite (proj2 (Z.ltb_lt _ _)) in Hrun by lia; [done|].
    assert (buf !! (pos + length mid)%nat = Some (Some x)) as Hread.
    { apply (f_equal (fun y => y !! length mid)) in Hmid.
      rewrite lookup_take_lt, lookup_drop in Hmid by lia.
      rewrite Hmid, list_lookup_fmap, lookup_app_r, Nat.sub_diag by lia. done. }
    replace (Z.of_nat (pos + (length mid + 1)) - 1)
      with (Z.of_nat (pos + length mid)) in Hrun by lia.
    rewrite (bind_Normal _ _ _ _ _ (read_ptr_at buf l c _ x Hread)) in Hrun.
    replace (to_size_type (Z.of_nat (pos + (length mid + 1)) + Z.of_nat n - 1))
      with (Z.of_nat (pos + length mid + n)) in Hrun
      by (rewrite to_size_type_small; lia).
    rewrite (bind_Normal _ _ _ _ _
               (write_ptr_at buf l c (pos + length mid + n) x ltac:(lia))) in Hrun.
    rewrite (IH fuel (<[(pos + length mid + n)%nat := Some x]> buf) buf'
               ltac:(rewrite length_insert; lia) ltac:(lia)); [| |done].
    + apply take_insert_ge. lia.
    + rewrite drop_insert_ge by lia. rewrite take_insert_ge by lia.
      apply (f_equal (take (length mid))) in Hmid.
      rewrite take_take, fmap_app, take_app_length' in Hmid
        by (by rewrite length_fmap).
      rewrite <- Hmid. f_equal. lia.
Qed.

(** The second loop of [s.insert(pos, s)] with [pos > 0]: the source cell
    [i] lies [pos] places before the cell stored into, so from [i = pos] on
    the loop reads what it has stored itself. *)
Lemma insert_copy_loop_self (pos n : nat) l c :
  (0 < pos)%nat -> Z.of_nat (pos + n) < 2 ^ 64 ->
  forall (d fuel k : nat) buf ws,
    (k + d)%nat = n -> (d <= fuel)%nat -> (pos + n <= length buf)%nat ->
    take (pos + k) buf = Some <$> ws ->
    exists buf' ws',
      insert_copy_loop fuel read_ptr (Z.of_nat pos) (Z.of_nat n) (Z.of_nat k)
        (mk_string (Some buf) l c)
      = Normal tt (mk_string (Some buf') l c) /\
      length buf' = length buf /\
      take (pos + n) buf' = Some <$> ws' /\
      take (pos + k) ws' = ws /\
      (forall j : nat, (pos + k <= j < pos + n)%nat -> ws' !! j = ws' !! (j - pos)%nat) /\
      drop (pos + n) buf' = drop (pos + n) buf.
Proof.
  intros Hpos Hsize.
  induction d as [|d IH]; intros fuel k buf ws Hkd Hfuel Hbuf Htake.
  - assert (k = n) as -> by lia. exists buf, ws.
    assert (length ws = (pos + n)%nat) as Hws.
    { apply (f_equal length) in Htake. rewrite length_fmap, length_take in Htake. lia. }
    split_and!; try done.
    + destruct fuel; cbn [insert_copy_loop]; by rewrite Z.ltb_irrefl.
    + rewrite take_ge; [done|lia].
    + intros j Hj. lia.
  - destruct fuel as [|fuel]; [lia|].
    assert (length ws = (pos + k)%nat) as Hws.
    { apply (f_equal length) in Htake. rewrite length_fmap, length_take in Htake. lia. }
    destruct (lookup_lt_is_Some_2 ws k ltac:(lia)) as [t Ht].
    assert (buf !! k = Some (Some t)) as Hread.
    { rewrite <- (lookup_take_lt buf (pos + k) k) by lia.
      by rewrite Htake, list_lookup_fmap, Ht. }
    cbn [insert_copy_loop]. rewrite (proj2 (Z.ltb_lt _ _)) by lia.
    rewrite (bind_Normal _ _ _ _ _ (read_ptr_at buf l c k t Hread)).
    replace (to_size_type (Z.of_nat pos + Z.of_nat k)) with (Z.of_nat (pos + k))
      by (rewrite to_size_type_small; lia).
    rewrite (bind_Normal _ _ _ _ _ (write_ptr_at buf l c (pos + k) t ltac:(lia))).
    replace (Z.of_nat k + 1) with (Z.of_nat (S k)) by lia.
    destruct (IH fuel (S k) (<[(pos + k)%nat := Some t]> buf) (ws ++ [t]))
      as (buf' & ws' & Hrun & Hlen' & Htake' & Hpre & Hrec & Hpost).
    + lia.
    + lia.
    + rewrite length_insert. lia.
    + replace (pos + S k)%nat with (S (pos + k)) by lia.
      rewrite (take_S_r _ _ (Some t)).
      * rewrite take_insert_ge by lia. by rewrite Htake, fmap_app.
      * apply list_lookup_insert_eq. lia.
    + exists buf', ws'. rewrite length_insert in Hlen'.
      replace (pos + S k)%nat with (S (pos + k)) in Hpre by lia.
      assert (take (pos + k) ws' = ws) as Hpre'.
      { assert (take (pos + k) (take (S (pos + k)) ws') = take (pos + k) ws') as <-
          by (rewrite take_take; f_equal; lia).
        rewrite Hpre, take_app_length'; done. }
      split_and!; try done.
      * intros j Hj. destruct (decide (j = (pos + k)%nat)) as [->|Hne];
          [|apply Hrec; lia].
        rewrite <- (lookup_take_lt ws' (S (pos + k)) (pos + k)) by lia.
        rewrite <- (lookup_take_lt ws' (pos + k) (pos + k - pos)%nat) by lia.
        rewrite Hpre, Hpre'. replace (pos + k - pos)%nat with k by lia. rewrite Ht.
        rewrite lookup_app_r by lia. by rewrite Hws, Nat.sub_diag.
      * rewrite Hpost. apply drop_insert_lt. lia.
Qed.

(** The second loop of [s.insert(0, s)] stores each cell into itself. *)
Lemma insert_copy_loop_self_0 (n : nat) l c buf ws :
  Z.of_nat n < 2 ^ 64 ->
  take n buf = Some <$> ws -> (n <= length buf)%nat ->
  forall (d fuel k : nat),
    (k + d)%nat = n -> (d <= fuel)%nat ->
    insert_copy_loop fuel read_ptr 0 (Z.of_nat n) (Z.of_nat k)
      (mk_string (Some buf) l c)
    = Normal tt (mk_string (Some buf) l c).
Proof.
  intros Hsize Htake Hbuf.
  assert (length ws = n) as Hws.
  { apply (f_equal length) in Htake. rewrite length_fmap, length_take in Htake. lia. }
  induction d as [|d IH]; intros fuel k Hkd Hfuel.
  - assert (k = n) as -> by lia.
    destruct fuel; cbn [insert_copy_loop]; by rewrite Z.ltb_irrefl.
  - destruct fuel as [|fuel]; [lia|].
    destruct (lookup_lt_is_Some_2 ws k ltac:(lia)) as [t Ht].
    assert (buf !! k = Some (Some t)) as Hread.
    { rewrite <- (lookup_take_lt buf n k) by lia.
      by rewrite Htake, list_lookup_fmap, Ht. }
    cbn [insert_copy_loop]. rewrite (proj2 (Z.ltb_lt _ _)) by lia.
    rewrite (bind_Normal _ _ _ _ _ (read_ptr_at buf l c k t Hread)).
    replace (to_size_type (0 + Z.of_nat k)) with (Z.of_nat k)
      by (rewrite to_size_type_small; lia).
    rewrite (bind_Normal _ _ _ _ _ (write_ptr_at buf l c k t ltac:(lia))).
    rewrite (list_insert_id _ _ _ Hread).
    replace (Z.of_nat k + 1) with (Z.of_nat (S k)) by lia.
    apply IH; lia.
Qed.

Lemma insert_self_spec (us : list Z) (pos : Z) (s : string) :
  holds s us ->
  0 <= pos <= Z.of_nat (length us) ->
  Z.of_nat (length us + length us) < 2 ^ 64 ->
  exists s' us',
    insert_self pos s = Normal tt s' /\ holds s' us' /\
    length us' = (length us + length us)%nat /\
    take (Z.to_nat pos) us' = take (Z.to_nat pos) us /\
    drop (Z.to_nat pos + length us) us' = drop (Z.to_nat pos) us /\
    (pos = 0 -> us' = us ++ us) /\
    (0 < pos ->
     forall j : nat, (Z.to_nat pos <= j < Z.to_nat pos + length us)%nat ->
       us' !! j = us' !! (j - Z.to_nat pos)%nat) /\
    _str_capacity s <= _str_capacity s'.
Proof.
  intros Hs Hpos Hsize.
  pose proof (holds_len _ _ Hs) as Hlen. destruct Hs as [Hok Hunits].
  unfold insert_self. unfold bind at 1. unfold get_len at 1.
  unfold insert_with. unfold bind at 1. unfold get_len at 1.
  rewrite (proj2 (Z.ltb_ge _ _)) by lia.
  rewrite to_size_type_small by lia.
  destruct (ensure_capacity_spec (len s + len s) s Hok ltac:(lia))
    as (s1 & Hgrow & Hok1 & Hlen1 & Hunits1 & Hcap1).
  pose proof (grown_capacity_ge (_str_capacity s) (len s + len s))
    as [Hge1 Hge2].
  rewrite (bind_Normal _ _ _ _ _ Hgrow). rewrite <- Hcap1 in Hge1, Hge2.
  clear Hgrow Hcap1. rewrite <- Hlen1 in *. rewrite <- Hunits1 in Hunits.
  clear Hunits1 Hok. destruct s1 as [p l c]. cbn [len _str_capacity] in *.
  destruct (holds_inv _ _ _ _ (conj Hok1 Hunits)) as (_ & Hlc & Hc & Hp).
  assert (exists k : nat, pos = Z.of_nat k) as [k ->]
    by (exists (Z.to_nat pos); lia).
  rewrite !Nat2Z.id. subst l.
  destruct p as [buf|].
  - destruct Hp as [Hbuf Htake].
    assert (take (length (drop k us)) (drop k buf) = Some <$> drop k us) as Hmid.
    { rewrite fmap_drop, <- Htake, take_drop_commute, length_drop.
      do 2 f_equal. lia. }
    destruct (insert_shift_loop_spec (length us) k (Z.of_nat (length us)) c (drop k us)
                (Z.to_nat (Z.of_nat (length us) - Z.of_nat k)) buf)
      as (buf1 & Hrun1 & Hlen1' & Hpre1 & Hmid1 & _);
      [rewrite length_drop; lia|rewrite length_drop; lia|rewrite length_drop; lia|done|].
    pose proof (insert_shift_loop_low (length us) k (Z.of_nat (length us)) c (drop k us)
                  _ buf buf1 ltac:(rewrite length_drop; lia)
                  ltac:(rewrite length_drop; lia) Hmid Hrun1) as Hlow.
    rewrite length_drop in Hrun1, Hmid1.
    replace (Z.of_nat (k + (length us - k))) with (Z.of_nat (length us)) in Hrun1 by lia.
    rewrite (bind_Normal _ _ _ _ _ Hrun1).
    destruct (decide (k = 0%nat)) as [->|Hk].
    + change (Z.of_nat 0) with 0.
      assert (take (length us) buf1 = Some <$> us) as Hus1.
      { cbn in Hlow. by rewrite Hlow. }
      pose proof (insert_copy_loop_self_0 (length us) (Z.of_nat (length us)) c buf1 us
                    ltac:(lia) Hus1 ltac:(lia) (length us) (length us) 0%nat
                    ltac:(lia) ltac:(lia)) as Hrun2.
      change (Z.of_nat 0) with 0 in Hrun2. rewrite Nat2Z.id.
      rewrite (bind_Normal _ _ _ _ _ Hrun2).
      unfold set_len. cbn [ptr len _str_capacity].
      eexists _, (us ++ us). split; [reflexivity|].
      rewrite drop_0 in *. cbn [Nat.add] in *. rewrite Nat.sub_0_r in Hmid1.
      split_and!.
      * apply holds_intro; try lia.
        -- rewrite length_app. lia.
        -- rewrite length_app, <- take_take_drop, fmap_app. by rewrite Hus1, Hmid1.
      * by rewrite length_app.
      * done.
      * by rewrite drop_app_length.
      * done.
      * lia.
      * cbn. lia.
    + destruct (insert_copy_loop_self k (length us) (Z.of_nat (length us)) c
                  ltac:(lia) ltac:(lia) (length us) (length us) 0%nat buf1 (take k us))
        as (buf2 & ws' & Hrun2 & Hlen2 & Htake2 & Hpre2 & Hrec2 & Hpost2); try lia.
      { rewrite Nat.add_0_r, Hpre1, fmap_take, <- Htake, take_take. f_equal. lia. }
      change (Z.of_nat 0) with 0 in Hrun2. rewrite Nat2Z.id.
      rewrite (bind_Normal _ _ _ _ _ Hrun2).
      unfold set_len. cbn [ptr len _str_capacity].
      assert (length ws' = (k + length us)%nat) as Hws'.
      { apply (f_equal length) in Htake2.
        rewrite length_fmap, length_take in Htake2. lia. }
      rewrite Nat.add_0_r in Hpre2.
      eexists _, (ws' ++ drop k us). split; [reflexivity|].
      split_and!.
      * apply holds_intro; try lia.
        -- rewrite length_app, length_drop. lia.
        -- rewrite length_app, length_drop, Hws'.
           replace (k + length us + (length us - k))%nat
             with ((k + length us) + (length us - k))%nat by lia.
           rewrite <- take_take_drop, fmap_app. by rewrite Htake2, Hpost2, Hmid1.
      * rewrite length_app, length_drop. lia.
      * rewrite take_app_le by lia. done.
      * rewrite <- Hws'. by rewrite drop_app_length.
      * lia.
      * intros _ j Hj. rewrite !lookup_app_l by lia. apply Hrec2. lia.
      * cbn. lia.
  - destruct Hp as [-> ->].
    assert (k = 0%nat) as -> by (cbn in *; lia).
    exists (mk_string None 0 0), []. split; [vm_compute; reflexivity|].
    split_and!; done.
Qed.

Lemma char_at_units (new : list Z) (k : nat) u st :
  new !! k = Some u -> char_at new (Z.of_nat k) st = Normal u st.
Proof. apply char_at_lookup. Qed.

Lemma string_X_holds : holds string_X [0x58].
Proof. split; [unfold buffer_ok; cbn; lia|reflexivity]. Qed.

Lemma default_members_holds : holds default_members [].
Proof. split; [apply default_members_ok|reflexivity]. Qed.

Lemma append_char_holds ch us s :
  holds s us -> Z.of_nat (length us) + 1 < 2 ^ 64 ->
  exists s',
    append_char ch s = Normal tt s' /\ holds s' (us ++ [ch]) /\
    _str_capacity s <= _str_capacity s'.
Proof.
  intros Hs Hsize. pose proof (holds_len _ _ Hs) as Hlen. destruct Hs as [Hok Hunits].
  destruct (append_char_frame ch s Hok ltac:(lia))
    as (s' & Hrun & Hok' & Hlen' & Hunits' & Hcap).
  exists s'. split_and!; try done. split; [done|].
  by rewrite Hunits', Hunits, fmap_app.
Qed.

(** X1: [append(data_type ch)] and [push_back(ch)] on a string holding the
    units [us] leave a string holding [us] followed by [ch]; the capacity
    does not decrease. *)
Theorem X1_append_char (ch : Z) (us : list Z) (s : string) :
  holds s us -> Z.of_nat (length us) + 1 < 2 ^ 64 ->
  exists s',
    append_char ch s = Normal tt s' /\
    push_back ch s = Normal tt s' /\
    holds s' (us ++ [ch]) /\
    len s' = len s + 1 /\
    _str_capacity s <= _str_capacity s'.
Proof.
  intros Hs Hsize.
  destruct (append_char_holds ch us s Hs Hsize) as (s' & Hrun & Hs' & Hcap).
  exists s'. split_and!; try done.
  rewrite (holds_len _ _ Hs), (holds_len _ _ Hs'), length_app. cbn. lia.
Qed.

Lemma X1_append_char_witness :
  exists s',
    append_char 0x59 string_X = Normal tt s' /\
    push_back 0x59 string_X = Normal tt s' /\
    holds s' [0x58; 0x59] /\
    len s' = 2 /\
    8 <= _str_capacity s'.
Proof.
  apply (X1_append_char 0x59 [0x58] string_X).
  - apply string_X_holds.
  - cbn. lia.
Defined.

(** X2: [append(const string &other)] on a string holding [us], with an
    [other] holding [vs], leaves a string holding [us] followed by [vs];
    the capacity does not decrease. *)
Theorem X2_append_string (us vs : list Z) (other s : string) :
  holds s us -> holds other vs ->
  Z.of_nat (length us + length vs) < 2 ^ 64 ->
  exists s',
    append_string other s = Normal tt s' /\
    holds s' (us ++ vs) /\
    _str_capacity s <= _str_capacity s'.
Proof.
  intros Hs Hother Hsize.
  pose proof (holds_len _ _ Hs) as Hlen. pose proof (holds_len _ _ Hother) as Hlen'.
  destruct Hs as [Hok Hunits]. destruct Hother as [Hok' Hunits'].
  destruct (append_string_frame other s Hok Hok' ltac:(lia))
    as (s' & Hrun & Hoks & _ & Hu & Hcap).
  exists s'. split_and!; try done. split; [done|].
  by rewrite Hu, Hunits, Hunits', fmap_app.
Qed.

Lemma X2_append_string_witness :
  exists s',
    append_string string_X string_X = Normal tt s' /\
    holds s' [0x58; 0x58] /\
    8 <= _str_capacity s'.
Proof.
  apply (X2_append_string [0x58] [0x58] string_X string_X).
  - apply string_X_holds.
  - apply string_X_holds.
  - cbn. lia.
Defined.

Lemma to_size_type_wrap x : 0 <= x < 2 ^ 64 -> to_size_type (x + 2 ^ 64) = x.
Proof.
  intros Hx. unfold to_size_type.
  replace (x + 2 ^ 64) with (x + 1 * 2 ^ 64) by lia.
  rewrite Z.mod_add by lia. apply Z.mod_small. lia.
Qed.

(** The loop of [erase] when [pos + n] has wrapped around: with
    [m = 2^64 - n], the index [i + n] is [i - m], the loop runs up to
    [len + m] and each round copies the cell [m] places before. *)
Lemma erase_loop_wrap (m : nat) (n l c : Z) :
  n = 2 ^ 64 - Z.of_nat m -> (0 < m)%nat -> 0 <= l -> c < 2 ^ 64 ->
  forall (d fuel i : nat) buf ws,
    Z.of_nat (i + d) = l + Z.of_nat m -> (d <= fuel)%nat -> (m <= i)%nat ->
    Z.of_nat (length buf) = c -> l + Z.of_nat m <= c ->
    take i buf = Some <$> ws ->
    exists buf' ws',
      erase_loop fuel n (Z.of_nat i) (mk_string (Some buf) l c)
      = Normal tt (mk_string (Some buf') l c) /\
      length buf' = length buf /\
      take (i + d) buf' = Some <$> ws' /\
      take i ws' = ws /\
      forall k : nat, (i <= k < i + d)%nat -> ws' !! k = ws' !! (k - m)%nat.
Proof.
  intros -> Hm Hl Hc.
  induction d as [|d IH]; intros fuel i buf ws Hid Hfuel Hmi Hbuf Hfit Htake.
  - exists buf, ws.
    assert (length ws = i) as Hws.
    { apply (f_equal length) in Htake. rewrite length_fmap, length_take in Htake. lia. }
    split_and!; try done.
    + destruct fuel; cbn [erase_loop]; unfold bind, get_len; cbn [len];
        replace (Z.of_nat i + (2 ^ 64 - Z.of_nat m))
          with (Z.of_nat i - Z.of_nat m + 2 ^ 64) by lia;
        rewrite to_size_type_wrap by lia;
        rewrite (proj2 (Z.ltb_ge _ _)) by lia; done.
    + by rewrite Nat.add_0_r.
    + rewrite take_ge; [done|lia].
    + intros k Hk. lia.
  - destruct fuel as [|fuel]; [lia|].
    assert (length ws = i) as Hws.
    { apply (f_equal length) in Htake. rewrite length_fmap, length_take in Htake. lia. }
    destruct (lookup_lt_is_Some_2 ws (i - m)%nat ltac:(lia)) as [t Ht].
    assert (buf !! (i - m)%nat = Some (Some t)) as Hread.
    { rewrite <- (lookup_take_lt buf i (i - m)%nat) by lia.
      by rewrite Htake, list_lookup_fmap, Ht. }
    cbn [erase_loop]. unfold bind at 1. unfold get_len at 1. cbn [len].
    replace (Z.of_nat i + (2 ^ 64 - Z.of_nat m))
      with (Z.of_nat i - Z.of_nat m + 2 ^ 64) by lia.
    rewrite to_size_type_wrap by lia.
    rewrite (proj2 (Z.ltb_lt _ _)) by lia.
    replace (Z.of_nat i - Z.of_nat m) with (Z.of_nat (i - m)) by lia.
    rewrite (bind_Normal _ _ _ _ _ (read_ptr_at buf l c (i - m) t Hread)).
    rewrite (bind_Normal _ _ _ _ _ (write_ptr_at buf l c i t ltac:(lia))).
    replace (Z.of_nat i + 1) with (Z.of_nat (S i)) by lia.
    destruct (IH fuel (S i) (<[i:=Some t]> buf) (ws ++ [t]))
      as (buf' & ws' & Hrun & Hlen' & Htake' & Hpre & Hrec).
    + lia.
    + lia.
    + lia.
    + rewrite length_insert. lia.
    + lia.
    + rewrite (take_S_r _ _ (Some t)).
      * rewrite take_insert_ge by lia. by rewrite Htake, fmap_app.
      * apply list_lookup_insert_eq. lia.
    + exists buf', ws'. rewrite length_insert in Hlen'.
      assert (take i ws' = ws) as Hpre'.
      { assert (take i (take (S i) ws') = take i ws') as <-
          by (rewrite take_take; f_equal; lia).
        rewrite Hpre, take_app_length'; done. }
      split_and!; try done.
      * by replace (i + S d)%nat with (S i + d)%nat by lia.
      * intros k Hk. destruct (decide (k = i)) as [->|Hne]; [|apply Hrec; lia].
        rewrite <- (lookup_take_lt ws' (S i) i) by lia.
        rewrite <- (lookup_take_lt ws' i (i - m)%nat) by lia.
        rewrite Hpre, Hpre', Ht.
        rewrite lookup_app_r by lia. by rewrite Hws, Nat.sub_diag.
Qed.

(** The same loop when the array ends before [len + m]: the store into
    the cell one past the array is reached. *)
Lemma erase_loop_wrap_undefined (m : nat) (n l c : Z) :
  n = 2 ^ 64 - Z.of_nat m -> (0 < m)%nat -> 0 <= l -> c < l + Z.of_nat m ->
  c < 2 ^ 64 ->
  forall (d fuel i : nat) buf ws,
    Z.of_nat (i + d) = c -> (d < fuel)%nat -> (m <= i)%nat ->
    Z.of_nat (length buf) = c ->
    take i buf = Some <$> ws ->
    erase_loop fuel n (Z.of_nat i) (mk_string (Some buf) l c) = Undefined.
Proof.
  intros -> Hm Hl Hc Hc64.
  induction d as [|d IH]; intros fuel i buf ws Hid Hfuel Hmi Hbuf Htake;
    (destruct fuel as [|fuel]; [lia|]);
    assert (length ws = i) as Hws
      by (apply (f_equal length) in Htake;
          rewrite length_fmap, length_take in Htake; lia);
    destruct (lookup_lt_is_Some_2 ws (i - m)%nat ltac:(lia)) as [t Ht];
    assert (buf !! (i - m)%nat = Some (Some t)) as Hread
      by (rewrite <- (lookup_take_lt buf i (i - m)%nat) by lia;
          by rewrite Htake, list_lookup_fmap, Ht);
    cbn [erase_loop]; unfold bind at 1; unfold get_len at 1; cbn [len];
    replace (Z.of_nat i + (2 ^ 64 - Z.of_nat m))
      with (Z.of_nat i - Z.of_nat m + 2 ^ 64) by lia;
    rewrite to_size_type_wrap by lia;
    rewrite (proj2 (Z.ltb_lt _ _)) by lia;
    replace (Z.of_nat i - Z.of_nat m) with (Z.of_nat (i - m)) by lia;
    rewrite (bind_Normal _ _ _ _ _ (read_ptr_at buf l c (i - m) t Hread)).
  - unfold bind, write_ptr. cbn [ptr].
    rewrite (proj2 (Z.ltb_ge _ _)) by lia. by rewrite andb_false_r.
  - rewrite (bind_Normal _ _ _ _ _ (write_ptr_at buf l c i t ltac:(lia))).
    replace (Z.of_nat i + 1) with (Z.of_nat (S i)) by lia.
    apply (IH fuel (S i) (<[i:=Some t]> buf) (ws ++ [t])); try lia.
    + rewrite length_insert. lia.
    + rewrite (take_S_r _ _ (Some t)).
      * rewrite take_insert_ge by lia. by rewrite Htake, fmap_app.
      * apply list_lookup_insert_eq. lia.
Qed.

Lemma erase_wrap_spec (us : list Z) (pos n : Z) (m : nat) (s : string) :
  holds s us ->
  0 <= pos <= Z.of_nat (length us) -> n <> npos ->
  n = 2 ^ 64 - Z.of_nat m -> (0 < m)%nat -> Z.of_nat m <= pos ->
  (Z.of_nat (length us + m) <= _str_capacity s ->
   exists s' us',
     erase pos n s = Normal tt s' /\ holds s' us' /\
     length us' = (length us + m)%nat /\
     take (Z.to_nat pos) us' = take (Z.to_nat pos) us /\
     (forall k : nat, (Z.to_nat pos <= k < length us + m)%nat ->
        us' !! k = us' !! (k - m)%nat) /\
     _str_capacity s' = _str_capacity s) /\
  (_str_capacity s < Z.of_nat (length us + m) -> erase pos n s = Undefined).
Proof.
  intros Hs Hpos Hne Hn Hm Hmp. destruct s as [p l c].
  destruct (holds_inv _ _ _ _ Hs) as (Hl & Hlc & Hc & Hp).
  destruct p as [buf|]; [|destruct Hp as [_ ->]; cbn in Hpos; lia].
  destruct Hp as [Hbuf Htake]. cbn [_str_capacity].
  assert (erase pos n (mk_string (Some buf) l c) =
          (erase_loop (Z.to_nat l) n pos ;; set_len (to_size_type (l - n)))
            (mk_string (Some buf) l c)) as ->.
  { unfold erase. unfold bind at 1. unfold get_len at 1. cbn [len].
    rewrite (proj2 (Z.ltb_ge l pos)) by lia.
    rewrite (proj2 (Z.eqb_neq n npos)) by done. cbn [orb].
    replace (pos + n) with (pos - Z.of_nat m + 2 ^ 64) by lia.
    rewrite to_size_type_wrap by lia.
    by rewrite (proj2 (Z.ltb_ge l (pos - Z.of_nat m))) by lia. }
  assert (take (Z.to_nat pos) buf = Some <$> take (Z.to_nat pos) us) as Hpre.
  { rewrite fmap_take, <- Htake, take_take. f_equal. lia. }
  split.
  - intros Hfit.
    destruct (erase_loop_wrap m n l c Hn Hm ltac:(lia) Hc
                (Z.to_nat (l + Z.of_nat m - pos)) (Z.to_nat l) (Z.to_nat pos) buf
                (take (Z.to_nat pos) us))
      as (buf' & us' & Hrun & Hlen' & Htake' & Hpre' & Hrec); try lia; [done|].
    rewrite Z2Nat.id in Hrun by lia. rewrite (bind_Normal _ _ _ _ _ Hrun).
    unfold set_len. cbn [ptr len _str_capacity].
    replace (l - n) with (l + Z.of_nat m - 2 ^ 64) by lia.
    assert (to_size_type (l + Z.of_nat m - 2 ^ 64) = l + Z.of_nat m) as ->.
    { unfold to_size_type.
      replace (l + Z.of_nat m - 2 ^ 64) with (l + Z.of_nat m + -1 * 2 ^ 64) by lia.
      rewrite Z.mod_add by lia. apply Z.mod_small. lia. }
    replace (Z.to_nat pos + Z.to_nat (l + Z.of_nat m - pos))%nat
      with (length us + m)%nat in * by lia.
    assert (length us' = (length us + m)%nat) as Hlen_us'.
    { apply (f_equal length) in Htake'.
      rewrite length_fmap, length_take in Htake'. lia. }
    exists (mk_string (Some buf') (l + Z.of_nat m) c), us'.
    split_and!; try done.
    apply holds_intro; try lia. by rewrite Hlen_us'.
  - intros Hshort. unfold bind.
    rewrite <- (Z2Nat.id pos) at 1 by lia.
    rewrite (erase_loop_wrap_undefined m n l c Hn Hm ltac:(lia) ltac:(lia) Hc
               (Z.to_nat (c - pos)) (Z.to_nat l) (Z.to_nat pos) buf
               (take (Z.to_nat pos) us)); try done; lia.
Qed.

(** X3: [erase(pos, n)] with [pos > length()] throws [out_of_range] and
    leaves the string as it was.  With [pos <= length()] and [n == npos]
    or [pos + n] within 64 bits it removes the units at
    [pos .. pos + n - 1], as many of them as there are, and keeps the
    capacity.  With [pos <= length()] and a sum [pos + n] that wraps around
    ([n = 2^64 - m] with [n != npos] and [m <= pos]) the clamp of [n] is
    skipped and nothing is removed: the string grows by [m] units, each
    unit from [pos] on being a copy of the one [m] places before it, when
    the capacity has room for [length() + m] units; it has undefined
    behaviour (a store behind the array) when it has not. *)
Theorem X3_erase (us : list Z) (pos n : Z) (s : string) :
  holds s us -> 0 <= pos -> 0 <= n < 2 ^ 64 ->
  (pos <= Z.of_nat (length us) -> n = npos \/ pos + n < 2 ^ 64 ->
   exists s',
     erase pos n s = Normal tt s' /\
     holds s' (take (Z.to_nat pos) us ++ drop (Z.to_nat (pos + n)) us) /\
     _str_capacity s' = _str_capacity s) /\
  (pos <= Z.of_nat (length us) -> n <> npos -> 2 ^ 64 <= pos + n ->
   forall m : nat, Z.of_nat m = 2 ^ 64 - n ->
     (Z.of_nat (length us + m) <= _str_capacity s ->
      exists s' us',
        erase pos n s = Normal tt s' /\ holds s' us' /\
        length us' = (length us + m)%nat /\
        take (Z.to_nat pos) us' = take (Z.to_nat pos) us /\
        (forall k : nat, (Z.to_nat pos <= k < length us + m)%nat ->
           us' !! k = us' !! (k - m)%nat) /\
        _str_capacity s' = _str_capacity s) /\
     (_str_capacity s < Z.of_nat (length us + m) -> erase pos n s = Undefined)) /\
  (Z.of_nat (length us) < pos -> erase pos n s = Throw out_of_range s).
Proof.
  intros Hs Hpos Hn. split_and!.
  - intros Hle Hwrap. by apply erase_spec.
  - intros Hle Hne Hwrap m Hm.
    apply (erase_wrap_spec us pos n m s); try done; lia.
  - intros Hgt. unfold erase, bind, get_len.
    rewrite (holds_len _ _ Hs). by rewrite (proj2 (Z.ltb_lt _ _) Hgt).
Qed.

(** "X" with everything erased, and with [erase(2, 1)]; "abcd" in an
    array of six cells with [erase(2, 2^64 - 2)]: the result is "ababab";
    "ab" in an array of two cells with the same call. *)
Lemma X3_erase_witness :
  (exists s', erase 0 npos string_X = Normal tt s' /\ holds s' []) /\
  erase 2 1 string_X = Throw out_of_range string_X /\
  erase 2 (2 ^ 64 - 2)
    (mk_string (Some [Some 0x61; Some 0x62; Some 0x63; Some 0x64; None; None]) 4 6)
  = Normal tt
      (mk_string (Some [Some 0x61; Some 0x62; Some 0x61; Some 0x62; Some 0x61; Some 0x62])
                 6 6) /\
  (exists s' us',
     erase 2 (2 ^ 64 - 2)
       (mk_string (Some [Some 0x61; Some 0x62; Some 0x63; Some 0x64; None; None]) 4 6)
     = Normal tt s' /\ holds s' us' /\ length us' = 6%nat) /\
  erase 2 (2 ^ 64 - 2) (mk_string (Some [Some 0x61; Some 0x62]) 2 2) = Undefined.
Proof.
  destruct (X3_erase [0x58] 0 npos string_X) as (Hin & _ & _);
    [apply string_X_holds|lia|rewrite npos_value; lia|].
  destruct (X3_erase [0x58] 2 1 string_X) as (_ & _ & Hout);
    [apply string_X_holds|lia|lia|].
  destruct (X3_erase [0x61; 0x62; 0x63; 0x64] 2 (2 ^ 64 - 2)
              (mk_string (Some [Some 0x61; Some 0x62; Some 0x63; Some 0x64; None; None])
                         4 6)) as (_ & Hwrap & _);
    [split; [unfold buffer_ok; cbn; lia|reflexivity]|lia|lia|].
  destruct (X3_erase [0x61; 0x62] 2 (2 ^ 64 - 2)
              (mk_string (Some [Some 0x61; Some 0x62]) 2 2)) as (_ & Hwrap' & _);
    [split; [unfold buffer_ok; cbn; lia|reflexivity]|lia|lia|].
  split_and!.
  - destruct (Hin ltac:(cbn; lia) ltac:(by left)) as (s' & Hrun & Hs' & _).
    by exists s'.
  - apply Hout. cbn. lia.
  - reflexivity.
  - destruct (Hwrap ltac:(cbn; lia) ltac:(rewrite npos_value; lia) ltac:(lia)
                2%nat ltac:(lia)) as [Hfit _].
    destruct (Hfit ltac:(cbn; lia)) as (s' & us' & Hrun & Hs' & Hlen & _).
    by exists s', us'.
  - destruct (Hwrap' ltac:(cbn; lia) ltac:(rewrite npos_value; lia) ltac:(lia)
                2%nat ltac:(lia)) as [_ Hshort].
    apply Hshort. cbn. lia.
Defined.

(** X4: the three overloads of [insert] at [pos <= length()] put the new
    units between the units before [pos] and those from [pos] on, when the
    new units come from memory apart from the string's own: an array, a
    unit to repeat, or a string [str] that is another object.  Called with
    the object itself, [s.insert(pos, s)], the units before [pos] and those
    from [pos] on are kept around [length()] new units as well, but the new
    units are those of the string only for [pos == 0]; for [pos > 0] each
    of them is a copy of the unit [pos] places before it.  The capacity
    does not decrease.  The new length is taken below 2^64.  With
    [pos > length()] every overload throws [out_of_range] and leaves the
    string as it was. *)
Theorem X4_insert (us new : list Z) (pos : Z) (str s : string) (c : Z) :
  holds s us -> 0 <= pos ->
  Z.of_nat (length us + length new) < 2 ^ 64 ->
  (pos <= Z.of_nat (length us) ->
   (exists s',
      insert_units pos new (Z.of_nat (length new)) s = Normal tt s' /\
      holds s' (take (Z.to_nat pos) us ++ new ++ drop (Z.to_nat pos) us) /\
      _str_capacity s <= _str_capacity s') /\
   (holds str new ->
    exists s',
      insert_string pos str s = Normal tt s' /\
      holds s' (take (Z.to_nat pos) us ++ new ++ drop (Z.to_nat pos) us) /\
      _str_capacity s <= _str_capacity s') /\
   (exists s',
      insert_fill pos (Z.of_nat (length new)) c s = Normal tt s' /\
      holds s' (take (Z.to_nat pos) us ++ replicate (length new) c
                ++ drop (Z.to_nat pos) us) /\
      _str_capacity s <= _str_capacity s') /\
   (Z.of_nat (length us + length us) < 2 ^ 64 ->
    exists s' us',
      insert_self pos s = Normal tt s' /\ holds s' us' /\
      length us' = (length us + length us)%nat /\
      take (Z.to_nat pos) us' = take (Z.to_nat pos) us /\
      drop (Z.to_nat pos + length us) us' = drop (Z.to_nat pos) us /\
      (pos = 0 -> us' = us ++ us) /\
      (0 < pos ->
       forall j : nat, (Z.to_nat pos <= j < Z.to_nat pos + length us)%nat ->
         us' !! j = us' !! (j - Z.to_nat pos)%nat) /\
      _str_capacity s <= _str_capacity s')) /\
  (Z.of_nat (length us) < pos ->
   insert_units pos new (Z.of_nat (length new)) s = Throw out_of_range s /\
   insert_string pos str s = Throw out_of_range s /\
   insert_fill pos (Z.of_nat (length new)) c s = Throw out_of_range s /\
   insert_self pos s = Throw out_of_range s).
Proof.
  intros Hs Hpos Hsize. split.
  - intros Hle. split_and!.
    + apply insert_with_spec; try done. intros. by apply char_at_lookup.
    + intros Hstr. unfold insert_string. rewrite (holds_len _ _ Hstr).
      apply insert_with_spec; try done. intros. by eapply read_other_holds.
    + unfold insert_fill.
      replace (Z.of_nat (length new))
        with (Z.of_nat (length (replicate (length new) c)))
        by (by rewrite length_replicate).
      apply insert_with_spec; try done.
      * intros k u st Hk. apply lookup_replicate in Hk as [-> _]. done.
      * by rewrite length_replicate.
    + intros Hself. by apply insert_self_spec.
  - intros Hgt. unfold insert_self, insert_units, insert_string, insert_fill,
      insert_with, bind, get_len.
    rewrite (holds_len _ _ Hs). by rewrite (proj2 (Z.ltb_lt _ _) Hgt).
Qed.

(** "AB" inserted into "X" at 1 and at 2; "ab" inserted into itself at 1:
    the result is "aaab", not "aabb". *)
Lemma X4_insert_witness :
  (exists s',
     insert_units 1 [0x41; 0x42] 2 string_X = Normal tt s' /\
     holds s' [0x58; 0x41; 0x42]) /\
  insert_units 2 [0x41; 0x42] 2 string_X = Throw out_of_range string_X /\
  (exists s' us',
     insert_self 1 (mk_string (Some [Some 0x61; Some 0x62]) 2 2) = Normal tt s' /\
     holds s' us' /\ length us' = 4%nat /\
     us' !! 1%nat = us' !! 0%nat /\ us' !! 2%nat = us' !! 1%nat) /\
  (exists s',
     insert_self 1 (mk_string (Some [Some 0x61; Some 0x62]) 2 2) = Normal tt s' /\
     units s' = [Some 0x61; Some 0x61; Some 0x61; Some 0x62]).
Proof.
  destruct (X4_insert [0x58] [0x41; 0x42] 1 string_X string_X 0) as [Hin _];
    [apply string_X_holds|lia|cbn; lia|].
  destruct (X4_insert [0x58] [0x41; 0x42] 2 string_X string_X 0) as [_ Hout];
    [apply string_X_holds|lia|cbn; lia|].
  destruct (X4_insert [0x61; 0x62] [] 1 string_X
              (mk_string (Some [Some 0x61; Some 0x62]) 2 2) 0) as [Hself _];
    [split; [unfold buffer_ok; cbn; lia|reflexivity]|lia|cbn; lia|].
  split_and!.
  - destruct (Hin ltac:(cbn; lia)) as [(s' & Hrun & Hs' & _) _]. by exists s'.
  - apply Hout. cbn. lia.
  - destruct (Hself ltac:(cbn; lia)) as (_ & _ & _ & Hrun).
    destruct (Hrun ltac:(cbn; lia))
      as (s' & us' & Hrun' & Hs' & Hlen & _ & _ & _ & Hrec & _).
    exists s', us'. split_and!; try done.
    + apply (Hrec ltac:(lia) 1%nat). cbn. lia.
    + apply (Hrec ltac:(lia) 2%nat). cbn. lia.
  - eexists. split; [vm_compute; reflexivity|reflexivity].
Defined.

(** X5: inserting [k] units at a position and then erasing [k] units at
    that position gives back the units the string held. *)
Theorem X5_erase_undoes_insert (us new : list Z) (pos : Z) (s : string) :
  holds s us -> 0 <= pos <= Z.of_nat (length us) ->
  Z.of_nat (length us + length new) < 2 ^ 64 ->
  exists s1 s2,
    insert_units pos new (Z.of_nat (length new)) s = Normal tt s1 /\
    erase pos (Z.of_nat (length new)) s1 = Normal tt s2 /\
    holds s2 us.
Proof.
  intros Hs Hpos Hsize.
  destruct (insert_with_spec (char_at new) us new pos s) as (s1 & Hrun1 & Hs1 & _);
    try done.
  { intros. by apply char_at_lookup. }
  destruct (erase_spec _ pos (Z.of_nat (length new)) s1 Hs1) as (s2 & Hrun2 & Hs2 & _).
  { rewrite !length_app, length_take, length_drop. lia. }
  { lia. }
  { right. lia. }
  exists s1, s2. split_and!; try done.
  replace (take (Z.to_nat pos) (take (Z.to_nat pos) us ++ new ++ drop (Z.to_nat pos) us)
           ++ drop (Z.to_nat (pos + Z.of_nat (length new)))
                (take (Z.to_nat pos) us ++ new ++ drop (Z.to_nat pos) us))
    with us in Hs2; [done|].
  rewrite take_app_length' by (rewrite length_take; lia).
  rewrite app_assoc, drop_app_length'
    by (rewrite length_app, length_take; lia).
  by rewrite take_drop.
Qed.

Lemma X5_erase_undoes_insert_witness :
  exists s1 s2,
    insert_units 1 [0x41; 0x42] 2 string_X = Normal tt s1 /\
    erase 1 2 s1 = Normal tt s2 /\
    holds s2 [0x58].
Proof.
  apply (X5_erase_undoes_insert [0x58] [0x41; 0x42] 1 string_X).
  - apply string_X_holds.
  - cbn. lia.
  - cbn. lia.
Defined.

(** ** Further properties: element access, substr, resize *)

Lemma pop_back_holds us u s :
  holds s (us ++ [u]) ->
  exists s', pop_back s = Normal tt s' /\ holds s' us /\
             _str_capacity s' = _str_capacity s.
Proof.
  intros Hs. destruct s as [p l c].
  destruct (holds_inv _ _ _ _ Hs) as (Hl & Hlc & Hc & Hp).
  rewrite length_app in *. cbn [length] in *.
  unfold pop_back, bind, get_len, set_len. cbn [ptr len _str_capacity].
  rewrite (proj2 (Z.ltb_lt 0 l)) by lia.
  eexists. split; [reflexivity|]. split; [|done].
  destruct p as [buf|]; [|destruct Hp as [_ Hnil]; by destruct us].
  destruct Hp as [Hbuf Htake].
  apply (f_equal (take (length us))) in Htake.
  rewrite take_take, fmap_app, take_app_length' in Htake by (by rewrite length_fmap).
  replace (length us `min` (length us + 1))%nat with (length us) in Htake by lia.
  apply holds_intro; cbn; try lia. done.
Qed.

(** X6: [at(index)] returns the unit at [index] when [index < length()]
    and throws [out_of_range] otherwise, leaving the string as it was; after
    [push_back(ch)], [back()] and [at(length() - 1)] return [ch], and
    [pop_back()] gives back the units held before. *)
Theorem X6_access (us : list Z) (ch : Z) (s : string) :
  holds s us -> Z.of_nat (length us) + 1 < 2 ^ 64 ->
  (forall (k : nat) u, us !! k = Some u -> at_ (Z.of_nat k) s = Normal u s) /\
  (forall index, Z.of_nat (length us) <= index -> at_ index s = Throw out_of_range s) /\
  (exists s1 s2,
     push_back ch s = Normal tt s1 /\
     back s1 = Normal ch s1 /\
     at_ (Z.of_nat (length us)) s1 = Normal ch s1 /\
     pop_back s1 = Normal tt s2 /\
     holds s2 us).
Proof.
  intros Hs Hsize. pose proof (holds_len _ _ Hs) as Hlen. split_and!.
  - intros k u Hk. unfold at_, bind, get_len. rewrite Hlen.
    apply lookup_lt_Some in Hk as Hlt.
    rewrite (proj2 (Z.leb_gt _ _)) by lia. by eapply holds_read.
  - intros index Hge. unfold at_, bind, get_len. rewrite Hlen.
    by rewrite (proj2 (Z.leb_le _ _) Hge).
  - destruct (append_char_holds ch us s Hs Hsize) as (s1 & Hrun & Hs1 & _).
    destruct (pop_back_holds us ch s1 Hs1) as (s2 & Hpop & Hs2 & _).
    pose proof (holds_len _ _ Hs1) as Hlen1. rewrite length_app in Hlen1.
    cbn [length] in Hlen1.
    assert ((us ++ [ch]) !! length us = Some ch) as Hlast.
    { by rewrite lookup_app_r, Nat.sub_diag by lia. }
    exists s1, s2. split_and!; try done.
    + unfold back, bind, get_len. rewrite Hlen1, to_size_type_small by lia.
      replace (Z.of_nat (length us + 1) - 1) with (Z.of_nat (length us)) by lia.
      by eapply holds_read.
    + unfold at_, bind, get_len. rewrite Hlen1.
      rewrite (proj2 (Z.leb_gt _ _)) by lia. by eapply holds_read.
Qed.

Lemma X6_access_witness :
  at_ 0 string_X = Normal 0x58 string_X /\
  at_ 1 string_X = Throw out_of_range string_X /\
  exists s1 s2,
    push_back 0x59 string_X = Normal tt s1 /\
    back s1 = Normal 0x59 s1 /\
    at_ 1 s1 = Normal 0x59 s1 /\
    pop_back s1 = Normal tt s2 /\
    holds s2 [0x58].
Proof.
  destruct (X6_access [0x58] 0x59 string_X) as (Hat & Hout & Hpush);
    [apply string_X_holds|cbn; lia|].
  split; [apply (Hat 0%nat); reflexivity|].
  split; [apply Hout; cbn; lia|]. exact Hpush.
Defined.

Lemma substr_loop_spec (this : string) (us : list Z) (end_ : nat) :
  holds this us -> (end_ <= length us)%nat ->
  forall (fuel i : nat) (acc : list Z) s,
    (i <= end_)%nat -> (end_ - i <= fuel)%nat ->
    holds s acc -> Z.of_nat (length acc + (end_ - i)) + 1 < 2 ^ 64 ->
    exists s',
      substr_loop fuel this (Z.of_nat i) (Z.of_nat end_) s = Normal tt s' /\
      holds s' (acc ++ take (end_ - i) (drop i us)).
Proof.
  intros Hthis Hend. induction fuel as [|fuel IH]; intros i acc s Hi Hfuel Hs Hsize.
  - assert (i = end_) as -> by lia. exists s. cbn [substr_loop].
    rewrite Z.ltb_irrefl, Nat.sub_diag. cbn. by rewrite app_nil_r.
  - cbn [substr_loop].
    destruct (Z.ltb_spec (Z.of_nat i) (Z.of_nat end_)) as [Hlt|Hge].
    + destruct (lookup_lt_is_Some_2 us i ltac:(lia)) as [u Hu].
      rewrite (bind_Normal _ _ _ _ _ (read_other_holds this us i u s Hthis Hu)).
      destruct (append_char_holds u acc s Hs ltac:(lia)) as (s1 & Hrun & Hs1 & _).
      unfold append_char in Hrun. rewrite (bind_Normal _ _ _ _ _ Hrun).
      replace (Z.of_nat i + 1) with (Z.of_nat (S i)) by lia.
      destruct (IH (S i) (acc ++ [u]) s1) as (s' & Hrun' & Hs'); try lia; try done.
      { rewrite length_app. cbn. lia. }
      exists s'. split; [done|].
      replace (end_ - i)%nat with (S (end_ - S i)) by lia.
      rewrite (drop_S _ _ _ Hu). cbn. by rewrite <- app_assoc in Hs'.
    + assert (i = end_) as -> by lia. exists s.
      rewrite Nat.sub_diag. cbn. by rewrite app_nil_r.
Qed.

(** X7: [substr(start, end)] with [start <= end <= length()] returns a
    string holding the units at [start .. end - 1]. *)
Theorem X7_substr (us : list Z) (start end_ : Z) (this : string) :
  holds this us ->
  0 <= start <= end_ -> end_ <= Z.of_nat (length us) ->
  Z.of_nat (length us) + 1 < 2 ^ 64 ->
  exists s',
    substr start end_ this = Normal tt s' /\
    holds s' (take (Z.to_nat (end_ - start)) (drop (Z.to_nat start) us)).
Proof.
  intros Hthis Hstart Hend Hsize. unfold substr.
  destruct string_default as [[] s0| | |] eqn:Hdef; try done.
  assert (holds s0 []) as Hs0.
  { vm_compute in Hdef. injection Hdef as <-.
    split; [unfold buffer_ok; cbn; lia|reflexivity]. }
  unfold reserve. rewrite to_size_type_small by lia.
  destruct Hs0 as [Hok0 Hunits0].
  destruct (ensure_capacity_spec (end_ - start) s0 Hok0 ltac:(lia))
    as (s1 & Hgrow & Hok1 & _ & Hunits1 & _).
  rewrite (bind_Normal _ _ _ _ _ Hgrow).
  destruct (substr_loop_spec this us (Z.to_nat end_) Hthis ltac:(lia)
              (Z.to_nat (end_ - start)) (Z.to_nat start) [] s1)
    as (s' & Hrun & Hs'); try lia.
  { split; [done|]. by rewrite Hunits1. }
  { cbn. lia. }
  rewrite !Z2Nat.id in Hrun by lia. exists s'. split; [done|].
  cbn [app] in Hs'. by replace (Z.to_nat (end_ - start))
    with (Z.to_nat end_ - Z.to_nat start)%nat by lia.
Qed.

Lemma X7_substr_witness :
  exists s', substr 0 1 string_X = Normal tt s' /\ holds s' [0x58].
Proof.
  apply (X7_substr [0x58] 0 1 string_X).
  - apply string_X_holds.
  - lia.
  - cbn. lia.
  - cbn. lia.
Defined.

Lemma resize_fill_loop_spec (n : nat) (ch : Z) :
  Z.of_nat n + 1 < 2 ^ 64 ->
  forall (fuel : nat) (acc : list Z) s,
    (length acc <= n)%nat -> (n - length acc <= fuel)%nat ->
    holds s acc ->
    exists s',
      resize_fill_loop fuel (Z.of_nat n) ch s = Normal tt s' /\
      holds s' (acc ++ replicate (n - length acc) ch) /\
      _str_capacity s <= _str_capacity s'.
Proof.
  intros Hsize. induction fuel as [|fuel IH]; intros acc s Hacc Hfuel Hs;
    cbn [resize_fill_loop]; unfold bind at 1; unfold get_len at 1;
    rewrite (holds_len _ _ Hs).
  - assert (length acc = n) as Heq by lia. rewrite Heq, Z.ltb_irrefl.
    exists s. rewrite Nat.sub_diag. cbn. by rewrite app_nil_r.
  - destruct (Z.ltb_spec (Z.of_nat (length acc)) (Z.of_nat n)) as [Hlt|Hge].
    + destruct (append_char_holds ch acc s Hs ltac:(lia)) as (s1 & Hrun & Hs1 & Hcap1).
      unfold append_char in Hrun. rewrite (bind_Normal _ _ _ _ _ Hrun).
      destruct (IH (acc ++ [ch]) s1) as (s' & Hrun' & Hs' & Hcap'); try done.
      { rewrite length_app. cbn. lia. }
      { rewrite length_app. cbn. lia. }
      exists s'. split; [done|]. split; [|lia].
      rewrite length_app in Hs'. cbn [length] in Hs'.
      replace (n - length acc)%nat with (S (n - (length acc + 1))) by lia.
      cbn. by rewrite <- app_assoc in Hs'.
    + assert (length acc = n) as Heq by lia. rewrite Heq.
      exists s. rewrite Nat.sub_diag. cbn. by rewrite app_nil_r.
Qed.

(** X8: [resize(n, ch)] leaves exactly [n] units: the first [n] units the
    string held, followed by copies of [ch] when it held fewer; the
    capacity does not decrease. *)
Theorem X8_resize_fill (us : list Z) (n ch : Z) (s : string) :
  holds s us -> 0 <= n -> n + 1 < 2 ^ 64 ->
  exists s',
    resize_fill n ch s = Normal tt s' /\
    holds s' (take (Z.to_nat n) us ++ replicate (Z.to_nat n - length us) ch) /\
    len s' = n /\
    _str_capacity s <= _str_capacity s'.
Proof.
  intros Hs Hn Hsize. pose proof (holds_len _ _ Hs) as Hlen.
  assert (forall s', holds s' (take (Z.to_nat n) us
                               ++ replicate (Z.to_nat n - length us) ch) ->
                     len s' = n) as Hlen'.
  { intros s' Hs'. rewrite (holds_len _ _ Hs'), length_app, length_take,
      length_replicate. lia. }
  unfold resize_fill. unfold bind at 1. unfold get_len at 1.
  destruct (Z.ltb_spec (len s) n) as [Hlt|Hge].
  - destruct Hs as [Hok Hunits]. unfold reserve.
    destruct (ensure_capacity_spec n s Hok ltac:(lia))
      as (s1 & Hgrow & Hok1 & Hlen1 & Hunits1 & Hcap1).
    pose proof (grown_capacity_ge (_str_capacity s) n) as [_ Hge].
    rewrite (bind_Normal _ _ _ _ _ Hgrow).
    destruct (resize_fill_loop_spec (Z.to_nat n) ch ltac:(lia)
                (Z.to_nat (n - len s)) us s1) as (s' & Hrun & Hs' & Hcap'); try lia.
    { split; [done|]. by rewrite Hunits1. }
    rewrite Z2Nat.id in Hrun by lia. rewrite take_ge by lia.
    exists s'. split_and!; try done; [|lia].
    apply Hlen'. by rewrite take_ge by lia.
  - unfold resize. destruct s as [p l c].
    destruct (holds_inv _ _ _ _ Hs) as (Hl & Hlc & Hc & Hp). cbn [len] in *.
    unfold bind, ensure_capacity, set_len. cbn [ptr len _str_capacity].
    rewrite (proj2 (Z.ltb_ge c n)) by lia.
    replace (Z.to_nat n - length us)%nat with 0%nat by lia.
    cbn [replicate]. rewrite app_nil_r.
    eexists. split; [reflexivity|]. cbn [len _str_capacity].
    split_and!; try done; try lia.
    destruct p as [buf|].
    + destruct Hp as [Hbuf Htake]. apply holds_intro; try lia.
      * rewrite length_take. lia.
      * rewrite length_take, fmap_take, <- Htake, take_take. f_equal; lia.
    + destruct Hp as [-> ->]. cbn in Hl. subst l.
      assert (n = 0) as -> by lia.
      split; [unfold buffer_ok; cbn; lia|done].
Qed.

Lemma X8_resize_fill_witness :
  exists s',
    resize_fill 3 0x2D string_X = Normal tt s' /\
    holds s' [0x58; 0x2D; 0x2D] /\
    len s' = 3 /\
    8 <= _str_capacity s'.
Proof.
  apply (X8_resize_fill [0x58] 3 0x2D string_X).
  - apply string_X_holds.
  - lia.
  - lia.
Defined.

(** ** Further properties: construction from code units, copies *)

Lemma strlen_from_nonzero (us rest : list Z) n :
  Forall (fun u => u <> 0) us ->
  strlen_from (us ++ 0 :: rest) n = Some (n + Z.of_nat (length us)).
Proof.
  intros Hall. revert n. induction Hall as [|u us Hu Hall IH]; intros n; cbn.
  - f_equal. lia.
  - rewrite (proj2 (Z.eqb_neq u 0)) by done. rewrite IH. f_equal. lia.
Qed.

Lemma string_from_units_run (str : list Z) (n : nat) :
  (n <= length str)%nat -> Z.of_nat n < 2 ^ 64 ->
  exists s',
    (set_len (Z.of_nat n) ;; ensure_capacity (Z.of_nat n) ;;
     memcpy_to_ptr str (Z.of_nat n)) default_members = Normal tt s' /\
    holds s' (take n str).
Proof.
  intros Hn Hsize.
  unfold bind, set_len, ensure_capacity, memcpy_to_ptr, default_members.
  cbn [ptr len _str_capacity].
  destruct (Z.ltb_spec 0 (Z.of_nat n)) as [Hpos|Hzero].
  - cbn [Z.eqb]. set (cap := if 8 <? Z.of_nat n then Z.of_nat n else 8).
    assert (Z.of_nat n <= cap < 2 ^ 64) as Hcap by (unfold cap; case_match; lia).
    cbn [ptr len _str_capacity]. unfold memcpy.
    rewrite length_fmap, length_new_array by lia.
    rewrite !(proj2 (Z.leb_le _ _)) by lia. cbn [andb].
    eexists. split; [reflexivity|].
    apply holds_intro.
    + rewrite length_take. lia.
    + rewrite length_app, length_take, length_drop, length_fmap.
      unfold new_array. rewrite length_replicate. lia.
    + lia.
    + lia.
    + rewrite Nat2Z.id, length_take.
      rewrite take_app_le by (rewrite length_take, length_fmap; lia).
      rewrite take_take, fmap_take. f_equal. lia.
  - assert (n = 0%nat) as -> by lia.
    eexists. split; [reflexivity|]. split; [unfold buffer_ok; cbn; lia|done].
Qed.

(** X9: [string(const_type str, n)] holds the first [n] units of [str],
    and [string(const_type str)] the units of [str] before its first zero
    unit. *)
Theorem X9_string_from_units (us rest : list Z) :
  Z.of_nat (length us) < 2 ^ 63 ->
  (exists s',
     string_from_units (us ++ rest) (Z.of_nat (length us)) = Normal tt s' /\
     holds s' us) /\
  (Forall (fun u => u <> 0) us ->
   exists s',
     string_from_units (us ++ 0 :: rest) (-1) = Normal tt s' /\
     holds s' us).
Proof.
  intros Hsize. split.
  - unfold string_from_units.
    rewrite (proj2 (Z.eqb_neq _ (-1))) by lia.
    unfold bind at 1. unfold ret at 1. rewrite to_size_type_small by lia.
    destruct (string_from_units_run (us ++ rest) (length us)) as (s' & Hrun & Hs').
    { rewrite length_app. lia. }
    { lia. }
    rewrite take_app_length in Hs'. by exists s'.
  - intros Hall. unfold string_from_units. cbn [Z.eqb].
    unfold bind at 1. unfold strlen_m, strlen.
    rewrite (strlen_from_nonzero us rest 0 Hall), Z.add_0_l.
    destruct (string_from_units_run (us ++ 0 :: rest) (length us)) as (s' & Hrun & Hs').
    { rewrite length_app. lia. }
    { lia. }
    rewrite take_app_length in Hs'. by exists s'.
Qed.

Lemma X9_string_from_units_witness :
  (exists s', string_from_units [0x41; 0x42; 0x43] 2 = Normal tt s' /\
              holds s' [0x41; 0x42]) /\
  (exists s', string_from_units [0x41; 0x42; 0; 0x43] (-1) = Normal tt s' /\
              holds s' [0x41; 0x42]).
Proof.
  destruct (X9_string_from_units [0x41; 0x42] [0x43]) as [Hexplicit _];
    [cbn; lia|].
  destruct (X9_string_from_units [0x41; 0x42] [0x43]) as [_ Hsentinel];
    [cbn; lia|].
  split; [exact Hexplicit|]. apply Hsentinel.
  repeat constructor; lia.
Defined.

Lemma copies_hold (us : list Z) (other s : string) :
  holds other us ->
  (exists s',
     assign other s = Normal tt s' /\ holds s' us /\
     ptr s' <> None /\ _str_capacity s' = _str_capacity other) /\
  (us <> [] ->
   exists s',
     string_copy other = Normal tt s' /\ holds s' us /\
     _str_capacity s' = _str_capacity other).
Proof.
  intros Hother. destruct other as [p l c].
  destruct (holds_inv _ _ _ _ Hother) as (Hl & Hlc & Hc & Hp).
  assert (forall buf,
    Z.of_nat (length buf) = c -> take (length us) buf = Some <$> us ->
    exists buf',
      memcpy (new_array c) buf l = Some buf' /\
      holds (mk_string (Some buf') l c) us) as Hcopy.
  { intros buf Hbuf Htake. unfold memcpy.
    rewrite length_new_array by lia.
    rewrite !(proj2 (Z.leb_le _ _)) by lia. cbn [andb].
    eexists. split; [reflexivity|]. apply holds_intro; try lia.
    - rewrite length_app, length_take, length_drop.
      unfold new_array. rewrite length_replicate. lia.
    - rewrite take_app_le by (rewrite length_take; lia).
      rewrite take_take, <- Htake. f_equal. lia. }
  split.
  - unfold assign. cbn [ptr len _str_capacity]. destruct p as [buf|].
    + destruct Hp as [Hbuf Htake].
      destruct (Hcopy buf Hbuf Htake) as (buf' & -> & Hs').
      eexists. split_and!; try done.
    + destruct Hp as [-> ->]. cbn in Hl. subst l.
      eexists. split_and!; try done.
  - intros Hne. unfold string_copy. cbn [ptr len _str_capacity].
    assert (0 < l) as Hpos by (destruct us; [done|cbn in Hl; lia]).
    rewrite (proj2 (Z.ltb_lt 0 l) Hpos).
    destruct p as [buf|]; [|by destruct Hp].
    destruct Hp as [Hbuf Htake].
    destruct (Hcopy buf Hbuf Htake) as (buf' & -> & Hs').
    eexists. split_and!; done.
Qed.



(** ** Further properties: searching *)

Lemma find_compare_spec (us ns : list Z) (str s : string) (i : nat) :
  holds s us -> holds str ns -> (i + length ns <= length us)%nat ->
  forall (fuel j : nat),
    (j <= length ns)%nat -> (length ns - j <= fuel)%nat ->
    exists b,
      find_compare fuel str (Z.of_nat i) (Z.of_nat j) s = Normal b s /\
      (b = true <-> take (length ns - j) (drop (i + j) us) = drop j ns).
Proof.
  intros Hs Hstr Hfit. pose proof (holds_len _ _ Hstr) as Hlen.
  induction fuel as [|fuel IH]; intros j Hj Hfuel; cbn [find_compare]; rewrite Hlen.
  - assert (j = length ns) as -> by lia. rewrite Z.ltb_irrefl.
    exists true. split; [done|]. by rewrite Nat.sub_diag, drop_all.
  - destruct (Z.ltb_spec (Z.of_nat j) (Z.of_nat (length ns))) as [Hlt|Hge].
    + destruct (lookup_lt_is_Some_2 us (i + j) ltac:(lia)) as [a Ha].
      destruct (lookup_lt_is_Some_2 ns j ltac:(lia)) as [b Hb].
      replace (Z.of_nat i + Z.of_nat j) with (Z.of_nat (i + j)) by lia.
      rewrite (bind_Normal _ _ _ _ _ (holds_read s us _ a Hs Ha)).
      rewrite (holds_read str ns _ b Hstr Hb).
      replace (length ns - j)%nat with (S (length ns - S j)) by lia.
      rewrite (drop_S _ _ _ Ha), (drop_S _ _ _ Hb). cbn [take].
      destruct (Z.eqb_spec a b) as [->|Hne]; cbn [negb].
      * replace (Z.of_nat j + 1) with (Z.of_nat (S j)) by lia.
        destruct (IH (S j)) as (r & Hrun & Hr); try lia.
        exists r. split; [done|]. rewrite Hr.
        replace (i + S j)%nat with (S (i + j)) by lia.
        split; [by intros ->|by intros [=]].
      * exists false. split; [done|]. split; [done|]. intros [=]. done.
    + assert (j = length ns) as -> by lia.
      exists true. split; [done|]. by rewrite Nat.sub_diag, drop_all.
Qed.

Lemma occurs_at_fits us ns k :
  ns <> [] -> occurs_at us ns k -> (k + length ns <= length us)%nat.
Proof.
  unfold occurs_at. intros Hne Hocc.
  apply (f_equal length) in Hocc. rewrite length_take, length_drop in Hocc.
  assert (0 < length ns)%nat by (destruct ns; [done|cbn; lia]). lia.
Qed.

Lemma find_loop_spec (us ns : list Z) (str s : string) :
  holds s us -> holds str ns -> ns <> [] -> (length ns <= length us)%nat ->
  Z.of_nat (length us) + 1 < 2 ^ 64 ->
  forall (fuel i : nat),
    (length us + 1 - (i + length ns) <= fuel)%nat ->
    exists r,
      find_loop fuel str (Z.of_nat i) s = Normal r s /\
      first_from (occurs_at us ns) (Z.of_nat i) r.
Proof.
  intros Hs Hstr Hne Hfit Hsize.
  pose proof (holds_len _ _ Hs) as Hlen. pose proof (holds_len _ _ Hstr) as Hlen'.
  assert (forall i : nat, (length us < i + length ns)%nat ->
            first_from (occurs_at us ns) (Z.of_nat i) npos) as Hnone.
  { intros i Hi. left. split; [done|]. intros k Hk Hocc.
    apply occurs_at_fits in Hocc; [lia|done]. }
  induction fuel as [|fuel IH]; intros i Hfuel; cbn [find_loop];
    unfold bind at 1; unfold get_len at 1; rewrite Hlen, Hlen';
    rewrite to_size_type_small by lia.
  - rewrite (proj2 (Z.leb_gt _ _)) by lia. exists npos. split; [done|].
    apply Hnone. lia.
  - destruct (Z.leb_spec (Z.of_nat i) (Z.of_nat (length us) - Z.of_nat (length ns)))
      as [Hle|Hgt].
    + destruct (find_compare_spec us ns str s i Hs Hstr ltac:(lia)
                  (Z.to_nat (Z.of_nat (length ns))) 0) as (b & Hrun & Hb); try lia.
      change (Z.of_nat 0) with 0 in Hrun. rewrite (bind_Normal _ _ _ _ _ Hrun).
      rewrite Nat.sub_0_r, Nat.add_0_r, drop_0 in Hb.
      destruct b.
      * exists (Z.of_nat i). split; [done|]. right. exists i.
        split_and!; try done; try lia. by apply Hb.
      * rewrite to_size_type_small by lia.
        replace (Z.of_nat i + 1) with (Z.of_nat (S i)) by lia.
        destruct (IH (S i)) as (r & Hrun' & Hr); try lia.
        exists r. split; [done|].
        assert (~ occurs_at us ns i) as Hno.
        { intros Hocc. apply Hb in Hocc. done. }
        destruct Hr as [[-> Hall]|(k & -> & Hk & Hocc & Hfirst)].
        -- left. split; [done|]. intros k Hk.
           destruct (decide (k = i)) as [->|]; [done|]. apply Hall. lia.
        -- right. exists k. split_and!; try done; try lia.
           intros k' Hk' Hlt. destruct (decide (k' = i)) as [->|]; [done|].
           apply Hfirst; lia.
    + exists npos. split; [done|]. apply Hnone. lia.
Qed.

(** X11: [find(str, pos)], for a needle no longer than the string, returns
    the first index from [pos] on where the units of the needle occur, and
    [npos] when they occur at none. *)
Theorem X11_find (us ns : list Z) (str s : string) (pos : Z) :
  holds s us -> holds str ns -> ns <> [] -> (length ns <= length us)%nat ->
  Z.of_nat (length us) + 1 < 2 ^ 64 -> 0 <= pos ->
  exists r,
    find str pos s = Normal r s /\
    first_from (occurs_at us ns) pos r.
Proof.
  intros Hs Hstr Hne Hfit Hsize Hpos.
  pose proof (holds_len _ _ Hs) as Hlen. pose proof (holds_len _ _ Hstr) as Hlen'.
  unfold find, empty. rewrite Hlen, Hlen'.
  destruct (Z.leb_spec (Z.of_nat (length us)) pos) as [Hout|Hin].
  - exists npos. split; [done|]. left. split; [done|]. intros k Hk Hocc.
    apply occurs_at_fits in Hocc; [|done].
    assert (0 < length ns)%nat by (destruct ns; [done|cbn; lia]). lia.
  - rewrite (proj2 (Z.eqb_neq _ 0)) by (destruct ns; [done|cbn; lia]).
    destruct s as [p l c].
    destruct (holds_inv _ _ _ _ Hs) as (Hl & Hlc & Hc & Hp). cbn [ptr].
    destruct p as [buf|]; [|destruct Hp as [_ ->]; cbn in *; lia].
    destruct Hp as [Hbuf _].
    destruct (find_loop_spec us ns str _ Hs Hstr Hne Hfit Hsize
                (S (length buf)) (Z.to_nat pos)) as (r & Hrun & Hr).
    + lia.
    + rewrite Z2Nat.id in Hrun, Hr by lia. by exists r.
Qed.

Lemma X11_find_witness :
  exists r,
    find string_X 0 string_X = Normal r string_X /\
    first_from (occurs_at [0x58] [0x58]) 0 r.
Proof.
  apply (X11_find [0x58] [0x58] string_X string_X 0);
    [apply string_X_holds|apply string_X_holds|done|cbn; lia|cbn; lia|lia].
Defined.

Lemma find_compare_no_throw fuel str i :
  forall j s e s', find_compare fuel str i j s <> Throw e s'.
Proof.
  induction fuel as [|fuel IH]; intros j s e s'; cbn [find_compare];
    unfold bind, read_ptr, ret, undefined, out_of_fuel.
  - by destruct (j <? len str).
  - destruct (j <? len str); [|done].
    repeat (case_match; simplify_eq; try done); apply IH.
Qed.

Lemma read_ptr_state i s u s' : read_ptr i s = Normal u s' -> s' = s.
Proof.
  unfold read_ptr. intros H. repeat (case_match; simplify_eq); done.
Qed.

(** When the inner loop of [find] answers [found], every unit of the needle
    from [j] on has been read equal to the cell it was compared with. *)
Lemma find_compare_true fuel str i :
  forall j s s',
    find_compare fuel str i j s = Normal true s' ->
    forall k, j <= k < len str ->
      exists u, read_ptr (i + k) s = Normal u s /\ read_ptr k str = Normal u str.
Proof.
  induction fuel as [|fuel IH]; intros j s s' Hrun k Hk; cbn [find_compare] in Hrun.
  - destruct (Z.ltb_spec j (len str)); [done|lia].
  - destruct (Z.ltb_spec j (len str)) as [Hlt|Hge]; [|lia].
    unfold bind in Hrun.
    destruct (read_ptr (i + j) s) as [a s1| | |] eqn:Ha; try done.
    pose proof (read_ptr_state _ _ _ _ Ha) as ->.
    destruct (read_ptr j str) as [b s2| | |] eqn:Hb; try done.
    pose proof (read_ptr_state _ _ _ _ Hb) as ->.
    destruct (Z.eqb_spec a b) as [->|Hne]; cbn [negb] in Hrun; [|done].
    destruct (decide (k = j)) as [->|Hkj]; [by exists b|].
    apply (IH (j + 1) s s' Hrun). lia.
Qed.

Lemma find_loop_long_needle str s buf :
  ptr s = Some buf -> 0 < len str ->
  Z.of_nat (length buf) <= to_size_type (len s - len str) ->
  forall (fuel : nat) i,
    0 <= i <= Z.of_nat (length buf) ->
    Z.of_nat (length buf) - i < Z.of_nat fuel ->
    find_loop fuel str i s = Undefined \/
    exists r,
      find_loop fuel str i s = Normal r s /\ i <= r < Z.of_nat (length buf) /\
      forall k, 0 <= k < len str ->
        exists u, read_ptr (r + k) s = Normal u s /\ read_ptr k str = Normal u str.
Proof.
  intros Hptr Hlen Hbound.
  pose proof (to_size_type_range (len s - len str)) as Hrange.
  induction fuel as [|fuel IH]; intros i Hi Hfuel; [lia|].
  cbn [find_loop]. unfold bind, get_len. cbn beta iota.
  rewrite (proj2 (Z.leb_le _ _)) by lia.
  pose proof (find_compare_terminates (Z.to_nat (len str)) str i 0 s ltac:(lia)) as Hterm.
  pose proof (find_compare_no_throw (Z.to_nat (len str)) str i 0 s) as Hthrow.
  destruct (find_compare _ str i 0 s) as [found s1|e s1| |] eqn:Hrun;
    [|by destruct (Hthrow e s1)|by left|done].
  pose proof (find_compare_state _ _ _ _ _ _ _ Hrun) as ->.
  pose proof (find_compare_in_range _ _ _ _ _ _ _ Hptr Hlen Hrun) as Hin.
  destruct found.
  - right. exists i. split; [done|]. split; [lia|].
    exact (find_compare_true _ _ _ _ _ _ Hrun).
  - rewrite to_size_type_small by lia.
    destruct (IH (i + 1)) as [Hu|(r & Hr & Hri & Hmatch)]; try lia; [by left|].
    right. exists r. split; [done|]. split; [lia|done].
Qed.

(** X12: [find(str, pos)] with a needle longer than the string never
    answers [npos]: the bound [len - str.len] of its loop wraps around, so
    the search goes on into the cells behind the units in use.  It either
    has undefined behaviour (a cell outside the array, or one never
    written, is read), or it returns an index [r] in the array at which
    every unit of the needle equals the cell it was compared with,
    [ptr[r + k] == str.ptr[k]], although these cells run past the length of
    the string.  The capacity and the length of the needle are taken below
    2^63. *)
Theorem X12_find_long_needle (str s : string) (pos : Z) :
  buffer_ok s -> len s < len str -> len str < 2 ^ 63 -> _str_capacity s < 2 ^ 63 ->
  0 <= pos < len s ->
  find str pos s = Undefined \/
  exists r,
    find str pos s = Normal r s /\
    pos <= r < _str_capacity s /\ r <> npos /\ len s < r + len str /\
    forall k, 0 <= k < len str ->
      exists u, read_ptr (r + k) s = Normal u s /\ read_ptr k str = Normal u str.
Proof.
  intros (Hlen & Hcap & Hbuf) Hlong Hstr Hsmall Hpos. unfold find, empty.
  rewrite (proj2 (Z.leb_gt _ _)) by lia. rewrite (proj2 (Z.eqb_neq _ 0)) by lia.
  destruct (ptr s) as [buf|] eqn:Hptr; [|cbn in Hbuf; lia].
  assert (Z.of_nat (length buf) <= to_size_type (len s - len str)) as Hbound.
  { unfold to_size_type.
    replace (len s - len str) with (2 ^ 64 - (len str - len s) + -1 * 2 ^ 64) by lia.
    rewrite Z.mod_add by lia. rewrite Z.mod_small by lia. lia. }
  destruct (find_loop_long_needle str s buf Hptr ltac:(lia) Hbound
              (S (length buf)) pos ltac:(lia) ltac:(lia))
    as [Hu|(r & Hr & Hri & Hmatch)]; [by left|].
  right. exists r. split; [done|]. unfold npos. split_and!; try lia; [|done].
  change (to_size_type (-1)) with (2 ^ 64 - 1). lia.
Qed.

(** The string "X" left by [pop_back()] on "XY", searched for "XY": the
    unit Y is still in its cell, and the index 0 is returned. *)
Lemma X12_find_long_needle_witness :
  find (mk_string (Some [Some 0x58; Some 0x59]) 2 2) 0
       (mk_string (Some [Some 0x58; Some 0x59]) 1 2) =
    Normal 0 (mk_string (Some [Some 0x58; Some 0x59]) 1 2) /\
  (find (mk_string (Some [Some 0x58; Some 0x59]) 2 2) 0
        (mk_string (Some [Some 0x58; Some 0x59]) 1 2) = Undefined \/
   exists r,
     find (mk_string (Some [Some 0x58; Some 0x59]) 2 2) 0
          (mk_string (Some [Some 0x58; Some 0x59]) 1 2) =
       Normal r (mk_string (Some [Some 0x58; Some 0x59]) 1 2) /\
     0 <= r < _str_capacity (mk_string (Some [Some 0x58; Some 0x59]) 1 2) /\
     r <> npos /\
     len (mk_string (Some [Some 0x58; Some 0x59]) 1 2) <
       r + len (mk_string (Some [Some 0x58; Some 0x59]) 2 2) /\
     forall k, 0 <= k < len (mk_string (Some [Some 0x58; Some 0x59]) 2 2) ->
       exists u,
         read_ptr (r + k) (mk_string (Some [Some 0x58; Some 0x59]) 1 2) =
           Normal u (mk_string (Some [Some 0x58; Some 0x59]) 1 2) /\
         read_ptr k (mk_string (Some [Some 0x58; Some 0x59]) 2 2) =
           Normal u (mk_string (Some [Some 0x58; Some 0x59]) 2 2)).
Proof.
  split; [reflexivity|].
  apply (X12_find_long_needle (mk_string (Some [Some 0x58; Some 0x59]) 2 2)
           (mk_string (Some [Some 0x58; Some 0x59]) 1 2) 0);
    [unfold buffer_ok; cbn; lia|cbn; lia|cbn; lia|cbn; lia|cbn; lia].
Defined.

Lemma find_member_spec (us ns : list Z) (str s : string) (i : nat) a :
  holds s us -> holds str ns -> us !! i = Some a ->
  forall (fuel j : nat),
    (length ns - j <= fuel)%nat ->
    exists b,
      find_member fuel str (Z.of_nat i) (Z.of_nat j) s = Normal b s /\
      (b = true <-> a ∈ drop j ns).
Proof.
  intros Hs Hstr Ha. pose proof (holds_len _ _ Hstr) as Hlen.
  induction fuel as [|fuel IH]; intros j Hfuel; cbn [find_member]; rewrite Hlen.
  - rewrite (proj2 (Z.ltb_ge _ _)) by lia. exists false. split; [done|].
    rewrite drop_ge by lia. split; [done|]. by intros ?%elem_of_nil.
  - destruct (Z.ltb_spec (Z.of_nat j) (Z.of_nat (length ns))) as [Hlt|Hge].
    + destruct (lookup_lt_is_Some_2 ns j ltac:(lia)) as [b Hb].
      rewrite (bind_Normal _ _ _ _ _ (holds_read s us _ a Hs Ha)).
      rewrite (bind_Normal _ _ _ _ _ (read_other_holds str ns _ b s Hstr Hb)).
      rewrite (drop_S _ _ _ Hb).
      destruct (Z.eqb_spec a b) as [->|Hne].
      * exists true. split; [done|]. split; [intros _; apply elem_of_cons; by left|done].
      * replace (Z.of_nat j + 1) with (Z.of_nat (S j)) by lia.
        destruct (IH (S j)) as (r & Hrun & Hr); [lia|].
        exists r. split; [done|]. rewrite Hr, elem_of_cons.
        split; [by right|by intros [?|?]].
    + exists false. split; [done|].
      rewrite drop_ge by lia. split; [done|]. by intros ?%elem_of_nil.
Qed.

Lemma find_member_at (us ns : list Z) (str s : string) (i : nat) :
  holds s us -> holds str ns -> (i < length us)%nat ->
  exists b,
    find_member (Z.to_nat (len str)) str (Z.of_nat i) 0 s = Normal b s /\
    (b = true <-> member_at us ns i).
Proof.
  intros Hs Hstr Hi. destruct (lookup_lt_is_Some_2 us i Hi) as [a Ha].
  destruct (find_member_spec us ns str s i a Hs Hstr Ha (Z.to_nat (len str)) 0)
    as (b & Hrun & Hb).
  { rewrite (holds_len _ _ Hstr). lia. }
  exists b. split; [done|]. rewrite Hb, drop_0. unfold member_at. rewrite Ha.
  split; [intros ?; by exists a|by intros (u & [= ->] & ?)].
Qed.

Lemma member_at_lt us ns k : member_at us ns k -> (k < length us)%nat.
Proof. intros (u & Hu & _). by apply lookup_lt_Some in Hu. Qed.

Lemma find_first_of_loop_spec (us ns : list Z) (str s : string) :
  holds s us -> holds str ns ->
  forall (fuel i : nat),
    (length us - i <= fuel)%nat ->
    exists r,
      find_first_of_loop fuel str (Z.of_nat i) s = Normal r s /\
      first_from (member_at us ns) (Z.of_nat i) r.
Proof.
  intros Hs Hstr. pose proof (holds_len _ _ Hs) as Hlen.
  assert (forall i : nat, (length us <= i)%nat ->
            first_from (member_at us ns) (Z.of_nat i) npos) as Hnone.
  { intros i Hi. left. split; [done|]. intros k Hk Hm%member_at_lt. lia. }
  induction fuel as [|fuel IH]; intros i Hfuel; cbn [find_first_of_loop];
    unfold bind at 1; unfold get_len at 1; rewrite Hlen.
  - rewrite (proj2 (Z.ltb_ge _ _)) by lia. exists npos. split; [done|].
    apply Hnone. lia.
  - destruct (Z.ltb_spec (Z.of_nat i) (Z.of_nat (length us))) as [Hlt|Hge].
    + destruct (find_member_at us ns str s i Hs Hstr ltac:(lia)) as (b & Hrun & Hb).
      rewrite (bind_Normal _ _ _ _ _ Hrun). destruct b.
      * exists (Z.of_nat i). split; [done|]. right. exists i.
        split_and!; try done; try lia. by apply Hb.
      * replace (Z.of_nat i + 1) with (Z.of_nat (S i)) by lia.
        destruct (IH (S i)) as (r & Hrun' & Hr); [lia|].
        exists r. split; [done|].
        assert (~ member_at us ns i) as Hno.
        { intros Hm. apply Hb in Hm. done. }
        destruct Hr as [[-> Hall]|(k & -> & Hk & Hm & Hfirst)].
        -- left. split; [done|]. intros k Hk.
           destruct (decide (k = i)) as [->|]; [done|]. apply Hall. lia.
        -- right. exists k. split_and!; try done; try lia.
           intros k' Hk' Hlt'. destruct (decide (k' = i)) as [->|]; [done|].
           apply Hfirst; lia.
    + exists npos. split; [done|]. apply Hnone. lia.
Qed.

(** X13: [find_first_of(str, pos)] returns the first index from [pos] on
    whose unit is one of the units of [str], and [npos] when there is
    none. *)
Theorem X13_find_first_of (us ns : list Z) (str s : string) (pos : Z) :
  holds s us -> holds str ns -> 0 <= pos ->
  exists r,
    find_first_of str pos s = Normal r s /\
    first_from (member_at us ns) pos r.
Proof.
  intros Hs Hstr Hpos. pose proof (holds_len _ _ Hs) as Hlen.
  unfold find_first_of. unfold bind at 1. unfold get_len at 1. rewrite Hlen.
  destruct (find_first_of_loop_spec us ns str s Hs Hstr
              (Z.to_nat (Z.of_nat (length us) - pos)) (Z.to_nat pos)) as (r & Hrun & Hr);
    [lia|].
  rewrite Z2Nat.id in Hrun, Hr by lia. by exists r.
Qed.

Lemma X13_find_first_of_witness :
  exists r,
    find_first_of string_X 0 string_X = Normal r string_X /\
    first_from (member_at [0x58] [0x58]) 0 r.
Proof.
  apply (X13_find_first_of [0x58] [0x58] string_X string_X 0);
    [apply string_X_holds|apply string_X_holds|lia].
Defined.

Lemma find_compare_at (us ns : list Z) (str s : string) (i : nat) :
  holds s us -> holds str ns -> (i + length ns <= length us)%nat ->
  exists b,
    find_compare (Z.to_nat (len str)) str (Z.of_nat i) 0 s = Normal b s /\
    (b = true <-> occurs_at us ns i).
Proof.
  intros Hs Hstr Hfit.
  destruct (find_compare_spec us ns str s i Hs Hstr Hfit (Z.to_nat (len str)) 0)
    as (b & Hrun & Hb); [lia|rewrite (holds_len _ _ Hstr); lia|].
  exists b. split; [done|].
  by rewrite Nat.sub_0_r, Nat.add_0_r, drop_0 in Hb.
Qed.

Lemma rfind_loop_spec (us ns : list Z) (str s : string) :
  holds s us -> holds str ns ->
  forall (fuel i : nat),
    (i + length ns <= length us + 1)%nat -> (i <= fuel)%nat ->
    exists r,
      rfind_loop fuel str (Z.of_nat i) s = Normal r s /\
      last_upto (occurs_at us ns) (Z.of_nat i - 1) r.
Proof.
  intros Hs Hstr.
  induction fuel as [|fuel IH]; intros i Hi Hfuel; cbn [rfind_loop].
  - assert (i = 0%nat) as -> by lia. exists npos. split; [done|].
    left. split; [done|]. intros k Hk. lia.
  - destruct i as [|i].
    { exists npos. split; [done|]. left. split; [done|]. intros k Hk. lia. }
    rewrite (proj2 (Z.ltb_lt _ _)) by lia. cbv zeta.
    replace (Z.of_nat (S i) - 1) with (Z.of_nat i) by lia.
    destruct (find_compare_at us ns str s i Hs Hstr ltac:(lia)) as (b & Hrun & Hb).
    rewrite (bind_Normal _ _ _ _ _ Hrun). destruct b.
    + exists (Z.of_nat i). split; [done|]. right. exists i.
      split_and!; try done; try lia. by apply Hb.
    + destruct (IH i) as (r & Hrun' & Hr); try lia.
      exists r. split; [done|].
      assert (~ occurs_at us ns i) as Hno.
      { intros Hocc. apply Hb in Hocc. done. }
      destruct Hr as [[-> Hall]|(k & -> & Hk & Hocc & Hlast)].
      * left. split; [done|]. intros k Hk.
        destruct (decide (k = i)) as [->|]; [done|]. apply Hall. lia.
      * right. exists k. split_and!; try done; try lia.
        intros k' Hk' Hlt. destruct (decide (k' = i)) as [->|]; [done|].
        apply Hlast; lia.
Qed.

(** X14: [rfind(str, pos)] returns the last index up to [pos] where the
    units of the needle occur, and [npos] when they occur at none (so also
    when the needle is longer than the string); for the empty needle it
    returns the smaller of [pos] and the length. *)
Theorem X14_rfind (us ns : list Z) (str s : string) (pos : Z) :
  holds s us -> holds str ns -> 0 <= pos < 2 ^ 64 ->
  exists r,
    rfind str pos s = Normal r s /\
    match ns with
    | [] => r = Z.min pos (Z.of_nat (length us))
    | _ => last_upto (occurs_at us ns) pos r
    end.
Proof.
  intros Hs Hstr Hpos.
  pose proof (holds_len _ _ Hs) as Hlen. pose proof (holds_len _ _ Hstr) as Hlen'.
  assert (Z.of_nat (length us) < 2 ^ 64) as Hsize.
  { destruct s as [p l c]. destruct (holds_inv _ _ _ _ Hs) as (? & ? & ? & _). lia. }
  unfold rfind, empty. unfold bind at 1. unfold get_len at 1. rewrite Hlen, Hlen'.
  destruct ns as [|n ns].
  { eexists. split; [reflexivity|]. unfold min. cbn [length].
    destruct (Z.ltb_spec pos (Z.of_nat (length us))); lia. }
  rewrite (proj2 (Z.eqb_neq _ 0)) by (cbn; lia).
  set (needle := n :: ns) in *.
  assert (needle <> []) as Hne by done.
  assert (0 < length needle)%nat as Hpos' by (cbn; lia).
  clearbody needle.
  destruct (Z.ltb_spec (Z.of_nat (length us)) (Z.of_nat (length needle))) as [Hlong|Hfit].
  - exists npos. split; [done|]. left. split; [done|].
    intros k Hk Hocc. apply occurs_at_fits in Hocc; [lia|done].
  - set (limit := min pos (Z.of_nat (length us) - Z.of_nat (length needle))).
    assert (limit = Z.min pos (Z.of_nat (length us) - Z.of_nat (length needle))) as Hlimit.
    { unfold limit, min. destruct (Z.ltb_spec pos
        (Z.of_nat (length us) - Z.of_nat (length needle))); lia. }
    clearbody limit. rewrite to_size_type_small by lia.
    destruct (rfind_loop_spec us needle str s Hs Hstr
                (Z.to_nat (limit + 1)) (Z.to_nat (limit + 1))) as (r & Hrun & Hr);
      [lia|lia|].
    rewrite Z2Nat.id in Hrun, Hr by lia. exists r. split; [done|].
    destruct Hr as [[-> Hall]|(k & -> & Hk & Hocc & Hlast)].
    + left. split; [done|]. intros k Hk Hocc.
      pose proof (occurs_at_fits _ _ _ Hne Hocc). apply (Hall k); [lia|done].
    + right. exists k. split_and!; try done; try lia.
      intros k' Hk' Hlt Hocc'.
      pose proof (occurs_at_fits _ _ _ Hne Hocc'). apply (Hlast k'); [lia|done|done].
Qed.

Lemma X14_rfind_witness :
  exists r,
    rfind string_X 0 string_X = Normal r string_X /\
    last_upto (occurs_at [0x58] [0x58]) 0 r.
Proof.
  apply (X14_rfind [0x58] [0x58] string_X string_X 0);
    [apply string_X_holds|apply string_X_holds|lia].
Defined.

Lemma find_last_of_loop_spec (us ns : list Z) (str s : string) :
  holds s us -> holds str ns ->
  forall (fuel i : nat),
    (i <= length us)%nat -> (i <= fuel)%nat ->
    exists r,
      find_last_of_loop fuel str (Z.of_nat i) s = Normal r s /\
      last_upto (member_at us ns) (Z.of_nat i - 1) r.
Proof.
  intros Hs Hstr.
  induction fuel as [|fuel IH]; intros i Hi Hfuel; cbn [find_last_of_loop].
  - assert (i = 0%nat) as -> by lia. exists npos. split; [done|].
    left. split; [done|]. intros k Hk. lia.
  - destruct i as [|i].
    { exists npos. split; [done|]. left. split; [done|]. intros k Hk. lia. }
    rewrite (proj2 (Z.ltb_lt _ _)) by lia. cbv zeta.
    replace (Z.of_nat (S i) - 1) with (Z.of_nat i) by lia.
    destruct (find_member_at us ns str s i Hs Hstr ltac:(lia)) as (b & Hrun & Hb).
    rewrite (bind_Normal _ _ _ _ _ Hrun). destruct b.
    + exists (Z.of_nat i). split; [done|]. right. exists i.
      split_and!; try done; try lia. by apply Hb.
    + destruct (IH i) as (r & Hrun' & Hr); try lia.
      exists r. split; [done|].
      assert (~ member_at us ns i) as Hno.
      { intros Hm. apply Hb in Hm. done. }
      destruct Hr as [[-> Hall]|(k & -> & Hk & Hm & Hlast)].
      * left. split; [done|]. intros k Hk.
        destruct (decide (k = i)) as [->|]; [done|]. apply Hall. lia.
      * right. exists k. split_and!; try done; try lia.
        intros k' Hk' Hlt. destruct (decide (k' = i)) as [->|]; [done|].
        apply Hlast; lia.
Qed.

(** X15: [find_last_of(str, pos)] returns the last index up to [pos] whose
    unit is one of the units of [str], and [npos] when there is none. *)
Theorem X15_find_last_of (us ns : list Z) (str s : string) (pos : Z) :
  holds s us -> holds str ns -> 0 <= pos < 2 ^ 64 ->
  exists r,
    find_last_of str pos s = Normal r s /\
    last_upto (member_at us ns) pos r.
Proof.
  intros Hs Hstr Hpos. pose proof (holds_len _ _ Hs) as Hlen.
  assert (Z.of_nat (length us) < 2 ^ 64) as Hsize.
  { destruct s as [p l c]. destruct (holds_inv _ _ _ _ Hs) as (? & ? & ? & _). lia. }
  unfold find_last_of. unfold bind at 1. unfold get_len at 1. rewrite Hlen.
  destruct (Z.eqb_spec (Z.of_nat (length us)) 0) as [Hnil|Hcons].
  - exists npos. split; [done|]. left. split; [done|].
    intros k Hk Hm%member_at_lt. lia.
  - set (limit := min pos (Z.of_nat (length us) - 1)).
    assert (limit = Z.min pos (Z.of_nat (length us) - 1)) as Hlimit.
    { unfold limit, min. destruct (Z.ltb_spec pos (Z.of_nat (length us) - 1)); lia. }
    clearbody limit. rewrite to_size_type_small by lia.
    destruct (find_last_of_loop_spec us ns str s Hs Hstr
                (Z.to_nat (limit + 1)) (Z.to_nat (limit + 1))) as (r & Hrun & Hr);
      [lia|lia|].
    rewrite Z2Nat.id in Hrun, Hr by lia. exists r. split; [done|].
    destruct Hr as [[-> Hall]|(k & -> & Hk & Hm & Hlast)].
    + left. split; [done|]. intros k Hk Hm.
      pose proof (member_at_lt _ _ _ Hm). apply (Hall k); [lia|done].
    + right. exists k. split_and!; try done; try lia.
      intros k' Hk' Hlt Hm'.
      pose proof (member_at_lt _ _ _ Hm'). apply (Hlast k'); [lia|done|done].
Qed.

Lemma X15_find_last_of_witness :
  exists r,
    find_last_of string_X 0 string_X = Normal r string_X /\
    last_upto (member_at [0x58] [0x58]) 0 r.
Proof.
  apply (X15_find_last_of [0x58] [0x58] string_X string_X 0);
    [apply string_X_holds|apply string_X_holds|lia].
Defined.

(** ** Further properties: comparisons *)

Lemma less_loop_spec (us vs : list Z) (rhs s : string) :
  holds s us -> holds rhs vs ->
  forall (fuel i : nat),
    (i <= length us)%nat -> (i <= length vs)%nat ->
    (Nat.min (length us) (length vs) - i <= fuel)%nat ->
    less_loop fuel rhs (Z.of_nat (Nat.min (length us) (length vs))) (Z.of_nat i) s =
    Normal (lex_lt (to_short <$> drop i us) (to_short <$> drop i vs)) s.
Proof.
  intros Hs Hrhs.
  pose proof (holds_len _ _ Hs) as Hlen. pose proof (holds_len _ _ Hrhs) as Hlen'.
  assert (forall i : nat,
            (i <= length us)%nat -> (i <= length vs)%nat ->
            (Nat.min (length us) (length vs) <= i)%nat ->
            (let* l := get_len in ret (l <? len rhs)) s =
            Normal (lex_lt (to_short <$> drop i us) (to_short <$> drop i vs)) s) as Hend.
  { intros i Hi Hi' Hmin. unfold bind, get_len, ret. rewrite Hlen, Hlen'. f_equal.
    destruct (decide (i = length vs)) as [->|Hne].
    - rewrite (drop_all vs). rewrite (proj2 (Z.ltb_ge _ _)) by lia.
      by destruct (to_short <$> drop (length vs) us).
    - assert (i = length us) as -> by lia. rewrite (drop_all us).
      rewrite (proj2 (Z.ltb_lt _ _)) by lia.
      destruct (lookup_lt_is_Some_2 vs (length us) ltac:(lia)) as [v Hv].
      by rewrite (drop_S _ _ _ Hv). }
  induction fuel as [|fuel IH]; intros i Hi Hi' Hfuel; cbn [less_loop].
  - rewrite (proj2 (Z.ltb_ge _ _)) by lia. apply Hend; lia.
  - destruct (Z.ltb_spec (Z.of_nat i) (Z.of_nat (Nat.min (length us) (length vs))))
      as [Hlt|Hge]; [|apply Hend; lia].
    destruct (lookup_lt_is_Some_2 us i ltac:(lia)) as [a Ha].
    destruct (lookup_lt_is_Some_2 vs i ltac:(lia)) as [b Hb].
    rewrite (bind_Normal _ _ _ _ _ (holds_read s us _ a Hs Ha)).
    rewrite (bind_Normal _ _ _ _ _ (read_other_holds rhs vs _ b s Hrhs Hb)).
    rewrite (drop_S _ _ _ Ha), (drop_S _ _ _ Hb). cbn [fmap list_fmap lex_lt].
    destruct (to_short a <? to_short b); [done|].
    destruct (to_short b <? to_short a); [done|].
    replace (Z.of_nat i + 1) with (Z.of_nat (S i)) by lia.
    apply IH; lia.
Qed.

(** X16: [operator<] computes the lexicographic order of the two
    sequences of code units read as signed 16-bit values ([data_type] is
    [short]), a proper prefix being smaller. *)
Theorem X16_less (us vs : list Z) (rhs s : string) :
  holds s us -> holds rhs vs ->
  less rhs s = Normal (lex_lt (to_short <$> us) (to_short <$> vs)) s.
Proof.
  intros Hs Hrhs.
  pose proof (holds_len _ _ Hs) as Hlen. pose proof (holds_len _ _ Hrhs) as Hlen'.
  unfold less. unfold bind at 1. unfold get_len at 1. rewrite Hlen, Hlen'.
  assert (min (Z.of_nat (length us)) (Z.of_nat (length vs)) =
          Z.of_nat (Nat.min (length us) (length vs))) as ->.
  { unfold min. destruct (Z.ltb_spec (Z.of_nat (length us)) (Z.of_nat (length vs))); lia. }
  rewrite Nat2Z.id.
  by rewrite (less_loop_spec us vs rhs s Hs Hrhs _ 0%nat) by lia.
Qed.

Lemma X16_less_witness :
  less string_X string_X =
  Normal (lex_lt (to_short <$> [0x58]) (to_short <$> [0x58])) string_X.
Proof. apply (X16_less [0x58] [0x58]); apply string_X_holds. Defined.

Lemma unit_bytes_inj le u v : unit_bytes le u = unit_bytes le v -> u = v.
Proof.
  unfold unit_bytes. change 0xFF with (Z.ones 8).
  rewrite !Z.land_ones, !Z.shiftr_div_pow2 by lia.
  pose proof (Z.div_mod u (2 ^ 8) ltac:(lia)).
  pose proof (Z.div_mod v (2 ^ 8) ltac:(lia)).
  destruct le; intros [= H1 H2]; lia.
Qed.

Lemma flat_map_unit_bytes_inj le us vs :
  flat_map (unit_bytes le) us = flat_map (unit_bytes le) vs -> us = vs.
Proof.
  revert vs. induction us as [|u us IH]; intros [|v vs]; cbn [flat_map].
  - done.
  - unfold unit_bytes. by destruct le.
  - unfold unit_bytes. by destruct le.
  - intros Heq.
    assert (unit_bytes le u = unit_bytes le v /\
            flat_map (unit_bytes le) us = flat_map (unit_bytes le) vs) as [Hu Hrest].
    { revert Heq. unfold unit_bytes at 1 3. destruct le; cbn [app];
        intros [= H1 H2 H3]; unfold unit_bytes; by rewrite H1, H2. }
    by rewrite (unit_bytes_inj _ _ _ Hu), (IH _ Hrest).
Qed.

Lemma length_flat_map_unit_bytes le us :
  length (flat_map (unit_bytes le) us) = (2 * length us)%nat.
Proof.
  induction us as [|u us IH]; [done|]. cbn [flat_map length].
  rewrite length_app, IH. unfold unit_bytes. destruct le; cbn [length]; lia.
Qed.

Lemma array_bytes_units le us rest :
  array_bytes le ((Some <$> us) ++ rest) =
  (Some <$> flat_map (unit_bytes le) us) ++ array_bytes le rest.
Proof.
  unfold array_bytes. rewrite flat_map_app. f_equal.
  induction us as [|u us IH]; [done|].
  cbn [fmap list_fmap flat_map cell_bytes]. by rewrite fmap_app, <- IH.
Qed.

Lemma memcmp_loop_spec (xs ys : list Z) (ra rb : list (option Z)) :
  length xs = length ys ->
  forall (fuel i : nat),
    (i <= length xs)%nat -> (length xs - i <= fuel)%nat ->
    exists r,
      memcmp_loop fuel ((Some <$> xs) ++ ra) ((Some <$> ys) ++ rb)
        (Z.of_nat (length xs)) (Z.of_nat i) = Some r /\
      (r = 0 <-> drop i xs = drop i ys).
Proof.
  intros Hlen.
  induction fuel as [|fuel IH]; intros i Hi Hfuel; cbn [memcmp_loop].
  - rewrite (proj2 (Z.ltb_ge _ _)) by lia. exists 0. split; [done|].
    by rewrite !drop_ge by lia.
  - destruct (Z.ltb_spec (Z.of_nat i) (Z.of_nat (length xs))) as [Hlt|Hge].
    + destruct (lookup_lt_is_Some_2 xs i ltac:(lia)) as [x Hx].
      destruct (lookup_lt_is_Some_2 ys i ltac:(lia)) as [y Hy].
      rewrite Nat2Z.id.
      rewrite !lookup_app_l by (rewrite length_fmap; lia).
      rewrite !list_lookup_fmap, Hx, Hy. cbn [fmap option_fmap option_map].
      rewrite (drop_S _ _ _ Hx), (drop_S _ _ _ Hy).
      destruct (Z.ltb_spec x y) as [Hxy|Hxy].
      { exists (-1). split; [done|]. split; [done|]. intros [= -> _]. lia. }
      destruct (Z.ltb_spec y x) as [Hyx|Hyx].
      { exists 1. split; [done|]. split; [done|]. intros [= -> _]. lia. }
      assert (x = y) as -> by lia.
      replace (Z.of_nat i + 1) with (Z.of_nat (S i)) by lia.
      destruct (IH (S i)) as (r & Hrun & Hr); try lia.
      exists r. split; [done|]. rewrite Hr. split; [by intros ->|by intros [=]].
    + exists 0. split; [done|]. by rewrite !drop_ge by lia.
Qed.

Lemma memcmp_units le (us vs : list Z) (ra rb : list cell) :
  length us = length vs -> Z.of_nat (length us) < 2 ^ 63 ->
  exists r,
    memcmp (array_bytes le ((Some <$> us) ++ ra)) (array_bytes le ((Some <$> vs) ++ rb))
      (to_size_type (Z.of_nat (length us) * 2)) = Some r /\
    (r = 0 <-> us = vs).
Proof.
  intros Hlen Hsize. rewrite !array_bytes_units.
  rewrite to_size_type_small by lia. unfold memcmp.
  replace (Z.of_nat (length us) * 2)
    with (Z.of_nat (length (flat_map (unit_bytes le) us)))
    by (rewrite length_flat_map_unit_bytes; lia).
  rewrite Nat2Z.id.
  destruct (memcmp_loop_spec (flat_map (unit_bytes le) us) (flat_map (unit_bytes le) vs)
              (array_bytes le ra) (array_bytes le rb)
              ltac:(rewrite !length_flat_map_unit_bytes; lia)
              (length (flat_map (unit_bytes le) us)) 0 ltac:(lia) ltac:(lia))
    as (r & Hrun & Hr).
  exists r. split; [done|]. rewrite Hr, !drop_0.
  split; [apply flat_map_unit_bytes_inj|by intros ->].
Qed.

Lemma holds_cells s us :
  holds s us -> exists rest, cells_of (ptr s) = (Some <$> us) ++ rest.
Proof.
  intros Hs. destruct s as [p l c].
  destruct (holds_inv _ _ _ _ Hs) as (_ & _ & _ & Hp). cbn [ptr cells_of].
  destruct p as [buf|].
  - destruct Hp as [_ Htake]. exists (drop (length us) buf).
    by rewrite <- Htake, take_drop.
  - destruct Hp as [_ ->]. by exists [].
Qed.

(** X17: [operator==] answers whether the two strings hold the same
    sequence of code units, on a platform of either byte order. *)
Theorem X17_equal (little_endian : bool) (us vs : list Z) (other s : string) :
  holds s us -> holds other vs -> Z.of_nat (length us) < 2 ^ 63 ->
  equal little_endian other s = Normal (bool_decide (us = vs)) s.
Proof.
  intros Hs Hother Hsize.
  pose proof (holds_len _ _ Hs) as Hlen. pose proof (holds_len _ _ Hother) as Hlen'.
  destruct (holds_cells _ _ Hs) as [ra Hra].
  destruct (holds_cells _ _ Hother) as [rb Hrb].
  unfold equal. rewrite Hlen, Hlen', Hra, Hrb.
  destruct (Z.eqb_spec (Z.of_nat (length us)) (Z.of_nat (length vs))) as [Heq|Hne];
    cbn [negb].
  - destruct (memcmp_units little_endian us vs ra rb ltac:(lia) Hsize) as (r & -> & Hr).
    f_equal. destruct (Z.eqb_spec r 0) as [Hz|Hz].
    + by rewrite bool_decide_eq_true_2 by by apply Hr.
    + rewrite bool_decide_eq_false_2; [done|]. intros Huv. by apply Hz, Hr.
  - rewrite bool_decide_eq_false_2; [done|]. intros ->. done.
Qed.

Lemma X17_equal_witness :
  equal true string_X string_X = Normal (bool_decide ([0x58] = [0x58])) string_X.
Proof.
  apply (X17_equal true [0x58] [0x58]);
    [apply string_X_holds|apply string_X_holds|cbn; lia].
Defined.

(** X18: [start_with(other)] answers whether the units of [other] are the
    first units of the string, and [end_with(other)] whether they are its
    last ones. *)
Theorem X18_start_end_with (little_endian : bool) (us vs : list Z) (other s : string) :
  holds s us -> holds other vs -> Z.of_nat (length vs) < 2 ^ 63 ->
  start_with little_endian other s =
    Normal (bool_decide (take (length vs) us = vs)) s /\
  end_with little_endian other s =
    Normal (bool_decide (drop (length us - length vs) us = vs)) s.
Proof.
  intros Hs Hother Hsize.
  pose proof (holds_len _ _ Hs) as Hlen. pose proof (holds_len _ _ Hother) as Hlen'.
  destruct (holds_cells _ _ Hs) as [ra Hra].
  destruct (holds_cells _ _ Hother) as [rb Hrb].
  unfold start_with, end_with. rewrite Hlen, Hlen', Hra, Hrb.
  destruct (Z.ltb_spec (Z.of_nat (length us)) (Z.of_nat (length vs))) as [Hshort|Hfit].
  - split; (rewrite bool_decide_eq_false_2; [done|]); intros Heq;
      apply (f_equal length) in Heq;
      rewrite ?length_take, ?length_drop in Heq; lia.
  - split.
    + rewrite <- (take_drop (length vs) us) at 1. rewrite fmap_app, <- app_assoc.
      replace (Z.of_nat (length vs)) with (Z.of_nat (length (take (length vs) us)))
        by (rewrite length_take; lia).
      destruct (memcmp_units little_endian (take (length vs) us) vs
                  ((Some <$> drop (length vs) us) ++ ra) rb) as (r & -> & Hr).
      { rewrite length_take. lia. }
      { rewrite length_take. lia. }
      f_equal. destruct (Z.eqb_spec r 0) as [Hz|Hz].
      * by rewrite bool_decide_eq_true_2 by by apply Hr.
      * rewrite bool_decide_eq_false_2; [done|]. intros Huv. by apply Hz, Hr.
    + replace (Z.to_nat (Z.of_nat (length us) - Z.of_nat (length vs)))
        with (length us - length vs)%nat by lia.
      rewrite drop_app_le by (rewrite length_fmap; lia). rewrite <- fmap_drop.
      replace (Z.of_nat (length vs))
        with (Z.of_nat (length (drop (length us - length vs) us)))
        by (rewrite length_drop; lia).
      destruct (memcmp_units little_endian (drop (length us - length vs) us) vs ra rb)
        as (r & -> & Hr).
      { rewrite length_drop. lia. }
      { rewrite length_drop. lia. }
      f_equal. destruct (Z.eqb_spec r 0) as [Hz|Hz].
      * by rewrite bool_decide_eq_true_2 by by apply Hr.
      * rewrite bool_decide_eq_false_2; [done|]. intros Huv. by apply Hz, Hr.
Qed.

Lemma X18_start_end_with_witness :
  start_with true string_X string_X =
    Normal (bool_decide (take (length [0x58]) [0x58] = [0x58])) string_X /\
  end_with true string_X string_X =
    Normal (bool_decide (drop (length [0x58] - length [0x58]) [0x58] = [0x58])) string_X.
Proof.
  apply (X18_start_end_with true [0x58] [0x58]);
    [apply string_X_holds|apply string_X_holds|cbn; lia].
Defined.

(** ** Further properties: the 32-bit decoders *)

Ltac div_lia := Z.div_mod_to_equations; lia.

Lemma lor_add a b n :
  0 <= n -> a mod 2 ^ n = 0 -> 0 <= b < 2 ^ n -> Z.lor a b = a + b.
Proof.
  intros Hn Ha Hb.
  assert (Z.land a b = 0) as Hdisjoint.
  { apply Z.bits_inj'. intros k Hk. rewrite Z.land_spec, Z.bits_0.
    destruct (Z.lt_ge_cases k n) as [Hlt|Hge].
    - rewrite (Z.div_mod a (2 ^ n)) by lia.
      rewrite Ha, Z.add_0_r, Z.mul_comm, Z.mul_pow2_bits_low by lia. done.
    - rewrite <- (Z.mod_small b (2 ^ n)) by lia.
      rewrite Z.mod_pow2_bits_high by lia. apply andb_false_r. }
  by rewrite <- Z.lxor_lor, <- Z.add_nocarry_lxor.
Qed.

Lemma surrogates_of_scalar cp :
  0x10000 <= cp <= 0x10FFFF ->
  to_data_type
    (Z.lor 0xD800 (Z.land (Z.shiftr (to_unsigned_int (cp - 0x10000)) 10) 0x3FF)) =
    0xD800 + (cp - 0x10000) / 0x400 /\
  to_data_type (Z.lor 0xDC00 (Z.land (to_unsigned_int (cp - 0x10000)) 0x3FF)) =
    0xDC00 + (cp - 0x10000) mod 0x400.
Proof.
  intros Hcp. unfold to_unsigned_int, to_data_type.
  rewrite (Z.mod_small (cp - 0x10000)) by lia.
  change 0x3FF with (Z.ones 10). rewrite !Z.land_ones, Z.shiftr_div_pow2 by lia.
  change (2 ^ 10) with 0x400.
  rewrite (Z.mod_small ((cp - 0x10000) / 0x400)) by div_lia.
  rewrite !(lor_add _ _ 10) by (done || div_lia).
  split; apply Z.mod_small; div_lia.
Qed.

Lemma scalar_of_le_bytes cp :
  scalar32 cp ->
  to_unsigned_int
    (Z.lor (Z.lor (Z.lor (cp mod 256) (Z.shiftl (cp / 256 mod 256) 8))
                  (Z.shiftl (cp / 256 / 256 mod 256) 16))
           (Z.shiftl (cp / 256 / 256 / 256) 24)) = cp.
Proof.
  unfold scalar32, to_unsigned_int. intros Hcp.
  rewrite !Z.shiftl_mul_pow2 by lia.
  rewrite (Z.lor_comm (cp mod 256)).
  rewrite (lor_add (cp / 256 mod 256 * 2 ^ 8) (cp mod 256) 8) by div_lia.
  rewrite (Z.lor_comm _ (cp / 256 / 256 mod 256 * 2 ^ 16)).
  rewrite (lor_add (cp / 256 / 256 mod 256 * 2 ^ 16) _ 16) by div_lia.
  rewrite (Z.lor_comm _ (cp / 256 / 256 / 256 * 2 ^ 24)).
  rewrite (lor_add (cp / 256 / 256 / 256 * 2 ^ 24) _ 24) by div_lia.
  rewrite Z.mod_small by div_lia. div_lia.
Qed.

Lemma scalar_of_be_bytes cp :
  scalar32 cp ->
  to_unsigned_int
    (Z.lor (Z.lor (Z.lor (Z.shiftl (cp / 256 / 256 / 256) 24)
                         (Z.shiftl (cp / 256 / 256 mod 256) 16))
                  (Z.shiftl (cp / 256 mod 256) 8))
           (cp mod 256)) = cp.
Proof.
  unfold scalar32, to_unsigned_int. intros Hcp.
  rewrite !Z.shiftl_mul_pow2 by lia.
  rewrite (lor_add (cp / 256 / 256 / 256 * 2 ^ 24) (cp / 256 / 256 mod 256 * 2 ^ 16) 24)
    by div_lia.
  rewrite (lor_add _ (cp / 256 mod 256 * 2 ^ 8) 16) by div_lia.
  rewrite (lor_add _ (cp mod 256) 8) by div_lia.
  rewrite Z.mod_small by div_lia. div_lia.
Qed.

Lemma flat_map_lookup_4 (f : Z -> list Z) (cps : list Z) (k : nat) cp b0 b1 b2 b3 :
  (forall c, f c = [b0 c; b1 c; b2 c; b3 c]) -> cps !! k = Some cp ->
  flat_map f cps !! (4 * k)%nat = Some (b0 cp) /\
  flat_map f cps !! S (4 * k) = Some (b1 cp) /\
  flat_map f cps !! S (S (4 * k)) = Some (b2 cp) /\
  flat_map f cps !! S (S (S (4 * k))) = Some (b3 cp).
Proof.
  intros Hf. revert k. induction cps as [|c cps IH]; intros [|k] Hk; cbn in Hk;
    simplify_eq; cbn [flat_map]; rewrite Hf.
  - done.
  - replace (4 * S k)%nat with (S (S (S (S (4 * k))))) by lia. cbn. by apply IH.
Qed.

Lemma scalar_le_bytes cps (k : nat) cp s :
  Forall scalar32 cps -> cps !! k = Some cp ->
  scalar_le (flat_map utf32le_of_scalar cps) (4 * Z.of_nat k) s = Normal cp s.
Proof.
  intros Hall Hk.
  pose proof (proj1 (Forall_lookup _ _) Hall k cp Hk) as Hcp.
  destruct (flat_map_lookup_4 utf32le_of_scalar cps k cp _ _ _ _ (fun c => eq_refl) Hk)
    as (H0 & H1 & H2 & H3).
  unfold scalar_le, bind, char_at, ret.
  rewrite !(proj2 (Z.leb_le 0 _)) by lia.
  replace (Z.to_nat (4 * Z.of_nat k)) with (4 * k)%nat by lia.
  replace (Z.to_nat (4 * Z.of_nat k + 1)) with (S (4 * k)) by lia.
  replace (Z.to_nat (4 * Z.of_nat k + 2)) with (S (S (4 * k))) by lia.
  replace (Z.to_nat (4 * Z.of_nat k + 3)) with (S (S (S (4 * k)))) by lia.
  rewrite H0, H1, H2, H3. by rewrite scalar_of_le_bytes.
Qed.

Lemma scalar_be_bytes cps (k : nat) cp s :
  Forall scalar32 cps -> cps !! k = Some cp ->
  scalar_be (flat_map utf32be_of_scalar cps) (4 * Z.of_nat k) s = Normal cp s.
Proof.
  intros Hall Hk.
  pose proof (proj1 (Forall_lookup _ _) Hall k cp Hk) as Hcp.
  destruct (flat_map_lookup_4 utf32be_of_scalar cps k cp _ _ _ _ (fun c => eq_refl) Hk)
    as (H0 & H1 & H2 & H3).
  unfold scalar_be, bind, char_at, ret.
  rewrite !(proj2 (Z.leb_le 0 _)) by lia.
  replace (Z.to_nat (4 * Z.of_nat k)) with (4 * k)%nat by lia.
  replace (Z.to_nat (4 * Z.of_nat k + 1)) with (S (4 * k)) by lia.
  replace (Z.to_nat (4 * Z.of_nat k + 2)) with (S (S (4 * k))) by lia.
  replace (Z.to_nat (4 * Z.of_nat k + 3)) with (S (S (S (4 * k)))) by lia.
  rewrite H0, H1, H2, H3. by rewrite scalar_of_be_bytes.
Qed.

Lemma length_utf16_of_scalar cp : (length (utf16_of_scalar cp) <= 2)%nat.
Proof. unfold utf16_of_scalar. destruct (cp <? 0x10000); cbn; lia. Qed.

Lemma length_flat_map_utf16 cps :
  (length (flat_map utf16_of_scalar cps) <= 2 * length cps)%nat.
Proof.
  induction cps as [|cp cps IH]; [done|]. cbn [flat_map length].
  rewrite length_app. pose proof (length_utf16_of_scalar cp). lia.
Qed.

Section utf32_loop.
Variable scalar_at : list Z -> Z -> M Z.
Variable bytes_of : list Z -> list Z.
Hypothesis scalar_at_bytes : forall cps (k : nat) cp s,
  Forall scalar32 cps -> cps !! k = Some cp ->
  scalar_at (bytes_of cps) (4 * Z.of_nat k) s = Normal cp s.

Lemma convert_utf32_loop_spec cps :
  Forall scalar32 cps ->
  forall (fuel k : nat) s,
    (k <= length cps)%nat -> (length cps - k <= fuel)%nat ->
    buffer_ok s -> len s + 2 * Z.of_nat (length cps - k) < 2 ^ 64 ->
    match convert_utf32_loop scalar_at fuel (bytes_of cps)
            (4 * Z.of_nat (length cps)) (4 * Z.of_nat k) s with
    | Normal _ s' =>
        Forall (fun cp => cp <= 0x10FFFF) (drop k cps) /\ buffer_ok s' /\
        units s' = units s ++ (Some <$> flat_map utf16_of_scalar (drop k cps))
    | Throw e _ =>
        ~ Forall (fun cp => cp <= 0x10FFFF) (drop k cps) /\
        kind_of e = InvalidCodepoint
    | Undefined | OutOfFuel => False
    end.
Proof.
  intros Hall. induction fuel as [|fuel IH]; intros k s Hk Hfuel Hok Hbound;
    cbn [convert_utf32_loop].
  { rewrite (proj2 (Z.ltb_ge _ _)) by lia. rewrite drop_ge by lia. cbn.
    by rewrite app_nil_r. }
  destruct (Z.ltb_spec (4 * Z.of_nat k) (4 * Z.of_nat (length cps))) as [Hlt|Hge];
    [|rewrite drop_ge by lia; cbn; by rewrite app_nil_r].
  destruct (lookup_lt_is_Some_2 cps k ltac:(lia)) as [cp Hcp].
  pose proof (proj1 (Forall_lookup _ _) Hall k cp Hcp) as Hrange.
  unfold scalar32 in Hrange.
  assert (0 <= len s) as Hlen by (destruct Hok; lia).
  rewrite (bind_Normal _ _ _ _ _ (scalar_at_bytes cps k cp s Hall Hcp)).
  rewrite (drop_S _ _ _ Hcp). cbn [flat_map].
  replace (4 * Z.of_nat k + 4) with (4 * Z.of_nat (S k)) by lia.
  destruct (Z.leb_spec cp 0xFFFF) as [Hbmp|Hsup].
  - destruct (grow_and_store_spec (to_data_type cp) s Hok)
      as (s1 & Hrun1 & Hok1 & Hlen1 & Hunits1 & Hcap1); [lia|].
    unfold bind at 1. unfold bind at 1 in Hrun1.
    destruct ((let* n := get_len in ensure_capacity (to_size_type (n + 1))) s)
      as [[] s0| | |] eqn:Hgrow; try done.
    rewrite (bind_Normal _ _ _ _ _ Hrun1).
    specialize (IH (S k) s1 ltac:(lia) ltac:(lia) Hok1 ltac:(lia)).
    destruct (convert_utf32_loop _ _ _ _ _ s1) as [[] s2|e s2| |]; try done.
    + destruct IH as (Hvalid & Hok2 & Hunits2). split_and!; try done.
      * constructor; [lia|done].
      * rewrite Hunits2, Hunits1. unfold utf16_of_scalar, to_data_type.
        rewrite (proj2 (Z.ltb_lt cp _)) by lia. rewrite Z.mod_small by lia.
        cbn. by rewrite <- app_assoc.
    + destruct IH as [Hinvalid Hkind]. split; [|done].
      intros Hvalid. apply Hinvalid. by inversion Hvalid.
  - destruct (Z.leb_spec cp 0x10FFFF) as [Hmax|Hover].
    + destruct (surrogates_of_scalar cp ltac:(lia)) as [Hhigh Hlow].
      cbv zeta. rewrite Hhigh, Hlow.
      destruct (ensure_capacity_spec (len s + 2) s Hok ltac:(lia))
        as (s0 & Hgrow & Hok0 & Hlen0 & Hunits0 & Hcap0).
      pose proof (grown_capacity_ge (_str_capacity s) (len s + 2)) as [Hge1 Hge2].
      destruct (store_at_len_spec (0xD800 + (cp - 0x10000) / 0x400) s0 Hok0)
        as (s1 & Hrun1 & Hok1 & Hlen1 & Hunits1 & Hcap1); [lia|].
      destruct (store_at_len_spec (0xDC00 + (cp - 0x10000) mod 0x400) s1 Hok1)
        as (s2 & Hrun2 & Hok2 & Hlen2 & Hunits2 & Hcap2); [lia|].
      unfold bind at 1. unfold bind at 1. unfold get_len at 1.
      rewrite to_size_type_small by lia. rewrite Hgrow.
      rewrite (bind_Normal _ _ _ _ _ Hrun1), (bind_Normal _ _ _ _ _ Hrun2).
      specialize (IH (S k) s2 ltac:(lia) ltac:(lia) Hok2 ltac:(lia)).
      destruct (convert_utf32_loop _ _ _ _ _ s2) as [[] s3|e s3| |]; try done.
      * destruct IH as (Hvalid & Hok3 & Hunits3). split_and!; try done.
        -- constructor; [lia|done].
        -- rewrite Hunits3, Hunits2, Hunits1, Hunits0. unfold utf16_of_scalar.
           rewrite (proj2 (Z.ltb_ge cp _)) by lia. cbn. by rewrite <- !app_assoc.
      * destruct IH as [Hinvalid Hkind]. split; [|done].
        intros Hvalid. apply Hinvalid. by inversion Hvalid.
    + cbn. split; [|done]. intros Hvalid. inversion Hvalid. lia.
Qed.
End utf32_loop.

(** A 32-bit decoder, from the entry of [convert_to_utf16]. *)
Lemma convert_utf32_spec scalar_at bytes_of cps s :
  (forall cps (k : nat) cp s,
     Forall scalar32 cps -> cps !! k = Some cp ->
     scalar_at (bytes_of cps) (4 * Z.of_nat k) s = Normal cp s) ->
  Forall scalar32 cps -> Z.of_nat (length cps) < 2 ^ 60 -> buffer_ok s ->
  match (ensure_capacity (4 * Z.of_nat (length cps)) ;;
         set_len 0 ;;
         ensure_capacity (to_size_type (4 * Z.of_nat (length cps) / 4 * 2)) ;;
         set_len 0 ;;
         convert_utf32_loop scalar_at (Z.to_nat (4 * Z.of_nat (length cps)))
           (bytes_of cps) (4 * Z.of_nat (length cps)) 0) s with
  | Normal _ s' =>
      Forall (fun cp => cp <= 0x10FFFF) cps /\
      holds s' (flat_map utf16_of_scalar cps)
  | Throw e _ =>
      ~ Forall (fun cp => cp <= 0x10FFFF) cps /\ kind_of e = InvalidCodepoint
  | Undefined | OutOfFuel => False
  end.
Proof.
  intros Hread Hall Hsize Hok.
  destruct (ensure_capacity_spec (4 * Z.of_nat (length cps)) s Hok ltac:(lia))
    as (s1 & Hgrow1 & Hok1 & _).
  rewrite (bind_Normal _ _ _ _ _ Hgrow1).
  unfold bind at 1. unfold set_len at 1.
  destruct (set_len_zero_ok s1 Hok1) as [Hok1' _].
  rewrite (Z.mul_comm 4), Z.div_mul by lia.
  rewrite to_size_type_small by lia.
  destruct (ensure_capacity_spec (Z.of_nat (length cps) * 2) _ Hok1' ltac:(lia))
    as (s2 & Hgrow2 & Hok2 & _).
  rewrite (bind_Normal _ _ _ _ _ Hgrow2).
  unfold bind at 1. unfold set_len at 1.
  destruct (set_len_zero_ok s2 Hok2) as [Hok0 Hunits0].
  rewrite (Z.mul_comm _ 4).
  pose proof (convert_utf32_loop_spec scalar_at bytes_of Hread cps Hall
                (Z.to_nat (4 * Z.of_nat (length cps))) 0 _
                ltac:(lia) ltac:(lia) Hok0 ltac:(cbn; lia)) as Hloop.
  change (4 * Z.of_nat 0%nat) with 0 in Hloop. rewrite drop_0 in Hloop.
  destruct (convert_utf32_loop _ _ _ _ _ _) as [[] s3|e s3| |]; try done.
  destruct Hloop as (Hvalid & Hok3 & Hunits3).
  rewrite Hunits0 in Hunits3. by split_and!.
Qed.

Lemma convert_to_utf16_utf32 (plain_char_signed little_endian : bool)
    (cps : list Z) (s : string) :
  buffer_ok s -> Forall scalar32 cps -> Z.of_nat (length cps) < 2 ^ 60 ->
  match convert_to_utf16 plain_char_signed
          (flat_map (if little_endian then utf32le_of_scalar else utf32be_of_scalar) cps)
          (4 * Z.of_nat (length cps))
          (if little_endian then UTF32_LE else UTF32_BE) s with
  | Normal _ s' =>
      Forall (fun cp => cp <= 0x10FFFF) cps /\
      holds s' (flat_map utf16_of_scalar cps)
  | Throw e _ =>
      ~ Forall (fun cp => cp <= 0x10FFFF) cps /\ kind_of e = InvalidCodepoint
  | Undefined | OutOfFuel => False
  end.
Proof.
  intros Hok Hall Hsize. unfold convert_to_utf16.
  rewrite (proj2 (Z.eqb_neq _ (-1))) by lia.
  unfold bind at 1. unfold ret at 1. rewrite to_size_type_small by lia.
  destruct little_endian.
  - apply (convert_utf32_spec scalar_le (flat_map utf32le_of_scalar));
      [apply scalar_le_bytes|done..].
  - apply (convert_utf32_spec scalar_be (flat_map utf32be_of_scalar));
      [apply scalar_be_bytes|done..].
Qed.

(** X19: the two 32-bit decoders, on the bytes of a sequence of scalars in
    their byte order: when every scalar is at most 0x10FFFF the string holds
    the UTF-16 form of each scalar in order (the scalar itself below
    0x10000, surrogate values included, and the surrogate pair from 0x10000
    on); otherwise the decode throws with [InvalidCodepoint]. *)
Theorem X19_utf32_decode (plain_char_signed little_endian : bool)
    (cps : list Z) (s : string) :
  buffer_ok s -> Forall scalar32 cps -> Z.of_nat (length cps) < 2 ^ 60 ->
  match convert_to_utf16 plain_char_signed
          (flat_map (if little_endian then utf32le_of_scalar else utf32be_of_scalar) cps)
          (4 * Z.of_nat (length cps))
          (if little_endian then UTF32_LE else UTF32_BE) s with
  | Normal _ s' =>
      Forall (fun cp => cp <= 0x10FFFF) cps /\
      holds s' (flat_map utf16_of_scalar cps)
  | Throw e _ =>
      ~ Forall (fun cp => cp <= 0x10FFFF) cps /\ kind_of e = InvalidCodepoint
  | Undefined | OutOfFuel => False
  end.
Proof. apply convert_to_utf16_utf32. Qed.

Lemma X19_utf32_decode_witness :
  match convert_to_utf16 false (flat_map utf32le_of_scalar [0x1F600])
          (4 * Z.of_nat (length [0x1F600])) UTF32_LE default_members with
  | Normal _ s' =>
      Forall (fun cp => cp <= 0x10FFFF) [0x1F600] /\
      holds s' (flat_map utf16_of_scalar [0x1F600])
  | Throw e _ =>
      ~ Forall (fun cp => cp <= 0x10FFFF) [0x1F600] /\ kind_of e = InvalidCodepoint
  | Undefined | OutOfFuel => False
  end.
Proof.
  apply (X19_utf32_decode false true [0x1F600] default_members);
    [apply default_members_ok|repeat constructor; unfold scalar32; lia|cbn; lia].
Defined.

(** ** Further properties: the UTF-8 decoder *)

(** The reference encodings on the four lengths of UTF-8. *)
Example reference_encodings :
  utf8_of_scalar 0x48 = [0x48] /\ utf16_of_scalar 0x48 = [0x48] /\
  utf8_of_scalar 0xE9 = [0xC3; 0xA9] /\ utf16_of_scalar 0xE9 = [0xE9] /\
  utf8_of_scalar 0x20AC = [0xE2; 0x82; 0xAC] /\ utf16_of_scalar 0x20AC = [0x20AC] /\
  utf8_of_scalar 0x1F600 = [0xF0; 0x9F; 0x98; 0x80] /\
  utf16_of_scalar 0x1F600 = [0xD83D; 0xDE00].
Proof. by vm_compute. Qed.

Lemma range_check (P : Z -> bool) (n : nat) :
  forallb P (Z.of_nat <$> seq 0 n) = true ->
  forall b, 0 <= b < Z.of_nat n -> P b = true.
Proof.
  intros Hall b Hb. rewrite forallb_forall in Hall. apply Hall.
  rewrite <- (Z2Nat.id b) by lia. apply in_map, in_seq. lia.
Qed.

Lemma lead2_bits h :
  0 <= h < 32 ->
  (Z.land (0xC0 + h) 0xE0 =? 0xC0) = true /\ Z.land (0xC0 + h) 0x1F = h.
Proof.
  intros Hh.
  pose proof (range_check
    (fun h => (Z.land (0xC0 + h) 0xE0 =? 0xC0) && (Z.land (0xC0 + h) 0x1F =? h))
    32 ltac:(vm_compute; reflexivity) h Hh) as H.
  cbv beta in H. apply andb_true_iff in H as [H1 H2]. by apply Z.eqb_eq in H2.
Qed.

Lemma lead3_bits h :
  0 <= h < 16 ->
  (Z.land (0xE0 + h) 0xE0 =? 0xC0) = false /\
  (Z.land (0xE0 + h) 0xF0 =? 0xE0) = true /\
  Z.land (0xE0 + h) 0x0F = h.
Proof.
  intros Hh.
  pose proof (range_check
    (fun h => negb (Z.land (0xE0 + h) 0xE0 =? 0xC0) &&
              (Z.land (0xE0 + h) 0xF0 =? 0xE0) && (Z.land (0xE0 + h) 0x0F =? h))
    16 ltac:(vm_compute; reflexivity) h Hh) as H.
  cbv beta in H. apply andb_true_iff in H as [H H3].
  apply andb_true_iff in H as [H1 H2]. apply negb_true_iff in H1.
  by apply Z.eqb_eq in H3.
Qed.

Lemma lead4_bits h :
  0 <= h < 8 ->
  (Z.land (0xF0 + h) 0xE0 =? 0xC0) = false /\
  (Z.land (0xF0 + h) 0xF0 =? 0xE0) = false /\
  (Z.land (0xF0 + h) 0xF8 =? 0xF0) = true /\
  Z.land (0xF0 + h) 0x07 = h.
Proof.
  intros Hh.
  pose proof (range_check
    (fun h => negb (Z.land (0xF0 + h) 0xE0 =? 0xC0) &&
              negb (Z.land (0xF0 + h) 0xF0 =? 0xE0) &&
              (Z.land (0xF0 + h) 0xF8 =? 0xF0) && (Z.land (0xF0 + h) 0x07 =? h))
    8 ltac:(vm_compute; reflexivity) h Hh) as H.
  cbv beta in H. apply andb_true_iff in H as [H H4].
  apply andb_true_iff in H as [H H3]. apply andb_true_iff in H as [H1 H2].
  apply negb_true_iff in H1, H2. by apply Z.eqb_eq in H4.
Qed.

Lemma continuation_bits l :
  0 <= l < 64 ->
  (Z.land (0x80 + l) 0xC0 =? 0x80) = true /\ Z.land (0x80 + l) 0x3F = l.
Proof.
  intros Hl.
  pose proof (range_check
    (fun l => (Z.land (0x80 + l) 0xC0 =? 0x80) && (Z.land (0x80 + l) 0x3F =? l))
    64 ltac:(vm_compute; reflexivity) l Hl) as H.
  cbv beta in H. apply andb_true_iff in H as [H1 H2]. by apply Z.eqb_eq in H2.
Qed.

Lemma char_at_middle pre bs post (j : nat) b s :
  bs !! j = Some b ->
  char_at (pre ++ bs ++ post) (Z.of_nat (length pre) + Z.of_nat j) s = Normal b s.
Proof.
  intros Hj. replace (Z.of_nat (length pre) + Z.of_nat j)
    with (Z.of_nat (length pre + j)) by lia.
  apply char_at_lookup. rewrite lookup_app_r by lia.
  replace (length pre + j - length pre)%nat with j by lia.
  by apply lookup_app_l_Some.
Qed.

Lemma ensure_capacity_enough required s :
  required <= _str_capacity s -> ensure_capacity required s = Normal tt s.
Proof.
  intros Hle. unfold ensure_capacity. by rewrite (proj2 (Z.ltb_ge _ _)) by lia.
Qed.

Lemma take_insert_next {A} (buf : list A) (idx : nat) v :
  (idx < length buf)%nat -> take (S idx) (<[idx := v]> buf) = take idx buf ++ [v].
Proof.
  intros Hidx. rewrite (take_S_r _ _ v) by (by apply list_lookup_insert_eq).
  by rewrite take_insert_ge.
Qed.

Lemma assemble2 cp : 0 <= cp -> Z.lor (Z.shiftl (cp / 64) 6) (cp mod 64) = cp.
Proof.
  intros Hcp. rewrite Z.shiftl_mul_pow2 by lia.
  rewrite (lor_add (cp / 64 * 2 ^ 6) (cp mod 64) 6) by div_lia. div_lia.
Qed.

Lemma assemble3 cp :
  0 <= cp ->
  Z.lor (Z.lor (Z.shiftl (cp / 64 / 64) 12) (Z.shiftl (cp / 64 mod 64) 6)) (cp mod 64)
  = cp.
Proof.
  intros Hcp. rewrite !Z.shiftl_mul_pow2 by lia.
  rewrite (lor_add (cp / 64 / 64 * 2 ^ 12) (cp / 64 mod 64 * 2 ^ 6) 12) by div_lia.
  rewrite (lor_add _ (cp mod 64) 6) by div_lia. div_lia.
Qed.

Lemma assemble4 cp :
  0 <= cp ->
  Z.lor (Z.lor (Z.lor (Z.shiftl (cp / 64 / 64 / 64) 18)
                      (Z.shiftl (cp / 64 / 64 mod 64) 12))
               (Z.shiftl (cp / 64 mod 64) 6))
        (cp mod 64) = cp.
Proof.
  intros Hcp. rewrite !Z.shiftl_mul_pow2 by lia.
  rewrite (lor_add (cp / 64 / 64 / 64 * 2 ^ 18) (cp / 64 / 64 mod 64 * 2 ^ 12) 18)
    by div_lia.
  rewrite (lor_add _ (cp / 64 mod 64 * 2 ^ 6) 12) by div_lia.
  rewrite (lor_add _ (cp mod 64) 6) by div_lia. div_lia.
Qed.

(** The loop of the UTF-8 decoder over the bytes of the scalars [cps]: it
    stores their UTF-16 forms and goes on behind them. *)
Lemma convert_utf8_loop_prefix post l c n cps :
  Forall scalar_value cps ->
  forall (extra : nat) pre buf (idx : nat),
    Z.of_nat (length pre + length (flat_map utf8_of_scalar cps)) <= n ->
    (idx + length (flat_map utf16_of_scalar cps) <= length buf)%nat ->
    Z.of_nat (length buf) = c ->
    exists buf',
      convert_utf8_loop (length cps + extra) (pre ++ flat_map utf8_of_scalar cps ++ post)
        n (Z.of_nat (length pre)) (Z.of_nat idx) (mk_string (Some buf) l c)
      = convert_utf8_loop extra (pre ++ flat_map utf8_of_scalar cps ++ post) n
          (Z.of_nat (length pre + length (flat_map utf8_of_scalar cps)))
          (Z.of_nat (idx + length (flat_map utf16_of_scalar cps)))
          (mk_string (Some buf') l c) /\
      length buf' = length buf /\
      take (idx + length (flat_map utf16_of_scalar cps)) buf' =
        take idx buf ++ (Some <$> flat_map utf16_of_scalar cps).
Proof.
  induction 1 as [|cp cps Hcp Hall IH]; intros extra pre buf idx Hn Hroom Hc.
  { exists buf. cbn [flat_map length app fmap list_fmap Nat.add]. rewrite !Nat.add_0_r.
    split; [done|split; [done|by rewrite app_nil_r]]. }
  cbn [flat_map length Nat.add] in *. rewrite length_app in Hroom.
  set (rest := flat_map utf8_of_scalar cps) in *.
  set (rest16 := flat_map utf16_of_scalar cps) in *.
  set (st := mk_string (Some buf) l c).
  assert (forall (bs us : list Z) buf1,
            utf8_of_scalar cp = bs -> utf16_of_scalar cp = us ->
            length buf1 = length buf ->
            take (idx + length us) buf1 = take idx buf ++ (Some <$> us) ->
            exists buf',
              convert_utf8_loop (length cps + extra) (pre ++ (bs ++ rest) ++ post) n
                (Z.of_nat (length pre) + Z.of_nat (length bs))
                (Z.of_nat idx + Z.of_nat (length us))
                (mk_string (Some buf1) l c)
              = convert_utf8_loop extra (pre ++ (bs ++ rest) ++ post) n
                  (Z.of_nat (length pre + length (bs ++ rest)))
                  (Z.of_nat (idx + length (us ++ rest16)))
                  (mk_string (Some buf') l c) /\
              length buf' = length buf /\
              take (idx + length (us ++ rest16)) buf' =
                take idx buf ++ (Some <$> us ++ rest16)) as Hnext.
  { intros bs us buf1 Hbs Hus Hlen1 Htake1. rewrite Hus in Hroom. rewrite Hbs in Hn.
    destruct (IH extra (pre ++ bs) buf1 (idx + length us)%nat)
      as (buf' & Hrun & Hlen' & Htake');
      [fold rest; rewrite !length_app in *; lia|fold rest16; lia|lia|].
    exists buf'. fold rest rest16 in Hrun, Htake'.
    rewrite <- !app_assoc in Hrun. rewrite <- !app_assoc.
    rewrite !length_app in *. rewrite !Nat2Z.inj_add in *.
    rewrite !Nat.add_assoc, !Z.add_assoc in *.
    split; [exact Hrun|]. split; [lia|].
    rewrite Htake', Htake1, fmap_app. by rewrite <- app_assoc. }
  assert (idx < length buf)%nat as Hidx.
  { pose proof (length_utf16_of_scalar cp). unfold utf16_of_scalar in *.
    destruct (cp <? 0x10000); cbn [length] in *; lia. }
  unfold scalar_value in Hcp.
  cbn [convert_utf8_loop].
  destruct (Z.ltb_spec cp 0x80) as [Hc1|Hc1].
  - assert (utf8_of_scalar cp = [cp]) as Hbs.
    { unfold utf8_of_scalar. by rewrite (proj2 (Z.ltb_lt cp 0x80)) by lia. }
    assert (utf16_of_scalar cp = [cp]) as Hus.
    { unfold utf16_of_scalar. by rewrite (proj2 (Z.ltb_lt cp _)) by lia. }
    rewrite Hbs, Hus.
    rewrite (proj2 (Z.ltb_lt (Z.of_nat (length pre)) _))
      by (rewrite Hbs, length_app in Hn; cbn [length] in Hn; lia).
    pose proof (char_at_middle pre ([cp] ++ rest) post 0 cp st eq_refl) as H0.
    change (Z.of_nat 0) with 0 in H0. rewrite Z.add_0_r in H0.
    rewrite (bind_Normal _ _ _ _ _ H0). cbv beta.
    rewrite (proj2 (Z.ltb_lt cp 0x80)) by lia.
    rewrite (bind_Normal _ _ _ _ _ (ensure_capacity_enough (Z.of_nat idx + 1) st ltac:(cbn; lia))).
    rewrite (bind_Normal _ _ _ _ _ (write_ptr_at buf l c idx cp Hidx)).
    apply (Hnext [cp] [cp] _ Hbs Hus); [by rewrite length_insert|].
    cbn [length]. rewrite Nat.add_1_r. by apply take_insert_next.
  - destruct (Z.ltb_spec cp 0x800) as [Hc2|Hc2].
    + assert (utf8_of_scalar cp = [0xC0 + cp / 64; 0x80 + cp mod 64]) as Hbs.
      { unfold utf8_of_scalar. rewrite (proj2 (Z.ltb_ge cp 0x80)) by lia.
        by rewrite (proj2 (Z.ltb_lt cp 0x800)) by lia. }
      assert (utf16_of_scalar cp = [cp]) as Hus.
      { unfold utf16_of_scalar. by rewrite (proj2 (Z.ltb_lt cp _)) by lia. }
      rewrite Hbs, Hus.
      rewrite (proj2 (Z.ltb_lt (Z.of_nat (length pre)) _))
        by (rewrite Hbs, length_app in Hn; cbn [length] in Hn; lia).
      pose proof (char_at_middle pre ([0xC0 + cp / 64; 0x80 + cp mod 64] ++ rest)
                    post 0 _ st eq_refl) as H0.
      pose proof (char_at_middle pre ([0xC0 + cp / 64; 0x80 + cp mod 64] ++ rest)
                    post 1 _ st eq_refl) as H1.
      change (Z.of_nat 0) with 0 in H0. rewrite Z.add_0_r in H0.
      change (Z.of_nat 1) with 1 in H1.
      destruct (lead2_bits (cp / 64) ltac:(div_lia)) as [Ht0 Hv0].
      destruct (continuation_bits (cp mod 64) ltac:(div_lia)) as [Ht1 Hv1].
      rewrite (bind_Normal _ _ _ _ _ H0). cbv beta.
      rewrite (proj2 (Z.ltb_ge (0xC0 + cp / 64) 0x80)) by div_lia.
      rewrite Ht0.
      rewrite (proj2 (Z.leb_gt _ (Z.of_nat (length pre) + 1)))
        by (rewrite Hbs, length_app in Hn; cbn [length] in Hn; lia).
      rewrite (bind_Normal _ _ _ _ _ H1). cbv beta.
      rewrite Ht1. cbn [negb]. cbv zeta. rewrite Hv0, Hv1, assemble2 by lia.
      unfold to_data_type. rewrite Z.mod_small by lia.
      rewrite (bind_Normal _ _ _ _ _ (ensure_capacity_enough (Z.of_nat idx + 1) st ltac:(cbn; lia))).
      rewrite (bind_Normal _ _ _ _ _ (write_ptr_at buf l c idx cp Hidx)).
      apply (Hnext _ [cp] _ Hbs Hus); [by rewrite length_insert|].
      cbn [length]. rewrite Nat.add_1_r. by apply take_insert_next.
    + destruct (Z.ltb_spec cp 0x10000) as [Hc3|Hc3].
      * assert (utf8_of_scalar cp =
                [0xE0 + cp / 64 / 64; 0x80 + cp / 64 mod 64; 0x80 + cp mod 64]) as Hbs.
        { unfold utf8_of_scalar. rewrite (proj2 (Z.ltb_ge cp 0x80)) by lia.
          rewrite (proj2 (Z.ltb_ge cp 0x800)) by lia.
          by rewrite (proj2 (Z.ltb_lt cp 0x10000)) by lia. }
        assert (utf16_of_scalar cp = [cp]) as Hus.
        { unfold utf16_of_scalar. by rewrite (proj2 (Z.ltb_lt cp _)) by lia. }
        rewrite Hbs, Hus.
        rewrite (proj2 (Z.ltb_lt (Z.of_nat (length pre)) _))
          by (rewrite Hbs, length_app in Hn; cbn [length] in Hn; lia).
        pose proof (char_at_middle pre (_ ++ rest) post 0 _ st
                      (eq_refl : ([0xE0 + cp / 64 / 64; 0x80 + cp / 64 mod 64;
                                   0x80 + cp mod 64] ++ rest) !! 0%nat = Some _)) as H0.
        pose proof (char_at_middle pre (_ ++ rest) post 1 _ st
                      (eq_refl : ([0xE0 + cp / 64 / 64; 0x80 + cp / 64 mod 64;
                                   0x80 + cp mod 64] ++ rest) !! 1%nat = Some _)) as H1.
        pose proof (char_at_middle pre (_ ++ rest) post 2 _ st
                      (eq_refl : ([0xE0 + cp / 64 / 64; 0x80 + cp / 64 mod 64;
                                   0x80 + cp mod 64] ++ rest) !! 2%nat = Some _)) as H2.
        change (Z.of_nat 0) with 0 in H0. rewrite Z.add_0_r in H0.
        change (Z.of_nat 1) with 1 in H1. change (Z.of_nat 2) with 2 in H2.
        destruct (lead3_bits (cp / 64 / 64) ltac:(div_lia)) as (Ht0 & Ht0' & Hv0).
        destruct (continuation_bits (cp / 64 mod 64) ltac:(div_lia)) as [Ht1 Hv1].
        destruct (continuation_bits (cp mod 64) ltac:(div_lia)) as [Ht2 Hv2].
        rewrite (bind_Normal _ _ _ _ _ H0). cbv beta.
        rewrite (proj2 (Z.ltb_ge (0xE0 + cp / 64 / 64) 0x80)) by div_lia.
        rewrite Ht0, Ht0'.
        rewrite (proj2 (Z.leb_gt _ (Z.of_nat (length pre) + 2)))
          by (rewrite Hbs, length_app in Hn; cbn [length] in Hn; lia).
        rewrite (bind_Normal _ _ _ _ _ H1). cbv beta.
        rewrite (bind_Normal _ _ _ _ _ H2). cbv beta.
        rewrite Ht1, Ht2. cbn [negb orb]. cbv zeta.
        rewrite Hv0, Hv1, Hv2, assemble3 by lia.
        unfold to_data_type. rewrite Z.mod_small by lia.
        rewrite (bind_Normal _ _ _ _ _ (ensure_capacity_enough (Z.of_nat idx + 1) st ltac:(cbn; lia))).
        rewrite (bind_Normal _ _ _ _ _ (write_ptr_at buf l c idx cp Hidx)).
        apply (Hnext _ [cp] _ Hbs Hus); [by rewrite length_insert|].
        cbn [length]. rewrite Nat.add_1_r. by apply take_insert_next.
      * assert (utf8_of_scalar cp =
                [0xF0 + cp / 64 / 64 / 64; 0x80 + cp / 64 / 64 mod 64;
                 0x80 + cp / 64 mod 64; 0x80 + cp mod 64]) as Hbs.
        { unfold utf8_of_scalar. rewrite (proj2 (Z.ltb_ge cp 0x80)) by lia.
          rewrite (proj2 (Z.ltb_ge cp 0x800)) by lia.
          by rewrite (proj2 (Z.ltb_ge cp 0x10000)) by lia. }
        assert (utf16_of_scalar cp =
                [0xD800 + (cp - 0x10000) / 0x400; 0xDC00 + (cp - 0x10000) mod 0x400])
          as Hus.
        { unfold utf16_of_scalar. by rewrite (proj2 (Z.ltb_ge cp _)) by lia. }
        rewrite Hus in Hroom. cbn [length] in Hroom.
        rewrite Hbs, Hus.
        rewrite (proj2 (Z.ltb_lt (Z.of_nat (length pre)) _))
          by (rewrite Hbs, length_app in Hn; cbn [length] in Hn; lia).
        pose proof (char_at_middle pre (_ ++ rest) post 0 _ st
                      (eq_refl : ([0xF0 + cp / 64 / 64 / 64; 0x80 + cp / 64 / 64 mod 64;
                                   0x80 + cp / 64 mod 64; 0x80 + cp mod 64] ++ rest)
                                 !! 0%nat = Some _)) as H0.
        pose proof (char_at_middle pre (_ ++ rest) post 1 _ st
                      (eq_refl : ([0xF0 + cp / 64 / 64 / 64; 0x80 + cp / 64 / 64 mod 64;
                                   0x80 + cp / 64 mod 64; 0x80 + cp mod 64] ++ rest)
                                 !! 1%nat = Some _)) as H1.
        pose proof (char_at_middle pre (_ ++ rest) post 2 _ st
                      (eq_refl : ([0xF0 + cp / 64 / 64 / 64; 0x80 + cp / 64 / 64 mod 64;
                                   0x80 + cp / 64 mod 64; 0x80 + cp mod 64] ++ rest)
                                 !! 2%nat = Some _)) as H2.
        pose proof (char_at_middle pre (_ ++ rest) post 3 _ st
                      (eq_refl : ([0xF0 + cp / 64 / 64 / 64; 0x80 + cp / 64 / 64 mod 64;
                                   0x80 + cp / 64 mod 64; 0x80 + cp mod 64] ++ rest)
                                 !! 3%nat = Some _)) as H3.
        change (Z.of_nat 0) with 0 in H0. rewrite Z.add_0_r in H0.
        change (Z.of_nat 1) with 1 in H1. change (Z.of_nat 2) with 2 in H2.
        change (Z.of_nat 3) with 3 in H3.
        destruct (lead4_bits (cp / 64 / 64 / 64) ltac:(div_lia))
          as (Ht0 & Ht0' & Ht0'' & Hv0).
        destruct (continuation_bits (cp / 64 / 64 mod 64) ltac:(div_lia)) as [Ht1 Hv1].
        destruct (continuation_bits (cp / 64 mod 64) ltac:(div_lia)) as [Ht2 Hv2].
        destruct (continuation_bits (cp mod 64) ltac:(div_lia)) as [Ht3 Hv3].
        destruct (surrogates_of_scalar cp ltac:(lia)) as [Hhigh Hlow].
        rewrite (bind_Normal _ _ _ _ _ H0). cbv beta.
        rewrite (proj2 (Z.ltb_ge (0xF0 + cp / 64 / 64 / 64) 0x80)) by div_lia.
        rewrite Ht0, Ht0', Ht0''.
        rewrite (proj2 (Z.leb_gt _ (Z.of_nat (length pre) + 3)))
          by (rewrite Hbs, length_app in Hn; cbn [length] in Hn; lia).
        rewrite (bind_Normal _ _ _ _ _ H1). cbv beta.
        rewrite (bind_Normal _ _ _ _ _ H2). cbv beta.
        rewrite (bind_Normal _ _ _ _ _ H3). cbv beta.
        rewrite Ht1, Ht2, Ht3. cbn [negb orb]. cbv zeta.
        rewrite Hv0, Hv1, Hv2, Hv3, assemble4 by lia.
        rewrite Hhigh, Hlow.
        rewrite (bind_Normal _ _ _ _ _ (ensure_capacity_enough (Z.of_nat idx + 2) st ltac:(cbn; lia))).
        rewrite (bind_Normal _ _ _ _ _ (write_ptr_at buf l c idx _ Hidx)).
        replace (Z.of_nat idx + 1) with (Z.of_nat (S idx)) by lia.
        rewrite (bind_Normal _ _ _ _ _
                   (write_ptr_at (<[idx := Some (0xD800 + (cp - 0x10000) / 0x400)]> buf)
                      l c (S idx) (0xDC00 + (cp - 0x10000) mod 0x400)
                      ltac:(rewrite length_insert; lia))).
        apply (Hnext _ _ _ Hbs Hus); [by rewrite !length_insert|].
        cbn [length]. replace (idx + 2)%nat with (S (S idx)) by lia.
        rewrite take_insert_next by (rewrite length_insert; lia).
        rewrite take_insert_next by lia. by rewrite <- app_assoc.
Qed.

Lemma convert_utf8_loop_spec post l c cps :
  Forall scalar_value cps ->
  forall (fuel : nat) pre buf (idx : nat),
    (length cps <= fuel)%nat ->
    (idx + length (flat_map utf16_of_scalar cps) <= length buf)%nat ->
    Z.of_nat (length buf) = c ->
    exists buf',
      convert_utf8_loop fuel (pre ++ flat_map utf8_of_scalar cps ++ post)
        (Z.of_nat (length pre + length (flat_map utf8_of_scalar cps)))
        (Z.of_nat (length pre)) (Z.of_nat idx) (mk_string (Some buf) l c)
      = Normal (Z.of_nat (idx + length (flat_map utf16_of_scalar cps)))
          (mk_string (Some buf') l c) /\
      length buf' = length buf /\
      take (idx + length (flat_map utf16_of_scalar cps)) buf' =
        take idx buf ++ (Some <$> flat_map utf16_of_scalar cps).
Proof.
  intros Hall fuel pre buf idx Hfuel Hroom Hc.
  destruct (convert_utf8_loop_prefix post l c _ cps Hall (fuel - length cps) pre buf idx
              ltac:(reflexivity) Hroom Hc) as (buf' & Hrun & Hlen & Htake).
  exists buf'. split; [|done].
  replace (length cps + (fuel - length cps))%nat with fuel in Hrun by lia.
  rewrite Hrun. destruct (fuel - length cps)%nat; cbn [convert_utf8_loop];
    by rewrite Z.ltb_irrefl.
Qed.

Lemma length_utf8_of_scalar cp :
  (length (utf16_of_scalar cp) <= length (utf8_of_scalar cp))%nat /\
  (1 <= length (utf8_of_scalar cp))%nat.
Proof.
  unfold utf16_of_scalar, utf8_of_scalar.
  destruct (Z.ltb_spec cp 0x80); destruct (Z.ltb_spec cp 0x800);
    destruct (Z.ltb_spec cp 0x10000); cbn [length]; lia.
Qed.

Lemma length_flat_map_utf8 cps :
  (length (flat_map utf16_of_scalar cps) <= length (flat_map utf8_of_scalar cps))%nat /\
  (length cps <= length (flat_map utf8_of_scalar cps))%nat.
Proof.
  induction cps as [|cp cps IH]; [done|]. cbn [flat_map length].
  rewrite !length_app. pose proof (length_utf8_of_scalar cp). lia.
Qed.

Lemma utf8_of_scalar_nonzero cps :
  Forall scalar_value cps -> Forall (fun cp => cp <> 0) cps ->
  Forall (fun b => b <> 0) (flat_map utf8_of_scalar cps).
Proof.
  intros Hall Hnz. induction Hall as [|cp cps Hcp Hall IH]; [done|].
  inversion Hnz as [|? ? Hcp0 Hnz']; subst. cbn [flat_map].
  apply Forall_app. split; [|by apply IH].
  unfold scalar_value in Hcp. unfold utf8_of_scalar.
  destruct (Z.ltb_spec cp 0x80); [|destruct (Z.ltb_spec cp 0x800);
    [|destruct (Z.ltb_spec cp 0x10000)]];
    repeat constructor; div_lia.
Qed.

(** The UTF-8 case of [convert_to_utf16], after [true_len] is known. *)
Lemma convert_utf8_spec cps post s :
  Forall scalar_value cps -> buffer_ok s ->
  Z.of_nat (length (flat_map utf8_of_scalar cps)) < 2 ^ 63 ->
  exists s',
    (ensure_capacity (Z.of_nat (length (flat_map utf8_of_scalar cps))) ;;
     set_len 0 ;;
     convert_utf8_to_utf16 (flat_map utf8_of_scalar cps ++ post)
       (Z.of_nat (length (flat_map utf8_of_scalar cps)))) s = Normal tt s' /\
    holds s' (flat_map utf16_of_scalar cps).
Proof.
  intros Hall Hok Hsize.
  destruct (length_flat_map_utf8 cps) as [Hunits Hcount].
  set (bytes := flat_map utf8_of_scalar cps) in *.
  destruct (ensure_capacity_spec (Z.of_nat (length bytes)) s Hok ltac:(lia))
    as (s1 & Hgrow & Hok1 & _ & _ & Hcap1).
  pose proof (grown_capacity_ge (_str_capacity s) (Z.of_nat (length bytes))) as [Hge _].
  rewrite (bind_Normal _ _ _ _ _ Hgrow).
  unfold bind at 1. unfold set_len at 1. unfold convert_utf8_to_utf16.
  destruct s1 as [p l c]. destruct Hok1 as (Hl & Hc & Hbuf). cbn in *.
  destruct p as [buf|].
  - destruct (convert_utf8_loop_spec post 0 c cps Hall (Z.to_nat (Z.of_nat (length bytes)))
                [] buf 0 ltac:(lia) ltac:(cbn; lia) Hbuf)
      as (buf' & Hrun & Hlen' & Htake').
    cbn [app length Nat.add] in Hrun, Htake'. fold bytes in Hrun.
    change (Z.of_nat 0) with 0 in Hrun.
    rewrite (bind_Normal _ _ _ _ _ Hrun).
    eexists. split; [reflexivity|]. cbn [ptr len _str_capacity].
    apply holds_intro; try done; lia.
  - assert (cps = []) as -> by (destruct cps; [done|cbn in *; lia]).
    eexists. split; [reflexivity|]. split; [|done].
    unfold buffer_ok. cbn. lia.
Qed.

Lemma convert_to_utf16_utf8 (plain_char_signed : bool) (cps post : list Z) (s : string) :
  buffer_ok s -> Forall scalar_value cps ->
  Z.of_nat (length (flat_map utf8_of_scalar cps)) < 2 ^ 63 ->
  (exists s',
     convert_to_utf16 plain_char_signed (flat_map utf8_of_scalar cps ++ post)
       (Z.of_nat (length (flat_map utf8_of_scalar cps))) UTF8 s = Normal tt s' /\
     holds s' (flat_map utf16_of_scalar cps)) /\
  (Forall (fun cp => cp <> 0) cps ->
   exists s',
     convert_to_utf16 plain_char_signed (flat_map utf8_of_scalar cps ++ 0 :: post)
       (-1) UTF8 s = Normal tt s' /\
     holds s' (flat_map utf16_of_scalar cps)).
Proof.
  intros Hok Hall Hsize. split.
  - unfold convert_to_utf16. rewrite (proj2 (Z.eqb_neq _ (-1))) by lia.
    unfold bind at 1. unfold ret at 1. rewrite to_size_type_small by lia.
    by apply convert_utf8_spec.
  - intros Hnz. unfold convert_to_utf16. rewrite Z.eqb_refl.
    unfold bind at 1. unfold strlen_m, strlen.
    rewrite (strlen_from_nonzero _ post 0 (utf8_of_scalar_nonzero cps Hall Hnz)).
    rewrite Z.add_0_l. by apply convert_utf8_spec.
Qed.

(** X20: the UTF-8 decoder, on the UTF-8 bytes of any sequence of scalar
    values, leaves the UTF-16 form of each scalar in order: one unit for a
    scalar below 0x10000 and the surrogate pair from 0x10000 on.  The length
    is the one given, or with the default length that of the bytes up to
    the terminator, when no scalar is zero. *)
Theorem X20_utf8_decode (plain_char_signed : bool) (cps post : list Z) (s : string) :
  buffer_ok s -> Forall scalar_value cps ->
  Z.of_nat (length (flat_map utf8_of_scalar cps)) < 2 ^ 63 ->
  (exists s',
     convert_to_utf16 plain_char_signed (flat_map utf8_of_scalar cps ++ post)
       (Z.of_nat (length (flat_map utf8_of_scalar cps))) UTF8 s = Normal tt s' /\
     holds s' (flat_map utf16_of_scalar cps)) /\
  (Forall (fun cp => cp <> 0) cps ->
   exists s',
     convert_to_utf16 plain_char_signed (flat_map utf8_of_scalar cps ++ 0 :: post)
       (-1) UTF8 s = Normal tt s' /\
     holds s' (flat_map utf16_of_scalar cps)).
Proof. apply convert_to_utf16_utf8. Qed.

Lemma X20_utf8_decode_witness :
  (exists s',
     convert_to_utf16 false (flat_map utf8_of_scalar [0xE9; 0x1F600] ++ [])
       (Z.of_nat (length (flat_map utf8_of_scalar [0xE9; 0x1F600]))) UTF8
       default_members = Normal tt s' /\
     holds s' (flat_map utf16_of_scalar [0xE9; 0x1F600])) /\
  (exists s',
     convert_to_utf16 false (flat_map utf8_of_scalar [0xE9; 0x1F600] ++ 0 :: [])
       (-1) UTF8 default_members = Normal tt s' /\
     holds s' (flat_map utf16_of_scalar [0xE9; 0x1F600])).
Proof.
  destruct (X20_utf8_decode false [0xE9; 0x1F600] [] default_members)
    as [Hexplicit Hdefault];
    [apply default_members_ok|repeat constructor; unfold scalar_value; lia|
     vm_compute; reflexivity|].
  split; [exact Hexplicit|]. apply Hdefault. repeat constructor; lia.
Defined.

(** ** Further properties: the detector on UTF-8 input *)

Lemma heuristic_lead fuel str n i count b s :
  i < n -> char_at str i s = Normal b s ->
  detect_utf8_heuristic_loop (S fuel) str n i count 0 s =
  (if b <=? 0x7F then detect_utf8_heuristic_loop fuel str n (i + 1) count 0
   else if Z.land b 0xE0 =? 0xC0
        then detect_utf8_heuristic_loop fuel str n (i + 1) (count + 1) 1
   else if Z.land b 0xF0 =? 0xE0
        then detect_utf8_heuristic_loop fuel str n (i + 1) (count + 1) 2
   else if Z.land b 0xF8 =? 0xF0
        then detect_utf8_heuristic_loop fuel str n (i + 1) (count + 1) 3
   else ret ASCII) s.
Proof.
  intros Hi Hb. cbn [detect_utf8_heuristic_loop].
  rewrite (proj2 (Z.ltb_lt _ _) Hi). by rewrite (bind_Normal _ _ _ _ _ Hb).
Qed.

Lemma heuristic_continuation fuel str n i count k b s :
  i < n -> char_at str i s = Normal b s ->
  (Z.land b 0xC0 =? 0x80) = true -> 0 < k ->
  detect_utf8_heuristic_loop (S fuel) str n i count k s =
  detect_utf8_heuristic_loop fuel str n (i + 1) count (k - 1) s.
Proof.
  intros Hi Hb Hcont Hk. cbn [detect_utf8_heuristic_loop].
  rewrite (proj2 (Z.ltb_lt _ _) Hi). rewrite (bind_Normal _ _ _ _ _ Hb).
  rewrite (proj2 (Z.eqb_neq k 0)) by lia. by rewrite Hcont.
Qed.

Lemma multibyte_count_nonneg cps : 0 <= multibyte_count cps.
Proof.
  induction cps as [|cp cps IH]; [done|]. cbn [multibyte_count].
  destruct (cp <? 0x80); lia.
Qed.

Lemma multibyte_count_zero cps :
  multibyte_count cps = 0 -> Forall (fun cp => cp < 0x80) cps.
Proof.
  induction cps as [|cp cps IH]; [done|]. cbn [multibyte_count].
  pose proof (multibyte_count_nonneg cps).
  destruct (Z.ltb_spec cp 0x80); [|lia]. intros Hzero. constructor; [done|].
  apply IH. lia.
Qed.

Lemma detect_utf8_heuristic_loop_utf8 post cps :
  Forall scalar_value cps ->
  forall (fuel : nat) pre count s,
    (length (flat_map utf8_of_scalar cps) <= fuel)%nat ->
    detect_utf8_heuristic_loop fuel (pre ++ flat_map utf8_of_scalar cps ++ post)
      (Z.of_nat (length pre + length (flat_map utf8_of_scalar cps)))
      (Z.of_nat (length pre)) count 0 s =
    Normal (if 0 <? count + multibyte_count cps then UTF8 else ASCII) s.
Proof.
  induction 1 as [|cp cps Hcp Hall IH]; intros fuel pre count s Hfuel.
  { cbn [flat_map length multibyte_count]. rewrite Nat.add_0_r, Z.add_0_r.
    destruct fuel; cbn [detect_utf8_heuristic_loop]; by rewrite Z.ltb_irrefl. }
  cbn [flat_map multibyte_count] in *. rewrite length_app in Hfuel.
  set (rest := flat_map utf8_of_scalar cps) in *.
  assert (forall (bs : list Z) fuel' count',
            utf8_of_scalar cp = bs -> (length rest <= fuel')%nat ->
            detect_utf8_heuristic_loop fuel' (pre ++ (bs ++ rest) ++ post)
              (Z.of_nat (length pre + length (bs ++ rest)))
              (Z.of_nat (length pre) + Z.of_nat (length bs)) count' 0 s =
            Normal (if 0 <? count' + multibyte_count cps then UTF8 else ASCII) s)
    as Hnext.
  { intros bs fuel' count' Hbs Hfuel'.
    pose proof (IH fuel' (pre ++ bs) count' s Hfuel') as Hrun. fold rest in Hrun.
    rewrite <- !app_assoc in Hrun. rewrite <- !app_assoc.
    rewrite !length_app in *. rewrite !Nat2Z.inj_add in *.
    rewrite !Z.add_assoc in *. exact Hrun. }
  unfold scalar_value in Hcp.
  destruct (Z.ltb_spec cp 0x80) as [Hc1|Hc1].
  - assert (utf8_of_scalar cp = [cp]) as Hbs.
    { unfold utf8_of_scalar. by rewrite (proj2 (Z.ltb_lt cp 0x80)) by lia. }
    rewrite Hbs in *. cbn [length] in Hfuel.
    assert (forall j, 0 <= j < Z.of_nat (length ([cp])) ->
              Z.of_nat (length pre) + j <
              Z.of_nat (length pre + length ([cp] ++ rest))) as Hin
      by (intros j; rewrite length_app; cbn [length]; lia).
    pose proof (Hin 0 ltac:(cbn [length]; lia)) as Hin0. rewrite Z.add_0_r in Hin0.
    destruct fuel as [|fuel]; [lia|].
    pose proof (char_at_middle pre ([cp] ++ rest) post 0 cp s eq_refl) as H0.
    change (Z.of_nat 0) with 0 in H0. rewrite Z.add_0_r in H0.
    rewrite (heuristic_lead _ _ _ _ _ _ _ Hin0 H0).
    rewrite (proj2 (Z.leb_le cp 0x7F)) by lia.
    rewrite Z.add_0_l. apply (Hnext [cp] _ _ eq_refl). lia.
  - rewrite (Z.add_assoc count 1).
    destruct (Z.ltb_spec cp 0x800) as [Hc2|Hc2].
    + assert (utf8_of_scalar cp = [0xC0 + cp / 64; 0x80 + cp mod 64]) as Hbs.
      { unfold utf8_of_scalar. rewrite (proj2 (Z.ltb_ge cp 0x80)) by lia.
        by rewrite (proj2 (Z.ltb_lt cp 0x800)) by lia. }
      rewrite Hbs in *. cbn [length] in Hfuel.
    assert (forall j, 0 <= j < Z.of_nat (length ([0xC0 + cp / 64; 0x80 + cp mod 64])) ->
              Z.of_nat (length pre) + j <
              Z.of_nat (length pre + length ([0xC0 + cp / 64; 0x80 + cp mod 64] ++ rest))) as Hin
      by (intros j; rewrite length_app; cbn [length]; lia).
    pose proof (Hin 0 ltac:(cbn [length]; lia)) as Hin0. rewrite Z.add_0_r in Hin0.
      destruct fuel as [|[|fuel]]; [lia|lia|].
      pose proof (char_at_middle pre ([0xC0 + cp / 64; 0x80 + cp mod 64] ++ rest)
                    post 0 _ s eq_refl) as H0.
      pose proof (char_at_middle pre ([0xC0 + cp / 64; 0x80 + cp mod 64] ++ rest)
                    post 1 _ s eq_refl) as H1.
      change (Z.of_nat 0) with 0 in H0. rewrite Z.add_0_r in H0.
      change (Z.of_nat 1) with 1 in H1.
      destruct (lead2_bits (cp / 64) ltac:(div_lia)) as [Ht0 _].
      destruct (continuation_bits (cp mod 64) ltac:(div_lia)) as [Ht1 _].
      rewrite (heuristic_lead _ _ _ _ _ _ _ Hin0 H0).
      rewrite (proj2 (Z.leb_gt (0xC0 + cp / 64) 0x7F)) by div_lia. rewrite Ht0.
      rewrite (heuristic_continuation _ _ _ _ _ 1 _ _
                 (Hin 1 ltac:(cbn [length]; lia)) H1 Ht1 ltac:(lia)).
      rewrite <- Z.add_assoc. change (1 + 1) with 2. change (1 - 1) with 0.
      apply (Hnext [0xC0 + cp / 64; 0x80 + cp mod 64] _ _ eq_refl). lia.
    + destruct (Z.ltb_spec cp 0x10000) as [Hc3|Hc3].
      * assert (utf8_of_scalar cp =
                [0xE0 + cp / 64 / 64; 0x80 + cp / 64 mod 64; 0x80 + cp mod 64]) as Hbs.
        { unfold utf8_of_scalar. rewrite (proj2 (Z.ltb_ge cp 0x80)) by lia.
          rewrite (proj2 (Z.ltb_ge cp 0x800)) by lia.
          by rewrite (proj2 (Z.ltb_lt cp 0x10000)) by lia. }
        rewrite Hbs in *. cbn [length] in Hfuel.
    assert (forall j, 0 <= j < Z.of_nat (length ([0xE0 + cp / 64 / 64; 0x80 + cp / 64 mod 64; 0x80 + cp mod 64])) ->
              Z.of_nat (length pre) + j <
              Z.of_nat (length pre + length ([0xE0 + cp / 64 / 64; 0x80 + cp / 64 mod 64; 0x80 + cp mod 64] ++ rest))) as Hin
      by (intros j; rewrite length_app; cbn [length]; lia).
    pose proof (Hin 0 ltac:(cbn [length]; lia)) as Hin0. rewrite Z.add_0_r in Hin0.
        destruct fuel as [|[|[|fuel]]]; [lia|lia|lia|].
        pose proof (char_at_middle pre (_ ++ rest) post 0 _ s
                      (eq_refl : ([0xE0 + cp / 64 / 64; 0x80 + cp / 64 mod 64;
                                   0x80 + cp mod 64] ++ rest) !! 0%nat = Some _)) as H0.
        pose proof (char_at_middle pre (_ ++ rest) post 1 _ s
                      (eq_refl : ([0xE0 + cp / 64 / 64; 0x80 + cp / 64 mod 64;
                                   0x80 + cp mod 64] ++ rest) !! 1%nat = Some _)) as H1.
        pose proof (char_at_middle pre (_ ++ rest) post 2 _ s
                      (eq_refl : ([0xE0 + cp / 64 / 64; 0x80 + cp / 64 mod 64;
                                   0x80 + cp mod 64] ++ rest) !! 2%nat = Some _)) as H2.
        change (Z.of_nat 0) with 0 in H0. rewrite Z.add_0_r in H0.
        change (Z.of_nat 1) with 1 in H1. change (Z.of_nat 2) with 2 in H2.
        destruct (lead3_bits (cp / 64 / 64) ltac:(div_lia)) as (Ht0 & Ht0' & _).
        destruct (continuation_bits (cp / 64 mod 64) ltac:(div_lia)) as [Ht1 _].
        destruct (continuation_bits (cp mod 64) ltac:(div_lia)) as [Ht2 _].
        rewrite (heuristic_lead _ _ _ _ _ _ _ Hin0 H0).
        rewrite (proj2 (Z.leb_gt (0xE0 + cp / 64 / 64) 0x7F)) by div_lia.
        rewrite Ht0, Ht0'.
        rewrite (heuristic_continuation _ _ _ _ _ 2 _ _
                   (Hin 1 ltac:(cbn [length]; lia)) H1 Ht1 ltac:(lia)).
        rewrite <- Z.add_assoc. change (1 + 1) with 2. change (2 - 1) with 1.
        rewrite (heuristic_continuation _ _ _ _ _ 1 _ _
                   (Hin 2 ltac:(cbn [length]; lia)) H2 Ht2 ltac:(lia)).
        rewrite <- Z.add_assoc. change (2 + 1) with 3. change (1 - 1) with 0.
        apply (Hnext [0xE0 + cp / 64 / 64; 0x80 + cp / 64 mod 64; 0x80 + cp mod 64]
                 _ _ eq_refl). lia.
      * assert (utf8_of_scalar cp =
                [0xF0 + cp / 64 / 64 / 64; 0x80 + cp / 64 / 64 mod 64;
                 0x80 + cp / 64 mod 64; 0x80 + cp mod 64]) as Hbs.
        { unfold utf8_of_scalar. rewrite (proj2 (Z.ltb_ge cp 0x80)) by lia.
          rewrite (proj2 (Z.ltb_ge cp 0x800)) by lia.
          by rewrite (proj2 (Z.ltb_ge cp 0x10000)) by lia. }
        rewrite Hbs in *. cbn [length] in Hfuel.
    assert (forall j, 0 <= j < Z.of_nat (length ([0xF0 + cp / 64 / 64 / 64; 0x80 + cp / 64 / 64 mod 64; 0x80 + cp / 64 mod 64; 0x80 + cp mod 64])) ->
              Z.of_nat (length pre) + j <
              Z.of_nat (length pre + length ([0xF0 + cp / 64 / 64 / 64; 0x80 + cp / 64 / 64 mod 64; 0x80 + cp / 64 mod 64; 0x80 + cp mod 64] ++ rest))) as Hin
      by (intros j; rewrite length_app; cbn [length]; lia).
    pose proof (Hin 0 ltac:(cbn [length]; lia)) as Hin0. rewrite Z.add_0_r in Hin0.
        destruct fuel as [|[|[|[|fuel]]]]; [lia|lia|lia|lia|].
        pose proof (char_at_middle pre (_ ++ rest) post 0 _ s
                      (eq_refl : ([0xF0 + cp / 64 / 64 / 64; 0x80 + cp / 64 / 64 mod 64;
                                   0x80 + cp / 64 mod 64; 0x80 + cp mod 64] ++ rest)
                                 !! 0%nat = Some _)) as H0.
        pose proof (char_at_middle pre (_ ++ rest) post 1 _ s
                      (eq_refl : ([0xF0 + cp / 64 / 64 / 64; 0x80 + cp / 64 / 64 mod 64;
                                   0x80 + cp / 64 mod 64; 0x80 + cp mod 64] ++ rest)
                                 !! 1%nat = Some _)) as H1.
        pose proof (char_at_middle pre (_ ++ rest) post 2 _ s
                      (eq_refl : ([0xF0 + cp / 64 / 64 / 64; 0x80 + cp / 64 / 64 mod 64;
                                   0x80 + cp / 64 mod 64; 0x80 + cp mod 64] ++ rest)
                                 !! 2%nat = Some _)) as H2.
        pose proof (char_at_middle pre (_ ++ rest) post 3 _ s
                      (eq_refl : ([0xF0 + cp / 64 / 64 / 64; 0x80 + cp / 64 / 64 mod 64;
                                   0x80 + cp / 64 mod 64; 0x80 + cp mod 64] ++ rest)
                                 !! 3%nat = Some _)) as H3.
        change (Z.of_nat 0) with 0 in H0. rewrite Z.add_0_r in H0.
        change (Z.of_nat 1) with 1 in H1. change (Z.of_nat 2) with 2 in H2.
        change (Z.of_nat 3) with 3 in H3.
        destruct (lead4_bits (cp / 64 / 64 / 64) ltac:(div_lia))
          as (Ht0 & Ht0' & Ht0'' & _).
        destruct (continuation_bits (cp / 64 / 64 mod 64) ltac:(div_lia)) as [Ht1 _].
        destruct (continuation_bits (cp / 64 mod 64) ltac:(div_lia)) as [Ht2 _].
        destruct (continuation_bits (cp mod 64) ltac:(div_lia)) as [Ht3 _].
        rewrite (heuristic_lead _ _ _ _ _ _ _ Hin0 H0).
        rewrite (proj2 (Z.leb_gt (0xF0 + cp / 64 / 64 / 64) 0x7F)) by div_lia.
        rewrite Ht0, Ht0', Ht0''.
        rewrite (heuristic_continuation _ _ _ _ _ 3 _ _
                   (Hin 1 ltac:(cbn [length]; lia)) H1 Ht1 ltac:(lia)).
        rewrite <- Z.add_assoc. change (1 + 1) with 2. change (3 - 1) with 2.
        rewrite (heuristic_continuation _ _ _ _ _ 2 _ _
                   (Hin 2 ltac:(cbn [length]; lia)) H2 Ht2 ltac:(lia)).
        rewrite <- Z.add_assoc. change (2 + 1) with 3. change (2 - 1) with 1.
        rewrite (heuristic_continuation _ _ _ _ _ 1 _ _
                   (Hin 3 ltac:(cbn [length]; lia)) H3 Ht3 ltac:(lia)).
        rewrite <- Z.add_assoc. change (3 + 1) with 4. change (1 - 1) with 0.
        apply (Hnext [0xF0 + cp / 64 / 64 / 64; 0x80 + cp / 64 / 64 mod 64;
                      0x80 + cp / 64 mod 64; 0x80 + cp mod 64] _ _ eq_refl). lia.
Qed.

Lemma detect_encoding_no_bom str len_in n s :
  effective_len str len_in = Some n -> n <= Z.of_nat (length str) ->
  (forall (k : nat) b, Z.of_nat k < n -> str !! k = Some b -> b < 0xF8) ->
  (n < 2 /\ detect_encoding str len_in s = Normal ASCII s) \/
  ((3 <= n /\ exists rest, str = 0xEF :: 0xBB :: 0xBF :: rest) /\
   detect_encoding str len_in s = Normal UTF8 s) \/
  (2 <= n /\ detect_encoding str len_in s = detect_utf8_heuristic str n s).
Proof.
  intros Hn Hlen Hbytes.
  assert (detect_encoding str len_in s = detect_encoding str n s /\ n <> -1) as [-> Hn1].
  { unfold effective_len in Hn.
    destruct (Z.eqb_spec len_in (-1)) as [->|Hne]; [|by simplify_eq].
    unfold detect_encoding, bind at 1, strlen_m. cbn [Z.eqb Pos.eqb].
    rewrite Hn. assert (n <> -1).
    { intros ->. unfold strlen in Hn. clear -Hn.
      assert (forall (bs : list Z) k, 0 <= k -> strlen_from bs k <> Some (-1)) as Hpos.
      { intros bs. induction bs as [|b bs IH]; intros k Hk; cbn; [done|].
        destruct (b =? 0); [intros Heq; simplify_eq; lia|]. apply IH. lia. }
      by apply (Hpos str 0). }
    split; [|done]. unfold bind at 1. by rewrite (proj2 (Z.eqb_neq n (-1))). }
  remember (detect_encoding str n s) as r eqn:Hr.
  unfold detect_encoding in Hr. rewrite (proj2 (Z.eqb_neq n (-1))) in Hr by done.
  unfold bind at 1 in Hr. unfold ret at 1 in Hr. cbv beta iota in Hr.
  destruct (Z.ltb_spec n 2) as [Hshort|Hlong]; [by left|]. right.
  destruct str as [|b0 [|b1 str]]; [cbn in Hlen; lia|cbn in Hlen; lia|].
  pose proof (Hbytes 0%nat b0 ltac:(lia) eq_refl) as Hb0.
  pose proof (Hbytes 1%nat b1 ltac:(lia) eq_refl) as Hb1.
  unfold and_then, byte_is, bind, char_at, ret in Hr.
  change (Z.to_nat 0) with 0%nat in Hr. change (Z.to_nat 1) with 1%nat in Hr.
  change (Z.to_nat 2) with 2%nat in Hr. change (Z.to_nat 3) with 3%nat in Hr.
  cbn [lookup list_lookup Z.leb Z.compare] in Hr.
  rewrite (proj2 (Z.leb_le 2 n)) in Hr by lia.
  rewrite (proj2 (Z.eqb_neq b0 0xFE)), (proj2 (Z.eqb_neq b0 0xFF)) in Hr by lia.
  destruct (Z.leb_spec 3 n) as [H3|H3].
  - destruct str as [|b2 str]; [cbn in Hlen; lia|].
    pose proof (Hbytes 2%nat b2 ltac:(lia) eq_refl) as Hb2.
    cbn [lookup list_lookup] in Hr.
    rewrite (proj2 (Z.eqb_neq b2 0xFE)) in Hr by lia.
    destruct (Z.eqb_spec b0 0xEF) as [->|H0]; [destruct (Z.eqb_spec b1 0xBB) as [->|H1];
      [destruct (Z.eqb_spec b2 0xBF) as [->|H2]|]|].
    + left. split; [|done]. split; [done|]. by eexists.
    + right. split; [done|]. rewrite Hr. by destruct (4 <=? n).
    + right. split; [done|]. rewrite Hr. by destruct (4 <=? n).
    + right. split; [done|]. rewrite Hr.
      destruct (4 <=? n); [|done]. destruct (b0 =? 0); [destruct (b1 =? 0)|]; done.
  - right. split; [done|]. rewrite Hr. rewrite (proj2 (Z.leb_gt 4 n)) by lia. done.
Qed.

Lemma utf8_of_scalar_range cps :
  Forall scalar_value cps ->
  Forall (fun b => 0 <= b < 0xF8) (flat_map utf8_of_scalar cps).
Proof.
  intros Hall. induction Hall as [|cp cps Hcp Hall IH]; [done|]. cbn [flat_map].
  apply Forall_app. split; [|done].
  unfold scalar_value in Hcp. unfold utf8_of_scalar.
  destruct (Z.ltb_spec cp 0x80); [|destruct (Z.ltb_spec cp 0x800);
    [|destruct (Z.ltb_spec cp 0x10000)]];
    repeat constructor; div_lia.
Qed.

Lemma multibyte_count_bytes cps :
  2 * multibyte_count cps <= Z.of_nat (length (flat_map utf8_of_scalar cps)).
Proof.
  induction cps as [|cp cps IH]; [done|]. cbn [flat_map multibyte_count].
  rewrite length_app. unfold utf8_of_scalar at 1.
  destruct (Z.ltb_spec cp 0x80); [|destruct (Z.ltb_spec cp 0x800);
    [|destruct (Z.ltb_spec cp 0x10000)]]; cbn [length]; cbv iota; lia.
Qed.

Lemma multibyte_count_first cps b rest :
  flat_map utf8_of_scalar cps = b :: rest -> 0x80 <= b -> 0 < multibyte_count cps.
Proof.
  destruct cps as [|cp cps]; [done|]. cbn [flat_map multibyte_count].
  pose proof (multibyte_count_nonneg cps). unfold utf8_of_scalar at 1.
  destruct (Z.ltb_spec cp 0x80); [|cbv iota; lia]. intros [= <- _]. lia.
Qed.

Lemma detect_encoding_utf8_input cps post len_in s :
  Forall scalar_value cps ->
  effective_len (flat_map utf8_of_scalar cps ++ post) len_in =
    Some (Z.of_nat (length (flat_map utf8_of_scalar cps))) ->
  detect_encoding (flat_map utf8_of_scalar cps ++ post) len_in s =
  Normal (if 0 <? multibyte_count cps then UTF8 else ASCII) s.
Proof.
  intros Hall Hlen.
  pose proof (utf8_of_scalar_range cps Hall) as Hrange.
  pose proof (multibyte_count_bytes cps) as Hcount.
  pose proof (multibyte_count_nonneg cps) as Hnonneg.
  set (bytes := flat_map utf8_of_scalar cps) in *.
  destruct (detect_encoding_no_bom (bytes ++ post) len_in _ s Hlen)
    as [[Hshort ->]|[[[H3 [rest Hbom]] ->]|[H2 ->]]].
  - rewrite length_app. lia.
  - intros k b Hk Hb. rewrite lookup_app_l in Hb by lia.
    pose proof (proj1 (Forall_lookup _ _) Hrange k b Hb). cbv beta in *. lia.
  - by rewrite (proj2 (Z.ltb_ge 0 _)) by lia.
  - destruct bytes as [|b0 bytes'] eqn:Hbytes; [cbn in H3; lia|].
    cbn in Hbom. injection Hbom as -> _.
    by rewrite (proj2 (Z.ltb_lt 0 _) (multibyte_count_first cps _ _ Hbytes ltac:(lia))).
  - unfold detect_utf8_heuristic. rewrite Nat2Z.id.
    pose proof (detect_utf8_heuristic_loop_utf8 post cps Hall (length bytes) [] 0 s
                  ltac:(done)) as Hloop.
    cbn [app length Nat.add] in Hloop. change (Z.of_nat 0) with 0 in Hloop.
    by rewrite Z.add_0_l in Hloop.
Qed.

Lemma detect_encoding_utf8_both (cps post : list Z) (s : string) :
  Forall scalar_value cps ->
  detect_encoding (flat_map utf8_of_scalar cps ++ post)
    (Z.of_nat (length (flat_map utf8_of_scalar cps))) s =
    Normal (if 0 <? multibyte_count cps then UTF8 else ASCII) s /\
  (Forall (fun cp => cp <> 0) cps ->
   detect_encoding (flat_map utf8_of_scalar cps ++ 0 :: post) (-1) s =
     Normal (if 0 <? multibyte_count cps then UTF8 else ASCII) s).
Proof.
  intros Hall. split.
  - apply detect_encoding_utf8_input; [done|]. unfold effective_len.
    by rewrite (proj2 (Z.eqb_neq _ (-1))) by lia.
  - intros Hnz. apply detect_encoding_utf8_input; [done|].
    unfold effective_len, strlen. cbn [Z.eqb Pos.eqb].
    rewrite (strlen_from_nonzero _ post 0 (utf8_of_scalar_nonzero cps Hall Hnz)).
    by rewrite Z.add_0_l.
Qed.

(** X21: [detect_encoding], on the UTF-8 bytes of a sequence of scalar
    values, answers UTF-8 exactly when some scalar of the sequence is 0x80
    or more, and ASCII when all are below; with the length given, or with
    the default length and a terminator when no scalar is zero. *)
Theorem X21_detect_utf8 (cps post : list Z) (s : string) :
  Forall scalar_value cps ->
  detect_encoding (flat_map utf8_of_scalar cps ++ post)
    (Z.of_nat (length (flat_map utf8_of_scalar cps))) s =
    Normal (if 0 <? multibyte_count cps then UTF8 else ASCII) s /\
  (Forall (fun cp => cp <> 0) cps ->
   detect_encoding (flat_map utf8_of_scalar cps ++ 0 :: post) (-1) s =
     Normal (if 0 <? multibyte_count cps then UTF8 else ASCII) s).
Proof. apply detect_encoding_utf8_both. Qed.

Lemma X21_detect_utf8_witness :
  detect_encoding (flat_map utf8_of_scalar [0x48; 0xE9] ++ [])
    (Z.of_nat (length (flat_map utf8_of_scalar [0x48; 0xE9]))) default_members =
    Normal (if 0 <? multibyte_count [0x48; 0xE9] then UTF8 else ASCII) default_members /\
  detect_encoding (flat_map utf8_of_scalar [0x48; 0xE9] ++ 0 :: []) (-1) default_members =
    Normal (if 0 <? multibyte_count [0x48; 0xE9] then UTF8 else ASCII) default_members.
Proof.
  destruct (X21_detect_utf8 [0x48; 0xE9] [] default_members) as [Hexplicit Hdefault];
    [repeat constructor; unfold scalar_value; lia|].
  split; [exact Hexplicit|]. apply Hdefault. repeat constructor; lia.
Defined.

Lemma scalars_below_0x80 cps :
  Forall scalar_value cps -> multibyte_count cps = 0 ->
  flat_map utf8_of_scalar cps = cps /\ flat_map utf16_of_scalar cps = cps /\
  Forall (fun b => 0 <= b < 0x80) cps.
Proof.
  intros Hall Hzero. apply multibyte_count_zero in Hzero.
  induction Hall as [|cp cps Hcp Hall IH]; [done|].
  inversion Hzero as [|? ? Hlow Hzero']; subst.
  destruct (IH Hzero') as (H8 & H16 & Hrange). cbn [flat_map]. rewrite H8, H16.
  unfold scalar_value in Hcp. unfold utf8_of_scalar, utf16_of_scalar.
  rewrite (proj2 (Z.ltb_lt cp 0x80)), (proj2 (Z.ltb_lt cp 0x10000)) by lia.
  split_and!; try done. constructor; [lia|done].
Qed.

Lemma string_from_chars_utf8 (plain_char_signed : bool) (cps : list Z) :
  Forall scalar_value cps ->
  Z.of_nat (length (flat_map utf8_of_scalar cps)) < 2 ^ 63 ->
  (exists s,
     string_from_chars plain_char_signed (flat_map utf8_of_scalar cps)
       (Z.of_nat (length (flat_map utf8_of_scalar cps))) = Normal tt s /\
     holds s (flat_map utf16_of_scalar cps)) /\
  (Forall (fun cp => cp <> 0) cps ->
   exists s,
     string_from_chars plain_char_signed (flat_map utf8_of_scalar cps ++ [0]) (-1)
       = Normal tt s /\
     holds s (if 0 <? multibyte_count cps then flat_map utf16_of_scalar cps else [])).
Proof.
  intros Hall Hsize.
  destruct (convert_to_utf16_utf8 plain_char_signed cps [] default_members
              default_members_ok Hall Hsize) as [Hexplicit Hdefault].
  destruct (detect_encoding_utf8_both cps [] default_members Hall) as [Hd1 Hd2].
  pose proof (multibyte_count_nonneg cps) as Hnonneg.
  rewrite app_nil_r in Hexplicit, Hd1. unfold string_from_chars. split.
  - rewrite (bind_Normal _ _ _ _ _ Hd1).
    destruct (Z.ltb_spec 0 (multibyte_count cps)) as [Hmulti|Hnone]; [done|].
    destruct (scalars_below_0x80 cps Hall ltac:(lia)) as (H8 & H16 & Hrange).
    rewrite H8, H16 in *.
    destruct (convert_to_utf16_ascii_explicit plain_char_signed cps default_members
                default_members_ok Hsize) as (s & Hrun & Hok & _ & Hunits).
    exists s. split; [done|]. split; [done|]. rewrite Hunits. f_equal.
    clear -Hrange. induction Hrange as [|b bs Hb Hrange IH]; [done|].
    cbn [fmap list_fmap]. fold (fmap (M := list) (char_to_data_type plain_char_signed)).
    rewrite IH. f_equal. unfold char_to_data_type.
    rewrite (proj2 (Z.leb_gt 128 b)) by lia. by rewrite andb_false_r.
  - intros Hnz. rewrite (bind_Normal _ _ _ _ _ (Hd2 Hnz)).
    destruct (Z.ltb_spec 0 (multibyte_count cps)) as [Hmulti|Hnone]; [by apply Hdefault|].
    unfold convert_to_utf16. rewrite Z.eqb_refl.
    unfold bind at 1. unfold strlen_m, strlen.
    rewrite (strlen_from_nonzero _ [] 0 (utf8_of_scalar_nonzero cps Hall Hnz)).
    rewrite Z.add_0_l.
    destruct (ensure_capacity_spec (Z.of_nat (length (flat_map utf8_of_scalar cps)))
                default_members default_members_ok ltac:(lia))
      as (s1 & Hgrow & Hok1 & _).
    rewrite (bind_Normal _ _ _ _ _ Hgrow).
    destruct (set_len_zero_ok s1 Hok1) as [Hok0 Hunits0].
    eexists. split; [reflexivity|]. by split.
Qed.

(** X22: the constructor [string(str, len_in)] on the UTF-8 bytes of a
    sequence of scalar values and their number gives the string of the
    UTF-16 forms of the scalars.  With the default length and a terminator
    it does so when some scalar is 0x80 or more (and none is zero); when all
    scalars are below 0x80 the string is left empty. *)
Theorem X22_string_from_utf8 (plain_char_signed : bool) (cps : list Z) :
  Forall scalar_value cps ->
  Z.of_nat (length (flat_map utf8_of_scalar cps)) < 2 ^ 63 ->
  (exists s,
     string_from_chars plain_char_signed (flat_map utf8_of_scalar cps)
       (Z.of_nat (length (flat_map utf8_of_scalar cps))) = Normal tt s /\
     holds s (flat_map utf16_of_scalar cps)) /\
  (Forall (fun cp => cp <> 0) cps ->
   exists s,
     string_from_chars plain_char_signed (flat_map utf8_of_scalar cps ++ [0]) (-1)
       = Normal tt s /\
     holds s (if 0 <? multibyte_count cps then flat_map utf16_of_scalar cps else [])).
Proof. apply string_from_chars_utf8. Qed.

Lemma X22_string_from_utf8_witness :
  (exists s,
     string_from_chars false (flat_map utf8_of_scalar [0x48; 0xE9; 0x1F600])
       (Z.of_nat (length (flat_map utf8_of_scalar [0x48; 0xE9; 0x1F600]))) = Normal tt s /\
     holds s (flat_map utf16_of_scalar [0x48; 0xE9; 0x1F600])) /\
  (exists s,
     string_from_chars false (flat_map utf8_of_scalar [0x48; 0xE9; 0x1F600] ++ [0]) (-1)
       = Normal tt s /\
     holds s (if 0 <? multibyte_count [0x48; 0xE9; 0x1F600]
              then flat_map utf16_of_scalar [0x48; 0xE9; 0x1F600] else [])).
Proof.
  destruct (X22_string_from_utf8 false [0x48; 0xE9; 0x1F600]) as [Hexplicit Hdefault];
    [repeat constructor; unfold scalar_value; lia|vm_compute; reflexivity|].
  split; [exact Hexplicit|]. apply Hdefault. repeat constructor; lia.
Defined.

(** ** Further properties: concatenation and capacity *)

Lemma append_string_holds (us vs : list Z) (other s : string) :
  holds s us -> holds other vs ->
  Z.of_nat (length us + length vs) < 2 ^ 64 ->
  exists s',
    append_string other s = Normal tt s' /\
    holds s' (us ++ vs) /\
    _str_capacity s <= _str_capacity s'.
Proof.
  intros Hs Hother Hsize.
  pose proof (holds_len _ _ Hs) as Hlen. pose proof (holds_len _ _ Hother) as Hlen'.
  destruct Hs as [Hok Hunits]. destruct Hother as [Hok' Hunits'].
  destruct (append_string_frame other s Hok Hok' ltac:(lia))
    as (s' & Hrun & Hoks & _ & Hu & Hcap).
  exists s'. split_and!; try done. split; [done|].
  by rewrite Hu, Hunits, Hunits', fmap_app.
Qed.

(** X23: [operator+(const string &str)] on a string that holds at least
    one unit returns a string holding the units of the string followed by
    those of [str]. *)
Theorem X23_plus (us vs : list Z) (str this : string) :
  holds this us -> holds str vs -> us <> [] ->
  Z.of_nat (length us + length vs) < 2 ^ 64 ->
  exists result,
    plus str this = Normal tt result /\ holds result (us ++ vs).
Proof.
  intros Hthis Hstr Hne Hsize. unfold plus.
  destruct (copies_hold us this this Hthis) as [_ Hcopy].
  destruct (Hcopy Hne) as (copy & -> & Hholds & _).
  destruct (append_string_holds us vs str copy Hholds Hstr Hsize)
    as (result & Hrun & Hresult & _).
  by exists result.
Qed.

Lemma X23_plus_witness :
  exists result,
    plus string_X string_X = Normal tt result /\ holds result ([0x58] ++ [0x58]).
Proof.
  apply (X23_plus [0x58] [0x58] string_X string_X);
    [apply string_X_holds|apply string_X_holds|discriminate|cbn; lia].
Defined.

(** X24: [reserve(n)] keeps the units of the string and leaves a capacity
    of at least [n] that is not below the one before; [shrink_to_fit()]
    keeps the units and leaves a capacity equal to the length, with a data
    pointer that is not null. *)
Theorem X24_reserve_shrink (us : list Z) (n : Z) (s : string) :
  holds s us -> n < 2 ^ 64 ->
  (exists s',
     reserve n s = Normal tt s' /\ holds s' us /\
     n <= _str_capacity s' /\ _str_capacity s <= _str_capacity s') /\
  (exists s',
     shrink_to_fit s = Normal tt s' /\ holds s' us /\
     _str_capacity s' = Z.of_nat (length us) /\ ptr s' <> None).
Proof.
  intros Hs Hn. split.
  - destruct Hs as [Hok Hunits]. unfold reserve.
    destruct (ensure_capacity_spec n s Hok Hn) as (s' & Hrun & Hok' & _ & Hu & Hcap).
    pose proof (grown_capacity_ge (_str_capacity s) n) as [Hge1 Hge2].
    exists s'. split_and!; try done; try lia. split; [done|]. by rewrite Hu.
  - destruct s as [p l c]. destruct (holds_inv _ _ _ _ Hs) as (Hl & Hlc & Hc & Hp).
    unfold shrink_to_fit. cbn [ptr len _str_capacity]. destruct p as [buf|].
    + destruct Hp as [Hbuf Htake]. unfold memcpy. rewrite length_new_array by lia.
      rewrite !(proj2 (Z.leb_le _ _)) by lia. cbn [andb].
      eexists. split; [reflexivity|]. cbn [ptr len _str_capacity].
      split_and!; try done; try lia.
      assert (drop (Z.to_nat l) (@new_array Z l) = []) as ->.
      { apply drop_ge. unfold new_array. rewrite length_replicate. lia. }
      rewrite app_nil_r. subst l. rewrite Nat2Z.id.
      apply holds_intro; try lia.
      * rewrite length_take. lia.
      * by rewrite take_take, Nat.min_id.
    + destruct Hp as [_ ->]. cbn in Hl. subst l.
      eexists. split; [reflexivity|]. cbn [ptr len _str_capacity].
      by split_and!.
Qed.

Lemma X24_reserve_shrink_witness :
  (exists s',
     reserve 100 string_X = Normal tt s' /\ holds s' [0x58] /\
     100 <= _str_capacity s' /\ _str_capacity string_X <= _str_capacity s') /\
  (exists s',
     shrink_to_fit string_X = Normal tt s' /\ holds s' [0x58] /\
     _str_capacity s' = Z.of_nat (length [0x58]) /\ ptr s' <> None).
Proof.
  apply (X24_reserve_shrink [0x58] 100 string_X); [apply string_X_holds|lia].
Defined.

(** ** Further properties: construction from bytes that start with a BOM *)

Lemma highs_paired_bom us : highs_paired (0xFEFF :: us) <-> highs_paired us.
Proof.
  unfold highs_paired. split.
  - intros Hp k u Hk Hhigh. destruct (Hp (S k) u Hk Hhigh) as (l & Hl & Hlow).
    by exists l.
  - intros Hp [|k] u Hk Hhigh.
    + cbn in Hk. by simplify_eq.
    + destruct (Hp k u Hk Hhigh) as (l & Hl & Hlow). by exists l.
Qed.

Lemma convert_to_utf16_utf16 signed (little_endian : bool) us s :
  Forall unit16 us -> Z.of_nat (length us) < 2 ^ 62 -> buffer_ok s ->
  match convert_to_utf16 signed ((if little_endian then le_bytes else be_bytes) us)
          (2 * Z.of_nat (length us))
          (if little_endian then UTF16_LE else UTF16_BE) s with
  | Normal _ s' => highs_paired us /\ holds s' us
  | Throw e _ => ~ highs_paired us /\ kind_of e = InvalidSurrogate
  | Undefined | OutOfFuel => False
  end.
Proof.
  intros Hall Hsize Hok. unfold convert_to_utf16.
  rewrite (proj2 (Z.eqb_neq _ (-1))) by lia.
  unfold bind at 1. unfold ret at 1. rewrite to_size_type_small by lia.
  destruct (ensure_capacity_spec (2 * Z.of_nat (length us)) s Hok ltac:(lia))
    as (s1 & Hgrow & Hok1 & _).
  rewrite (bind_Normal _ _ _ _ _ Hgrow).
  unfold bind at 1. unfold set_len at 1.
  destruct (set_len_zero_ok s1 Hok1) as [Hok0 _].
  destruct little_endian.
  - pose proof (convert_utf16_spec unit_le le_bytes us _ unit_le_bytes Hall
                  ltac:(lia) Hok0) as Hrun.
    unfold convert_utf16le_to_utf16.
    by destruct ((ensure_capacity _ ;; _) _) as [[] s2|e s2| |].
  - pose proof (convert_utf16_spec unit_be be_bytes us _ unit_be_bytes Hall
                  ltac:(lia) Hok0) as Hrun.
    unfold convert_utf16be_to_utf16.
    by destruct ((ensure_capacity _ ;; _) _) as [[] s2|e s2| |].
Qed.

(** X25: the constructor [string(str, len_in)] on bytes that start with a
    UTF-16 BOM, in either byte order, followed by the bytes of the units
    [us] in that order: the BOM selects the 16-bit decoder of its byte order
    and stays in the string as its first unit, 0xFEFF.  The construction
    succeeds exactly when every high surrogate of [us] is followed by a low
    one, and throws with [InvalidSurrogate] otherwise. *)
Theorem X25_string_from_utf16_bom (plain_char_signed little_endian : bool)
    (us : list Z) :
  Forall unit16 us -> Z.of_nat (length us) + 1 < 2 ^ 62 ->
  match string_from_chars plain_char_signed
          ((if little_endian then le_bytes else be_bytes) (0xFEFF :: us))
          (2 * Z.of_nat (length (0xFEFF :: us))) with
  | Normal _ s => highs_paired us /\ holds s (0xFEFF :: us)
  | Throw e _ => ~ highs_paired us /\ kind_of e = InvalidSurrogate
  | Undefined | OutOfFuel => False
  end.
Proof.
  intros Hall Hsize. unfold string_from_chars.
  assert (Forall unit16 (0xFEFF :: us)) as Hall'.
  { constructor; [unfold unit16; lia|done]. }
  pose proof (convert_to_utf16_utf16 plain_char_signed little_endian (0xFEFF :: us)
                default_members Hall' ltac:(cbn [length]; lia) default_members_ok)
    as Hrun.
  assert (detect_encoding ((if little_endian then le_bytes else be_bytes) (0xFEFF :: us))
            (2 * Z.of_nat (length (0xFEFF :: us))) default_members =
          Normal (if little_endian then UTF16_LE else UTF16_BE) default_members) as Hdetect.
  { destruct little_endian.
    - apply (detect_encoding_utf16_le_bom (le_bytes us) _
               (2 * Z.of_nat (length (0xFEFF :: us)))); [|cbn [length]; lia].
      unfold effective_len. by rewrite (proj2 (Z.eqb_neq _ (-1))) by lia.
    - apply (detect_encoding_utf16_be_bom (be_bytes us) _
               (2 * Z.of_nat (length (0xFEFF :: us)))); [|cbn [length]; lia].
      unfold effective_len. by rewrite (proj2 (Z.eqb_neq _ (-1))) by lia. }
  rewrite (bind_Normal _ _ _ _ _ Hdetect).
  destruct (convert_to_utf16 _ _ _ _ _) as [[] s'|e s'| |]; try done.
  - destruct Hrun as [Hp Hs]. split; [by apply highs_paired_bom|done].
  - destruct Hrun as [Hp Hkind]. split; [|done]. by rewrite <- highs_paired_bom.
Qed.

Lemma X25_string_from_utf16_bom_witness :
  match string_from_chars false (le_bytes (0xFEFF :: [0x48; 0xD83D; 0xDE00]))
          (2 * Z.of_nat (length (0xFEFF :: [0x48; 0xD83D; 0xDE00]))) with
  | Normal _ s =>
      highs_paired [0x48; 0xD83D; 0xDE00] /\ holds s (0xFEFF :: [0x48; 0xD83D; 0xDE00])
  | Throw e _ => ~ highs_paired [0x48; 0xD83D; 0xDE00] /\ kind_of e = InvalidSurrogate
  | Undefined | OutOfFuel => False
  end.
Proof.
  apply (X25_string_from_utf16_bom false true [0x48; 0xD83D; 0xDE00]);
    [repeat constructor; unfold unit16; lia|cbn; lia].
Defined.

(** X26: the constructor [string(str, len_in)] on bytes that start with
    the UTF-32 big-endian BOM followed by the big-endian bytes of the
    scalars [cps]: the BOM selects the big-endian 32-bit decoder and stays
    in the string as its first unit, followed by the UTF-16 forms of the
    scalars; the construction throws with [InvalidCodepoint] exactly when
    some scalar is above 0x10FFFF. *)
Theorem X26_string_from_utf32_be_bom (plain_char_signed : bool) (cps : list Z) :
  Forall scalar32 cps -> Z.of_nat (length cps) + 1 < 2 ^ 60 ->
  match string_from_chars plain_char_signed
          (flat_map utf32be_of_scalar (0xFEFF :: cps))
          (4 * Z.of_nat (length (0xFEFF :: cps))) with
  | Normal _ s =>
      Forall (fun cp => cp <= 0x10FFFF) cps /\
      holds s (0xFEFF :: flat_map utf16_of_scalar cps)
  | Throw e _ =>
      ~ Forall (fun cp => cp <= 0x10FFFF) cps /\ kind_of e = InvalidCodepoint
  | Undefined | OutOfFuel => False
  end.
Proof.
  intros Hall Hsize. unfold string_from_chars.
  assert (Forall scalar32 (0xFEFF :: cps)) as Hall'.
  { constructor; [unfold scalar32; lia|done]. }
  pose proof (convert_to_utf16_utf32 plain_char_signed false (0xFEFF :: cps)
                default_members default_members_ok Hall' ltac:(cbn [length]; lia))
    as Hrun.
  cbv iota in Hrun.
  rewrite (bind_Normal _ _ _ _ _
             (detect_encoding_utf32_be_bom (flat_map utf32be_of_scalar cps)
                (4 * Z.of_nat (length (0xFEFF :: cps))) default_members
                ltac:(cbn [length]; lia))).
  destruct (convert_to_utf16 _ _ _ _ _) as [[] s'|e s'| |]; try done.
  - destruct Hrun as [Hvalid Hs]. split; [by inversion Hvalid|done].
  - destruct Hrun as [Hinvalid Hkind]. split; [|done].
    intros Hvalid. apply Hinvalid. constructor; [lia|done].
Qed.

Lemma X26_string_from_utf32_be_bom_witness :
  match string_from_chars false (flat_map utf32be_of_scalar (0xFEFF :: [0x1F600]))
          (4 * Z.of_nat (length (0xFEFF :: [0x1F600]))) with
  | Normal _ s =>
      Forall (fun cp => cp <= 0x10FFFF) [0x1F600] /\
      holds s (0xFEFF :: flat_map utf16_of_scalar [0x1F600])
  | Throw e _ =>
      ~ Forall (fun cp => cp <= 0x10FFFF) [0x1F600] /\ kind_of e = InvalidCodepoint
  | Undefined | OutOfFuel => False
  end.
Proof.
  apply (X26_string_from_utf32_be_bom false [0x1F600]);
    [repeat constructor; unfold scalar32; lia|cbn; lia].
Defined.

(** ** Further properties: the re-encoding to UTF-8 *)

Lemma bind_put_char {B} (r : list Z) (j : nat) v (k : list Z -> M B) s :
  (let* r' := put_char r (Z.of_nat j) v in k r') s =
  if decide (j < length r)%nat then k (<[j := v]> r) s else Undefined.
Proof.
  unfold bind, put_char. rewrite (proj2 (Z.leb_le 0 _)) by lia. cbn [andb].
  destruct (decide (j < length r)%nat) as [Hlt|Hge].
  - rewrite (proj2 (Z.ltb_lt _ _)) by lia. unfold ret. by rewrite Nat2Z.id.
  - by rewrite (proj2 (Z.ltb_ge _ _)) by lia.
Qed.

Lemma encode2_bits u :
  0x80 <= u < 0x800 ->
  to_char (Z.lor 0xC0 (Z.shiftr u 6)) = 0xC0 + u / 64 /\
  to_char (Z.lor 0x80 (Z.land u 0x3F)) = 0x80 + u mod 64.
Proof.
  intros Hu. unfold to_char. change 0x3F with (Z.ones 6).
  rewrite Z.land_ones, Z.shiftr_div_pow2 by lia. change (2 ^ 6) with 64.
  rewrite (lor_add 0xC0 _ 5), (lor_add 0x80 _ 6) by (done || div_lia).
  split; apply Z.mod_small; div_lia.
Qed.

Lemma encode3_bits u :
  0x800 <= u < 0x10000 ->
  to_char (Z.lor 0xE0 (Z.shiftr u 12)) = 0xE0 + u / 64 / 64 /\
  to_char (Z.lor 0x80 (Z.land (Z.shiftr u 6) 0x3F)) = 0x80 + u / 64 mod 64 /\
  to_char (Z.lor 0x80 (Z.land u 0x3F)) = 0x80 + u mod 64.
Proof.
  intros Hu. unfold to_char. change 0x3F with (Z.ones 6).
  rewrite !Z.land_ones, !Z.shiftr_div_pow2 by lia.
  change (2 ^ 6) with 64. replace (u / 2 ^ 12) with (u / 64 / 64) by div_lia.
  rewrite (lor_add 0xE0 _ 4) by (done || div_lia).
  rewrite (lor_add 0x80 (u / 64 mod 64) 6) by (done || div_lia).
  rewrite (lor_add 0x80 (u mod 64) 6) by (done || div_lia).
  split_and!; apply Z.mod_small; div_lia.
Qed.

Lemma encode4_bits cp :
  0x10000 <= cp <= 0x10FFFF ->
  to_unsigned_int
    (0x10000 + Z.shiftl (0xD800 + (cp - 0x10000) / 0x400 - 0xD800) 10 +
     (0xDC00 + (cp - 0x10000) mod 0x400 - 0xDC00)) = cp /\
  to_char (Z.lor 0xF0 (Z.shiftr cp 18)) = 0xF0 + cp / 64 / 64 / 64 /\
  to_char (Z.lor 0x80 (Z.land (Z.shiftr cp 12) 0x3F)) = 0x80 + cp / 64 / 64 mod 64 /\
  to_char (Z.lor 0x80 (Z.land (Z.shiftr cp 6) 0x3F)) = 0x80 + cp / 64 mod 64 /\
  to_char (Z.lor 0x80 (Z.land cp 0x3F)) = 0x80 + cp mod 64.
Proof.
  intros Hcp. unfold to_char, to_unsigned_int. change 0x3F with (Z.ones 6).
  rewrite !Z.land_ones, !Z.shiftr_div_pow2, Z.shiftl_mul_pow2 by lia.
  change (2 ^ 6) with 64.
  replace (cp / 2 ^ 18) with (cp / 64 / 64 / 64) by div_lia.
  replace (cp / 2 ^ 12) with (cp / 64 / 64) by div_lia.
  rewrite (lor_add 0xF0 _ 3) by (done || div_lia).
  rewrite (lor_add 0x80 (cp / 64 / 64 mod 64) 6) by (done || div_lia).
  rewrite (lor_add 0x80 (cp / 64 mod 64) 6) by (done || div_lia).
  rewrite (lor_add 0x80 (cp mod 64) 6) by (done || div_lia).
  split_and!; try (apply Z.mod_small; div_lia).
  rewrite Z.mod_small by div_lia. div_lia.
Qed.

Lemma throw_away_loop_scalars s cps :
  Forall text_scalar cps ->
  forall (fuel : nat) pre16 (j : nat) r,
    holds s (pre16 ++ flat_map utf16_of_scalar cps) ->
    (length cps <= fuel)%nat -> (j <= length r)%nat ->
    throw_away_post s cps j r
      (throw_away_loop fuel (Z.of_nat (length pre16)) (Z.of_nat j) r s).
Proof.
  induction 1 as [|cp cps Hcp Hall IH]; intros fuel pre16 j r Hs Hfuel Hj.
  { cbn [flat_map] in *. rewrite app_nil_r in Hs.
    pose proof (holds_len _ _ Hs) as Hlen.
    destruct fuel; cbn [throw_away_loop]; unfold bind at 1; unfold get_len at 1;
      rewrite Hlen, Z.ltb_irrefl; cbn; rewrite Nat.add_0_r, app_nil_r;
      split_and!; done || lia. }
  cbn [flat_map] in Hs.
  destruct fuel as [|fuel]; [cbn in Hfuel; lia|]. cbn [length] in Hfuel.
  pose proof (holds_len _ _ Hs) as Hlen.
  assert (forall (us bs : list Z) r1,
     utf16_of_scalar cp = us -> utf8_of_scalar cp = bs ->
     length r1 = length r -> (j + length bs <= length r)%nat ->
     take (j + length bs) r1 = take j r ++ bs ->
     throw_away_post s (cp :: cps) j r
       (throw_away_loop fuel (Z.of_nat (length pre16) + Z.of_nat (length us))
          (Z.of_nat j + Z.of_nat (length bs)) r1 s)) as Hnext.
  { intros us bs r1 Hus Hbs Hlen1 Hfit Htake1. rewrite Hus in Hs.
    pose proof (IH fuel (pre16 ++ us) (j + length bs)%nat r1
                  ltac:(by rewrite <- app_assoc) ltac:(lia) ltac:(lia)) as Hrun.
    rewrite length_app, !Nat2Z.inj_add in Hrun.
    unfold throw_away_post in *. cbn [flat_map]. rewrite Hbs, length_app.
    destruct (throw_away_loop _ _ _ _ _) as [r' s'| | |]; try done.
    - destruct Hrun as (-> & Hlen' & Hfit' & Htake'). split_and!; try done; try lia.
      rewrite Nat.add_assoc, Htake', Htake1. by rewrite <- app_assoc.
    - lia. }
  assert (forall bs,
     utf8_of_scalar cp = bs -> (length r < j + length bs)%nat ->
     throw_away_post s (cp :: cps) j r Undefined) as Hfail.
  { intros bs Hbs Hover. unfold throw_away_post. cbn [flat_map].
    rewrite Hbs, length_app. lia. }
  assert (forall u us,
     utf16_of_scalar cp = u :: us ->
     read_ptr (Z.of_nat (length pre16)) s = Normal u s) as Hread0.
  { intros u us Hus. apply (holds_read _ _ _ _ Hs). rewrite Hus.
    rewrite lookup_app_r by lia. by rewrite Nat.sub_diag. }
  assert (Z.of_nat (length pre16) < len s) as Hin.
  { rewrite Hlen, !length_app. pose proof (length_utf8_of_scalar cp).
    unfold utf16_of_scalar. destruct (cp <? 0x10000); cbn [length]; lia. }
  cbn [throw_away_loop]. unfold bind at 1. unfold get_len at 1.
  rewrite (proj2 (Z.ltb_lt _ _) Hin).
  unfold text_scalar in Hcp.
  destruct (Z.ltb_spec cp 0x80) as [Hc1|Hc1].
  - assert (utf8_of_scalar cp = [cp]) as Hbs.
    { unfold utf8_of_scalar. by rewrite (proj2 (Z.ltb_lt cp 0x80)) by lia. }
    assert (utf16_of_scalar cp = [cp]) as Hus.
    { unfold utf16_of_scalar. by rewrite (proj2 (Z.ltb_lt cp _)) by lia. }
    rewrite (bind_Normal _ _ _ _ _ (Hread0 _ _ Hus)). cbv zeta.
    rewrite (proj2 (Z.ltb_lt cp 0x80)) by lia.
    rewrite bind_put_char. unfold to_char. rewrite Z.mod_small by lia.
    destruct (decide (j < length r)%nat) as [Hfit|Hover].
    + apply (Hnext [cp] [cp] _ Hus Hbs); [by rewrite length_insert|cbn [length]; lia|].
      cbn [length]. rewrite Nat.add_1_r. by apply take_insert_next.
    + apply (Hfail _ Hbs). cbn [length]. lia.
  - destruct (Z.ltb_spec cp 0x800) as [Hc2|Hc2].
    + assert (utf8_of_scalar cp = [0xC0 + cp / 64; 0x80 + cp mod 64]) as Hbs.
      { unfold utf8_of_scalar. rewrite (proj2 (Z.ltb_ge cp 0x80)) by lia.
        by rewrite (proj2 (Z.ltb_lt cp 0x800)) by lia. }
      assert (utf16_of_scalar cp = [cp]) as Hus.
      { unfold utf16_of_scalar. by rewrite (proj2 (Z.ltb_lt cp _)) by lia. }
      destruct (encode2_bits cp ltac:(lia)) as [Hb0 Hb1].
      rewrite (bind_Normal _ _ _ _ _ (Hread0 _ _ Hus)). cbv zeta.
      rewrite (proj2 (Z.ltb_ge cp 0x80)) by lia.
      rewrite (proj2 (Z.ltb_lt cp 0x800)) by lia.
      rewrite Hb0, Hb1. rewrite bind_put_char.
      replace (Z.of_nat j + 1) with (Z.of_nat (S j)) by lia.
      rewrite bind_put_char, length_insert.
      destruct (decide (j < length r)%nat) as [Hfit0|Hover];
        [|apply (Hfail _ Hbs); cbn [length]; lia].
      destruct (decide (S j < length r)%nat) as [Hfit1|Hover];
        [|apply (Hfail _ Hbs); cbn [length]; lia].
      apply (Hnext [cp] _ _ Hus Hbs); [by rewrite !length_insert|cbn [length]; lia|].
      cbn [length]. replace (j + 2)%nat with (S (S j)) by lia.
      rewrite take_insert_next by (rewrite length_insert; lia).
      rewrite take_insert_next by lia. by rewrite <- app_assoc.
    + destruct (Z.ltb_spec cp 0x10000) as [Hc3|Hc3].
      * assert (utf8_of_scalar cp =
                [0xE0 + cp / 64 / 64; 0x80 + cp / 64 mod 64; 0x80 + cp mod 64]) as Hbs.
        { unfold utf8_of_scalar. rewrite (proj2 (Z.ltb_ge cp 0x80)) by lia.
          rewrite (proj2 (Z.ltb_ge cp 0x800)) by lia.
          by rewrite (proj2 (Z.ltb_lt cp 0x10000)) by lia. }
        assert (utf16_of_scalar cp = [cp]) as Hus.
        { unfold utf16_of_scalar. by rewrite (proj2 (Z.ltb_lt cp _)) by lia. }
        destruct (encode3_bits cp ltac:(lia)) as (Hb0 & Hb1 & Hb2).
        rewrite (bind_Normal _ _ _ _ _ (Hread0 _ _ Hus)). cbv zeta.
        rewrite (proj2 (Z.ltb_ge cp 0x80)) by lia.
        rewrite (proj2 (Z.ltb_ge cp 0x800)) by lia.
        assert ((0xD800 <=? cp) && (cp <=? 0xDBFF) = false) as -> by lia.
        assert ((0xDC00 <=? cp) && (cp <=? 0xDFFF) = false) as -> by lia.
        rewrite Hb0, Hb1, Hb2. rewrite bind_put_char.
        replace (Z.of_nat j + 1) with (Z.of_nat (S j)) by lia.
        rewrite bind_put_char, length_insert.
        replace (Z.of_nat j + 2) with (Z.of_nat (S (S j))) by lia.
        rewrite bind_put_char, !length_insert.
        destruct (decide (j < length r)%nat) as [Hfit0|Hover];
          [|apply (Hfail _ Hbs); cbn [length]; lia].
        destruct (decide (S j < length r)%nat) as [Hfit1|Hover];
          [|apply (Hfail _ Hbs); cbn [length]; lia].
        destruct (decide (S (S j) < length r)%nat) as [Hfit2|Hover];
          [|apply (Hfail _ Hbs); cbn [length]; lia].
        apply (Hnext [cp] _ _ Hus Hbs); [by rewrite !length_insert|cbn [length]; lia|].
        cbn [length]. replace (j + 3)%nat with (S (S (S j))) by lia.
        rewrite take_insert_next by (rewrite !length_insert; lia).
        rewrite take_insert_next by (rewrite length_insert; lia).
        rewrite take_insert_next by lia. by rewrite <- !app_assoc.
      * assert (utf8_of_scalar cp =
                [0xF0 + cp / 64 / 64 / 64; 0x80 + cp / 64 / 64 mod 64;
                 0x80 + cp / 64 mod 64; 0x80 + cp mod 64]) as Hbs.
        { unfold utf8_of_scalar. rewrite (proj2 (Z.ltb_ge cp 0x80)) by lia.
          rewrite (proj2 (Z.ltb_ge cp 0x800)) by lia.
          by rewrite (proj2 (Z.ltb_ge cp 0x10000)) by lia. }
        assert (utf16_of_scalar cp =
                [0xD800 + (cp - 0x10000) / 0x400; 0xDC00 + (cp - 0x10000) mod 0x400])
          as Hus.
        { unfold utf16_of_scalar. by rewrite (proj2 (Z.ltb_ge cp _)) by lia. }
        destruct (encode4_bits cp ltac:(lia)) as (Hcode & Hb0 & Hb1 & Hb2 & Hb3).
        set (hi := 0xD800 + (cp - 0x10000) / 0x400) in *.
        set (lo := 0xDC00 + (cp - 0x10000) mod 0x400) in *.
        assert (0xD800 <= hi <= 0xDBFF) as Hhi by (unfold hi; div_lia).
        assert (0xDC00 <= lo <= 0xDFFF) as Hlo by (unfold lo; div_lia).
        assert (read_ptr (Z.of_nat (length pre16) + 1) s = Normal lo s) as Hread1.
        { replace (Z.of_nat (length pre16) + 1) with (Z.of_nat (S (length pre16))) by lia.
          apply (holds_read _ _ _ _ Hs). rewrite Hus.
          rewrite lookup_app_r by lia.
          by replace (S (length pre16) - length pre16)%nat with 1%nat by lia. }
        rewrite (bind_Normal _ _ _ _ _ (Hread0 _ _ Hus)). cbv zeta.
        rewrite (proj2 (Z.ltb_ge hi 0x80)) by lia.
        rewrite (proj2 (Z.ltb_ge hi 0x800)) by lia.
        assert ((0xD800 <=? hi) && (hi <=? 0xDBFF) = true) as -> by lia.
        rewrite (bind_Normal _ _ _ _ _ Hread1).
        assert ((0xDC00 <=? lo) && (lo <=? 0xDFFF) = true) as -> by lia.
        rewrite Hcode, Hb0, Hb1, Hb2, Hb3. rewrite bind_put_char.
        replace (Z.of_nat j + 1) with (Z.of_nat (S j)) by lia.
        rewrite bind_put_char, length_insert.
        replace (Z.of_nat j + 2) with (Z.of_nat (S (S j))) by lia.
        rewrite bind_put_char, !length_insert.
        replace (Z.of_nat j + 3) with (Z.of_nat (S (S (S j)))) by lia.
        rewrite bind_put_char, !length_insert.
        destruct (decide (j < length r)%nat) as [Hfit0|Hover];
          [|apply (Hfail _ Hbs); cbn [length]; lia].
        destruct (decide (S j < length r)%nat) as [Hfit1|Hover];
          [|apply (Hfail _ Hbs); cbn [length]; lia].
        destruct (decide (S (S j) < length r)%nat) as [Hfit2|Hover];
          [|apply (Hfail _ Hbs); cbn [length]; lia].
        destruct (decide (S (S (S j)) < length r)%nat) as [Hfit3|Hover];
          [|apply (Hfail _ Hbs); cbn [length]; lia].
        rewrite <- Z.add_assoc. change (1 + 1) with 2.
        apply (Hnext _ _ _ Hus Hbs); [by rewrite !length_insert|cbn [length]; lia|].
        cbn [length]. replace (j + 4)%nat with (S (S (S (S j)))) by lia.
        rewrite take_insert_next by (rewrite !length_insert; lia).
        rewrite take_insert_next by (rewrite !length_insert; lia).
        rewrite take_insert_next by (rewrite length_insert; lia).
        rewrite take_insert_next by lia. by rewrite <- !app_assoc.
Qed.

Lemma text_scalar_value cps :
  Forall text_scalar cps ->
  Forall scalar_value cps /\ Forall (fun cp => cp <> 0) cps.
Proof.
  intros Hall. split; (eapply Forall_impl; [|exact Hall]);
    intros cp; unfold text_scalar, scalar_value; lia.
Qed.

Lemma strlen_from_all_nonzero (bs : list Z) n :
  Forall (fun b => b <> 0) bs -> strlen_from bs n = None.
Proof.
  intros Hall. revert n. induction Hall as [|b bs Hb Hall IH]; intros n; cbn; [done|].
  by rewrite (proj2 (Z.eqb_neq b 0)) by done.
Qed.

Lemma length_utf8_multibyte cps :
  Z.of_nat (length (flat_map utf16_of_scalar cps)) + multibyte_count cps <=
    Z.of_nat (length (flat_map utf8_of_scalar cps)) /\
  (length cps <= length (flat_map utf16_of_scalar cps))%nat.
Proof.
  induction cps as [|cp cps IH]; [done|]. cbn [flat_map multibyte_count length].
  rewrite !length_app. unfold utf8_of_scalar at 1. unfold utf16_of_scalar at 1 3.
  destruct (Z.ltb_spec cp 0x80); [|destruct (Z.ltb_spec cp 0x800)];
    destruct (Z.ltb_spec cp 0x10000); cbn [length]; cbv iota; lia.
Qed.

Lemma throw_away_scalars (cps : list Z) (s : string) :
  Forall text_scalar cps -> holds s (flat_map utf16_of_scalar cps) ->
  Z.of_nat (length (flat_map utf16_of_scalar cps)) < 2 ^ 63 ->
  throw_away s =
    if 0 <? multibyte_count cps then Undefined
    else Normal {| c_str := flat_map utf8_of_scalar cps ++ [0];
                   size := Z.of_nat (length (flat_map utf8_of_scalar cps)) |} s.
Proof.
  intros Hall Hs Hsize.
  destruct (text_scalar_value cps Hall) as [Hvalid Hnz].
  destruct (length_utf8_multibyte cps) as [Hbytes Hcount].
  pose proof (holds_len _ _ Hs) as Hlen.
  destruct (Z.ltb_spec 0 (multibyte_count cps)) as [Hmulti|Hnone].
  - unfold throw_away.
    destruct (ptr s) as [buf|] eqn:Hptr.
    + rewrite Hlen, to_size_type_small by lia. rewrite Nat2Z.id.
      pose proof (throw_away_loop_scalars s cps Hall
                    (length (flat_map utf16_of_scalar cps)) [] 0
                    (replicate (Z.to_nat (Z.of_nat (length (flat_map utf16_of_scalar cps)) + 1)) 0)
                    Hs Hcount ltac:(lia)) as Hloop.
      cbn [length] in Hloop. change (Z.of_nat 0) with 0 in Hloop.
      unfold throw_away_post in Hloop. rewrite length_replicate in Hloop.
      destruct (throw_away_loop _ _ _ _ _) as [r' s'| | |]; try done.
      destruct Hloop as (-> & Hlen' & Hfit & Htake).
      rewrite take_0, app_nil_l, take_ge in Htake by lia. subst r'.
      unfold throw_away_string_of, strlen.
      by rewrite (strlen_from_all_nonzero _ 0 (utf8_of_scalar_nonzero cps Hvalid Hnz)).
    + destruct s as [p l c]. cbn in Hptr. subst p.
      destruct (holds_inv _ _ _ _ Hs) as (_ & _ & _ & _ & Hnil).
      destruct cps as [|cp cps]; [cbn in Hmulti; lia|].
      cbn [flat_map] in Hnil. unfold utf16_of_scalar in Hnil.
      by destruct (cp <? 0x10000).
  - destruct (scalars_below_0x80 cps Hvalid ltac:(pose proof (multibyte_count_nonneg cps); lia))
      as (H8 & H16 & Hrange).
    rewrite H8, H16 in *.
    assert (Forall seven_bit cps) as Hseven.
    { apply Forall_forall. intros cp Hin.
      pose proof (proj1 (Forall_forall _ _) Hrange cp Hin).
      pose proof (proj1 (Forall_forall _ _) Hnz cp Hin).
      cbv beta in *. unfold seven_bit. lia. }
    destruct (ptr s) as [buf|] eqn:Hptr.
    + apply throw_away_seven_bit; try done; try lia.
      * by destruct Hs.
      * by rewrite Hptr.
      * by destruct Hs.
    + destruct s as [p l c]. cbn in Hptr. subst p.
      destruct (holds_inv _ _ _ _ Hs) as (-> & _ & _ & -> & ->). done.
Qed.

(** X27: [throw_away()], on a string that holds the UTF-16 forms of a
    sequence of scalars of text (none zero, none a surrogate value), returns
    their UTF-8 bytes and a terminator when every scalar is below 0x80.
    When some scalar is 0x80 or more it has undefined behaviour: the array
    it writes to has one byte per code unit and one more, which the bytes
    fill or exceed, so that a store or the search for the terminator leaves
    the array. *)
Theorem X27_throw_away (cps : list Z) (s : string) :
  Forall text_scalar cps -> holds s (flat_map utf16_of_scalar cps) ->
  Z.of_nat (length (flat_map utf16_of_scalar cps)) < 2 ^ 63 ->
  throw_away s =
    if 0 <? multibyte_count cps then Undefined
    else Normal {| c_str := flat_map utf8_of_scalar cps ++ [0];
                   size := Z.of_nat (length (flat_map utf8_of_scalar cps)) |} s.
Proof. apply throw_away_scalars. Qed.

Lemma X27_throw_away_witness :
  throw_away string_X =
    if 0 <? multibyte_count [0x58] then Undefined
    else Normal {| c_str := flat_map utf8_of_scalar [0x58] ++ [0];
                   size := Z.of_nat (length (flat_map utf8_of_scalar [0x58])) |} string_X.
Proof.
  apply (X27_throw_away [0x58] string_X);
    [repeat constructor; unfold text_scalar; lia|apply string_X_holds|cbn; lia].
Defined.

(** X28: the round trip through the class: constructing a string from the
    UTF-8 bytes of a sequence of scalars of text, with their number, and
    calling [throw_away()] on it gives the bytes back when every scalar is
    below 0x80, and has undefined behaviour when some scalar is 0x80 or
    more. *)
Theorem X28_roundtrip (plain_char_signed : bool) (cps : list Z) :
  Forall text_scalar cps ->
  Z.of_nat (length (flat_map utf8_of_scalar cps)) < 2 ^ 63 ->
  exists s,
    string_from_chars plain_char_signed (flat_map utf8_of_scalar cps)
      (Z.of_nat (length (flat_map utf8_of_scalar cps))) = Normal tt s /\
    throw_away s =
      if 0 <? multibyte_count cps then Undefined
      else Normal {| c_str := flat_map utf8_of_scalar cps ++ [0];
                     size := Z.of_nat (length (flat_map utf8_of_scalar cps)) |} s.
Proof.
  intros Hall Hsize. destruct (text_scalar_value cps Hall) as [Hvalid _].
  destruct (string_from_chars_utf8 plain_char_signed cps Hvalid Hsize)
    as [(s & Hrun & Hs) _].
  exists s. split; [done|]. apply throw_away_scalars; try done.
  pose proof (length_flat_map_utf8 cps). lia.
Qed.

Lemma X28_roundtrip_witness :
  exists s,
    string_from_chars false (flat_map utf8_of_scalar [0x48; 0xE9])
      (Z.of_nat (length (flat_map utf8_of_scalar [0x48; 0xE9]))) = Normal tt s /\
    throw_away s =
      if 0 <? multibyte_count [0x48; 0xE9] then Undefined
      else Normal {| c_str := flat_map utf8_of_scalar [0x48; 0xE9] ++ [0];
                     size := Z.of_nat (length (flat_map utf8_of_scalar [0x48; 0xE9])) |} s.
Proof.
  apply (X28_roundtrip false [0x48; 0xE9]);
    [repeat constructor; unfold text_scalar; lia|vm_compute; reflexivity].
Defined.

(** ** Further properties: what the UTF-8 decoder rejects *)

Lemma byte_tests b :
  0 <= b < 256 ->
  (Z.land b 0xE0 =? 0xC0) = (0xC0 <=? b) && (b <? 0xE0) /\
  (Z.land b 0xF0 =? 0xE0) = (0xE0 <=? b) && (b <? 0xF0) /\
  (Z.land b 0xF8 =? 0xF0) = (0xF0 <=? b) && (b <? 0xF8) /\
  (Z.land b 0xC0 =? 0x80) = (0x80 <=? b) && (b <? 0xC0).
Proof.
  intros Hb.
  pose proof (range_check
    (fun b => Bool.eqb (Z.land b 0xE0 =? 0xC0) ((0xC0 <=? b) && (b <? 0xE0)) &&
              Bool.eqb (Z.land b 0xF0 =? 0xE0) ((0xE0 <=? b) && (b <? 0xF0)) &&
              Bool.eqb (Z.land b 0xF8 =? 0xF0) ((0xF0 <=? b) && (b <? 0xF8)) &&
              Bool.eqb (Z.land b 0xC0 =? 0x80) ((0x80 <=? b) && (b <? 0xC0)))
    256 ltac:(vm_compute; reflexivity) b Hb) as H.
  cbv beta in H. apply andb_true_iff in H as [H H4].
  apply andb_true_iff in H as [H H3]. apply andb_true_iff in H as [H1 H2].
  apply Bool.eqb_prop in H1, H2, H3, H4. done.
Qed.

Lemma continuation_test c :
  0 <= c < 256 -> ~ continuation_byte c -> negb (Z.land c 0xC0 =? 0x80) = true.
Proof.
  intros Hc Hnot. destruct (byte_tests c Hc) as (_ & _ & _ & ->).
  unfold continuation_byte in Hnot. lia.
Qed.

Lemma convert_utf8_loop_malformed fuel str n (i : nat) idx s :
  Forall (fun b => 0 <= b < 256) str ->
  Z.of_nat i < n -> malformed_at str n i ->
  exists what,
    convert_utf8_loop (S fuel) str n (Z.of_nat i) idx s = Throw (runtime_error what) s.
Proof.
  intros Hbytes Hi (b & Hb & Hcase).
  assert (forall (k : nat) c, str !! k = Some c -> 0 <= c < 256) as Hbyte.
  { intros k c Hk. by apply (proj1 (Forall_lookup _ _) Hbytes k c). }
  assert (forall (k : nat) c st, str !! (i + k)%nat = Some c ->
            char_at str (Z.of_nat i + Z.of_nat k) st = Normal c st) as Hread.
  { intros k c st Hk. rewrite <- Nat2Z.inj_add. by apply char_at_lookup. }
  destruct (byte_tests b (Hbyte _ _ Hb)) as (T2 & T3 & T4 & _).
  cbn [convert_utf8_loop]. rewrite (proj2 (Z.ltb_lt _ _) Hi).
  rewrite (bind_Normal _ _ _ _ _ (char_at_lookup _ _ _ s Hb)). cbv beta.
  rewrite T2, T3, T4.
  destruct Hcase as [Hstart|[[Hlead Hbad]|[[Hlead Hbad]|[Hlead Hbad]]]].
  - rewrite (proj2 (Z.ltb_ge b 0x80)) by lia.
    assert ((0xC0 <=? b) && (b <? 0xE0) = false) as -> by lia.
    assert ((0xE0 <=? b) && (b <? 0xF0) = false) as -> by lia.
    assert ((0xF0 <=? b) && (b <? 0xF8) = false) as -> by lia.
    by eexists.
  - rewrite (proj2 (Z.ltb_ge b 0x80)) by lia.
    assert ((0xC0 <=? b) && (b <? 0xE0) = true) as -> by lia.
    destruct (Z.leb_spec n (Z.of_nat i + 1)) as [Hcut|Hmore]; [by eexists|].
    destruct Hbad as [?|(c1 & H1 & Hnot)]; [lia|].
    rewrite (bind_Normal _ _ _ _ _ (Hread 1%nat c1 s H1)). cbv beta.
    rewrite (continuation_test c1 (Hbyte _ _ H1) Hnot). by eexists.
  - rewrite (proj2 (Z.ltb_ge b 0x80)) by lia.
    assert ((0xC0 <=? b) && (b <? 0xE0) = false) as -> by lia.
    assert ((0xE0 <=? b) && (b <? 0xF0) = true) as -> by lia.
    destruct (Z.leb_spec n (Z.of_nat i + 2)) as [Hcut|Hmore]; [by eexists|].
    destruct Hbad as [?|(c1 & c2 & H1 & H2 & Hnot)]; [lia|].
    rewrite (bind_Normal _ _ _ _ _ (Hread 1%nat c1 s H1)). cbv beta.
    rewrite (bind_Normal _ _ _ _ _ (Hread 2%nat c2 s H2)). cbv beta.
    destruct Hnot as [Hnot|Hnot];
      [rewrite (continuation_test c1 (Hbyte _ _ H1) Hnot)
      |rewrite (continuation_test c2 (Hbyte _ _ H2) Hnot)];
      rewrite ?orb_true_r; by eexists.
  - rewrite (proj2 (Z.ltb_ge b 0x80)) by lia.
    assert ((0xC0 <=? b) && (b <? 0xE0) = false) as -> by lia.
    assert ((0xE0 <=? b) && (b <? 0xF0) = false) as -> by lia.
    assert ((0xF0 <=? b) && (b <? 0xF8) = true) as -> by lia.
    destruct (Z.leb_spec n (Z.of_nat i + 3)) as [Hcut|Hmore]; [by eexists|].
    destruct Hbad as [?|(c1 & c2 & c3 & H1 & H2 & H3 & Hnot)]; [lia|].
    rewrite (bind_Normal _ _ _ _ _ (Hread 1%nat c1 s H1)). cbv beta.
    rewrite (bind_Normal _ _ _ _ _ (Hread 2%nat c2 s H2)). cbv beta.
    rewrite (bind_Normal _ _ _ _ _ (Hread 3%nat c3 s H3)). cbv beta.
    destruct Hnot as [Hnot|[Hnot|Hnot]];
      [rewrite (continuation_test c1 (Hbyte _ _ H1) Hnot)
      |rewrite (continuation_test c2 (Hbyte _ _ H2) Hnot)
      |rewrite (continuation_test c3 (Hbyte _ _ H3) Hnot)];
      rewrite ?orb_true_r; by eexists.
Qed.

(** The UTF-8 decode of [n] bytes throws at the first byte that cannot
    start a sequence, or whose sequence is cut or has a byte that is not a
    continuation byte. *)
Lemma convert_to_utf16_utf8_malformed (plain_char_signed : bool) (cps rest : list Z)
    (n : Z) (s : string) :
  buffer_ok s -> Forall scalar_value cps ->
  Forall (fun b => 0 <= b < 256) (flat_map utf8_of_scalar cps ++ rest) ->
  Z.of_nat (length (flat_map utf8_of_scalar cps)) < n -> n < 2 ^ 63 ->
  malformed_at (flat_map utf8_of_scalar cps ++ rest) n
    (length (flat_map utf8_of_scalar cps)) ->
  exists e s',
    convert_to_utf16 plain_char_signed (flat_map utf8_of_scalar cps ++ rest) n UTF8 s
      = Throw e s' /\
    kind_of e = MalformedSequence.
Proof.
  intros Hok Hall Hbytes Hlong Hsize Hbad.
  destruct (length_flat_map_utf8 cps) as [Hunits Hcount].
  assert (exists e s',
            convert_to_utf16 plain_char_signed (flat_map utf8_of_scalar cps ++ rest) n UTF8 s
            = Throw e s') as (e & s' & Hrun).
  { unfold convert_to_utf16. rewrite (proj2 (Z.eqb_neq n (-1))) by lia.
    unfold bind at 1. unfold ret at 1. rewrite to_size_type_small by lia.
    destruct (ensure_capacity_spec n s Hok ltac:(lia))
      as (s1 & Hgrow & Hok1 & _ & _ & Hcap1).
    pose proof (grown_capacity_ge (_str_capacity s) n) as [Hge _].
    rewrite (bind_Normal _ _ _ _ _ Hgrow).
    unfold bind at 1. unfold set_len at 1. unfold convert_utf8_to_utf16.
    destruct s1 as [p l c]. destruct Hok1 as (Hl & Hc & Hbuf). cbn in *.
    destruct p as [buf|]; [|cbn in Hbuf; lia].
    destruct (convert_utf8_loop_prefix rest 0 c n cps Hall
                (Z.to_nat n - length cps) [] buf 0
                ltac:(cbn [length Nat.add]; lia) ltac:(cbn; lia) Hbuf)
      as (buf' & Hprefix & _).
    cbn [app length Nat.add] in Hprefix. change (Z.of_nat 0) with 0 in Hprefix.
    replace (length cps + (Z.to_nat n - length cps))%nat with (Z.to_nat n) in Hprefix
      by lia.
    destruct (Z.to_nat n - length cps)%nat as [|extra] eqn:Hextra; [lia|].
    destruct (convert_utf8_loop_malformed extra _ n _
                (Z.of_nat (length (flat_map utf16_of_scalar cps)))
                {| ptr := Some buf'; len := 0; _str_capacity := c |}
                Hbytes Hlong Hbad) as (what & Hthrow).
    rewrite Hthrow in Hprefix. unfold bind at 1. rewrite Hprefix. by eexists _, _. }
  exists e, s'. split; [done|].
  pose proof (convert_to_utf16_throws plain_char_signed _ n UTF8 s e s' Hrun) as Hkind.
  cbn in Hkind. by simplify_eq.
Qed.

(** X29: the UTF-8 decoder rejects what follows a well-formed prefix when
    it is a byte that cannot start a sequence (0x80 to 0xBF, 0xF8 to 0xFF),
    a lead byte whose sequence is cut by the end of the input, or a lead
    byte followed, where its continuation bytes are due, by a byte that is
    not one: the decode throws, with [MalformedSequence]. *)
Theorem X29_utf8_decode_rejects (plain_char_signed : bool) (cps rest : list Z)
    (n : Z) (s : string) :
  buffer_ok s -> Forall scalar_value cps ->
  Forall (fun b => 0 <= b < 256) (flat_map utf8_of_scalar cps ++ rest) ->
  Z.of_nat (length (flat_map utf8_of_scalar cps)) < n -> n < 2 ^ 63 ->
  malformed_at (flat_map utf8_of_scalar cps ++ rest) n
    (length (flat_map utf8_of_scalar cps)) ->
  exists e s',
    convert_to_utf16 plain_char_signed (flat_map utf8_of_scalar cps ++ rest) n UTF8 s
      = Throw e s' /\
    kind_of e = MalformedSequence.
Proof. apply convert_to_utf16_utf8_malformed. Qed.

Lemma X29_utf8_decode_rejects_witness :
  exists e s',
    convert_to_utf16 false (flat_map utf8_of_scalar [0x48] ++ [0xC3; 0x28]) 3 UTF8
      default_members = Throw e s' /\
    kind_of e = MalformedSequence.
Proof.
  apply (X29_utf8_decode_rejects false [0x48] [0xC3; 0x28] 3 default_members);
    [apply default_members_ok|repeat constructor; unfold scalar_value; lia|
     repeat constructor; lia|cbn; lia|lia|].
  exists 0xC3. split; [reflexivity|]. right. left. split; [lia|]. right.
  exists 0x28. split; [reflexivity|]. unfold continuation_byte. lia.
Defined.

(** ** Decode failures *)



(** ** Further properties: assignment from an array of code units *)

(** X30: [operator=(const_type str)] measures [str] with the [strlen] of
    bytes: when the first unit of [str] is below 0x100 and not zero, one of
    its two bytes is zero, whatever units follow.  On a big-endian platform
    the string is then left empty.  On a little-endian platform it is left
    holding that one unit when its data pointer is null or its capacity is
    at least 1; when the data pointer is not null and the capacity is 0 (as
    [shrink_to_fit()] leaves an empty string) the behaviour is undefined:
    [ensure_capacity(1)] copies [len = 1] unit out of an array of no
    element. *)
Theorem X30_assign_units (u0 : Z) (rest : list Z) (s : string) :
  buffer_ok s -> 0 < u0 < 0x100 ->
  (ptr s = None \/ 1 <= _str_capacity s ->
   exists s', assign_units true (u0 :: rest) s = Normal tt s' /\ holds s' [u0]) /\
  (ptr s <> None -> _str_capacity s = 0 ->
   assign_units true (u0 :: rest) s = Undefined) /\
  (exists s', assign_units false (u0 :: rest) s = Normal tt s' /\ holds s' []).
Proof.
  intros (Hlen & Hcap & Hbuf) Hu0.
  assert (Z.land u0 0xFF = u0) as Hlow.
  { change 0xFF with (Z.ones 8). rewrite Z.land_ones by lia. apply Z.mod_small. lia. }
  assert (Z.shiftr u0 8 = 0) as Hhigh.
  { rewrite Z.shiftr_div_pow2 by lia. apply Z.div_small. lia. }
  unfold assign_units, strlen. cbn [flat_map unit_bytes app strlen_from].
  rewrite Hlow, Hhigh. rewrite (proj2 (Z.eqb_neq u0 0)) by lia. cbn [Z.eqb].
  change (0 + 1) with 1. destruct s as [p l c]. cbn [ptr len _str_capacity] in *.
  split_and!.
  - intros Hroom.
    unfold bind, set_len, ensure_capacity, memcpy_to_ptr. cbn [ptr len _str_capacity].
    destruct p as [buf|].
    + destruct Hroom as [?|Hroom]; [done|].
      rewrite (proj2 (Z.ltb_ge c 1)) by lia. cbn [ptr len _str_capacity].
      unfold memcpy. cbn [fmap list_fmap length].
      rewrite !(proj2 (Z.leb_le _ _)) by lia. cbn [andb].
      eexists. split; [reflexivity|].
      destruct buf as [|b buf]; [cbn in Hbuf; lia|].
      apply holds_intro; cbn [length]; try done; try lia.
    + assert (c = 0) as -> by (cbn in Hbuf; lia).
      cbn -[new_array]. unfold memcpy, new_array. cbn.
      rewrite length_replicate. change (Z.to_nat 8) with 8%nat.
      change (Z.to_nat 1) with 1%nat.
      rewrite !(proj2 (Z.leb_le 1 _)) by lia. cbn [andb take drop replicate app].
      eexists. split; [reflexivity|]. apply holds_intro; cbn; done || lia.
  - intros Hptr ->. destruct p as [buf|]; [|done].
    destruct buf as [|b buf]; [|cbn in Hbuf; lia].
    reflexivity.
  - unfold bind, set_len, ensure_capacity, memcpy_to_ptr. cbn [ptr len _str_capacity].
    rewrite (proj2 (Z.ltb_ge c 0)) by lia. cbn [ptr len _str_capacity].
    destruct p as [buf|].
    + unfold memcpy. cbn [Z.leb Z.compare andb].
      rewrite !(proj2 (Z.leb_le 0 _)) by lia. cbn [andb].
      eexists. split; [reflexivity|]. change (Z.to_nat 0) with 0%nat.
      rewrite take_0, drop_0, app_nil_l.
      apply holds_intro; cbn [length]; try done; lia.
    + eexists. split; [reflexivity|]. split; [|done].
      unfold buffer_ok. cbn. lia.
Qed.

Lemma X30_assign_units_witness :
  (exists s', assign_units true (0x48 :: [0x69; 0]) string_X = Normal tt s' /\
              holds s' [0x48]) /\
  assign_units true (0x48 :: [0x69; 0]) (mk_string (Some []) 0 0) = Undefined /\
  (exists s', assign_units false (0x48 :: [0x69; 0]) string_X = Normal tt s' /\
              holds s' []).
Proof.
  destruct (X30_assign_units 0x48 [0x69; 0] string_X) as (Hle & _ & Hbe);
    [apply string_X_ok|lia|].
  destruct (X30_assign_units 0x48 [0x69; 0] (mk_string (Some []) 0 0))
    as (_ & Hundefined & _); [unfold buffer_ok; cbn; lia|lia|].
  split_and!.
  - apply Hle. right. cbn. lia.
  - by apply Hundefined.
  - exact Hbe.
Defined.
